(** * Balrog blobs: three-way merge, variant dispatch and validation

    A shallow embedding of [auslib/blobs/base.py] (Python 2):
    [merge_lists], [merge_dicts], [createBlob] and [Blob.validate].

    Documents are the values [simplejson] produces: [None], booleans,
    integers ([int] and [long]), byte strings ([str]), text strings
    ([unicode]), lists and dicts with string keys.  Floating-point numbers
    are outside the model.  A dict is an association list in insertion
    order; Python's [==] on dicts ignores that order, and so does [py_eq].

    The merge is embedded twice: over documents as values ([Merge]), and
    over a store of mutable objects ([Heap]), where what a call writes can
    be stated; the second is shown to compute what the first does. *)

From Stdlib Require Import List String Ascii ZArith Bool Arith Lia Permutation.
Import ListNotations.

Local Open Scope string_scope.
Local Open Scope bool_scope.
Local Open Scope list_scope.

Set Implicit Arguments.

(* ================================================================= *)
(** ** Python objects *)

Module Py.

Unset Elimination Schemes.

Inductive value : Type :=
| VNone
| VBool (b : bool)
| VInt (z : Z)
| VLong (z : Z)
| VStr (s : string)
| VUnicode (s : string)
| VList (items : list value)
| VDict (items : list (string * value)).

Set Elimination Schemes.

(** A dict with string keys; the first binding of a key is the live one. *)
Definition dict : Type := list (string * value).

(** The runtime types [type(x)] can return on such values. *)
Inductive pytype : Type :=
| TNone | TBool | TInt | TLong | TStr | TUnicode | TList | TDict.

Definition type (v : value) : pytype :=
  match v with
  | VNone => TNone
  | VBool _ => TBool
  | VInt _ => TInt
  | VLong _ => TLong
  | VStr _ => TStr
  | VUnicode _ => TUnicode
  | VList _ => TList
  | VDict _ => TDict
  end.

Definition pytype_eqb (t u : pytype) : bool :=
  match t, u with
  | TNone, TNone | TBool, TBool | TInt, TInt | TLong, TLong
  | TStr, TStr | TUnicode, TUnicode | TList, TList | TDict, TDict => true
  | _, _ => false
  end.

(** [issubclass(t, u)]: in Python 2 [bool] derives from [int]; no other
    two of the eight types are related. *)
Definition issubclass (t u : pytype) : bool :=
  pytype_eqb t u ||
  match t, u with
  | TBool, TInt => true
  | _, _ => false
  end.

(** [isinstance(v, t)] *)
Definition isinstance (v : value) (t : pytype) : bool :=
  issubclass (type v) t.

(** *** Dict primitives *)

Fixpoint assoc (V : Type) (key : string) (d : list (string * V)) : option V :=
  match d with
  | [] => None
  | (k, v) :: rest => if String.eqb key k then Some v else assoc key rest
  end.

(** [d.keys()] *)
Definition keys (V : Type) (d : list (string * V)) : list string :=
  map fst d.

(** [key in d] *)
Definition contains (d : dict) (key : string) : bool :=
  match assoc key d with
  | Some _ => true
  | None => false
  end.

(** [d.get(key, default)] *)
Definition get_default (d : dict) (key : string) (default : value) : value :=
  match assoc key d with
  | Some v => v
  | None => default
  end.

(** [d.get(key)] *)
Definition get (d : dict) (key : string) : value :=
  get_default d key VNone.

(** [d[key]].  Every subscript of [merge_dicts] is evaluated behind a
    [key in d] test of the same condition, where it cannot raise
    [KeyError]; see [item_guarded]. *)
Definition item (d : dict) (key : string) : value :=
  get d key.

(** [d[key] = v]: replace the binding in place, or append a new one. *)
Fixpoint setitem (d : dict) (key : string) (v : value) : dict :=
  match d with
  | [] => [(key, v)]
  | (k, x) :: rest =>
      if String.eqb key k then (k, v) :: rest
      else (k, x) :: setitem rest key v
  end.

(** *** Equality *)

(** The number a [bool], [int] or [long] stands for. *)
Definition number (v : value) : option Z :=
  match v with
  | VBool b => Some (Z.b2z b)
  | VInt z | VLong z => Some z
  | _ => None
  end.

Definition is_ascii (s : string) : bool :=
  forallb (fun c => Nat.ltb (nat_of_ascii c) 128) (list_ascii_of_string s).

(** A [str] and a [unicode] compare equal when the bytes decode as ASCII
    to the same text; otherwise Python 2 reports them unequal. *)
Definition str_unicode_eq (s u : string) : bool :=
  is_ascii s && String.eqb s u.

(** [v == w] *)
Fixpoint py_eq (v w : value) {struct v} : bool :=
  match v with
  | VNone => match w with VNone => true | _ => false end
  | VBool b =>
      match number w with Some z => Z.eqb (Z.b2z b) z | None => false end
  | VInt n | VLong n =>
      match number w with Some z => Z.eqb n z | None => false end
  | VStr s =>
      match w with
      | VStr t => String.eqb s t
      | VUnicode u => str_unicode_eq s u
      | _ => false
      end
  | VUnicode u =>
      match w with
      | VStr s => str_unicode_eq s u
      | VUnicode u' => String.eqb u u'
      | _ => false
      end
  | VList xs =>
      match w with
      | VList ys =>
          (fix list_eq (xs ys : list value) {struct xs} : bool :=
             match xs, ys with
             | [], [] => true
             | x :: xs', y :: ys' => py_eq x y && list_eq xs' ys'
             | _, _ => false
             end) xs ys
      | _ => false
      end
  | VDict d =>
      match w with
      | VDict e =>
          Nat.eqb (List.length d) (List.length e) &&
          (fix all_in (d : list (string * value)) {struct d} : bool :=
             match d with
             | [] => true
             | (k, x) :: d' =>
                 match assoc k e with
                 | Some y => py_eq x y
                 | None => false
                 end && all_in d'
             end) d
      | _ => false
      end
  end.

(** [v != w] *)
Definition py_ne (v w : value) : bool := negb (py_eq v w).

(** [i in result] on a list *)
Definition py_in (i : value) (result : list value) : bool :=
  existsb (fun x => py_eq x i) result.

(** [result[result.index(i)]]: the first element equal to [i]. *)
Fixpoint first_equal (i : value) (result : list value) : option value :=
  match result with
  | [] => None
  | x :: rest => if py_eq x i then Some x else first_equal i rest
  end.

(** *** Well-formed documents: no key bound twice, at any depth *)

Fixpoint wf (v : value) : Prop :=
  match v with
  | VList xs =>
      (fix wf_list (xs : list value) : Prop :=
         match xs with
         | [] => True
         | x :: xs' => wf x /\ wf_list xs'
         end) xs
  | VDict d =>
      NoDup (keys d) /\
      (fix wf_items (d : list (string * value)) : Prop :=
         match d with
         | [] => True
         | (_, x) :: d' => wf x /\ wf_items d'
         end) d
  | _ => True
  end.

(** How deep mappings nest through mapping values (lists are leaves for
    [merge_dicts], which never descends into them). *)
Fixpoint depth (v : value) : nat :=
  match v with
  | VDict d =>
      S ((fix depth_items (d : list (string * value)) : nat :=
            match d with
            | [] => 0
            | (_, x) :: d' => Nat.max (depth x) (depth_items d')
            end) d)
  | _ => 0
  end.

End Py.

Import Py.

(* ================================================================= *)
(** ** Outcomes of a call *)

(** What [merge_dicts] can raise. *)
Inductive exn : Type :=
| TypeMismatch (key : string)
    (** [ValueError("Cannot merge blobs: type mismatch for '{}'")] *)
| BothChanging (key : string)
    (** [ValueError("Cannot merge blobs: left and right are both changing '{}'")] *)
| NoValueFound (key : string)
    (** [KeyError("Couldn't find value for key '{}'")] *)
| AttributeError
    (** [.keys()] asked of an object that is not a dict *)
| TypeError.
    (** iteration over an object that is not iterable *)

Inductive outcome (A : Type) : Type :=
| Returned (a : A)
| Raised (e : exn)
| NoFuel.

Arguments Returned {A} a.
Arguments Raised {A} e.
Arguments NoFuel {A}.

Definition bind (A B : Type) (m : outcome A) (f : A -> outcome B) : outcome B :=
  match m with
  | Returned a => f a
  | Raised e => Raised e
  | NoFuel => NoFuel
  end.

Notation "x <- m ;; k" := (bind m (fun x => k))
  (at level 61, m at next level, right associativity).

(* ================================================================= *)
(** ** Iteration order of a Python set *)

(** [for key in set(...)] visits each member once, in an order fixed by
    hashing and insertion history.  The model takes that order as a
    parameter: any enumeration without repetition of the members. *)
Class SetOrder : Type := {
  set_iter : list string -> list string;
  set_iter_NoDup : forall ks, NoDup (set_iter ks);
  set_iter_In : forall ks k, In k (set_iter ks) <-> In k ks
}.

(** One such order: first occurrence. *)
Fixpoint first_seen (seen ks : list string) : list string :=
  match ks with
  | [] => []
  | k :: rest =>
      if existsb (String.eqb k) seen then first_seen seen rest
      else k :: first_seen (k :: seen) rest
  end.

(* ================================================================= *)
(** ** The merge engine *)

Module Merge.

(** *** [merge_lists] *)

(** The test of line 62:
    [i not in result or not isinstance(i, type(result[result.index(i)]))]. *)
Definition appends (result : list value) (i : value) : bool :=
  negb (py_in i result) ||
  match first_equal i result with
  | Some x => negb (isinstance i (type x))
  | None => true
  end.

(** The inner loop, [for i in l]. *)
Definition extend (result l : list value) : list value :=
  fold_left (fun result i => if appends result i then result ++ [i] else result)
            l result.

(** [merge_lists], called on any number of lists *)
Definition merge_lists (lists : list (list value)) : list value :=
  fold_left extend lists [].

(** *** [merge_dicts] *)

(** [set([type(d.get(key)) for d in dicts])], without repetition. *)
Fixpoint type_set (ts : list pytype) : list pytype :=
  match ts with
  | [] => []
  | t :: rest =>
      if existsb (pytype_eqb t) rest then type_set rest
      else t :: type_set rest
  end.

(** [key_types.discard(type(None))] *)
Definition discard (t : pytype) (ts : list pytype) : list pytype :=
  filter (fun u => negb (pytype_eqb t u)) ts.

(** Lines 71-72. *)
Definition key_types (key : string) (dicts : list dict) : list pytype :=
  discard TNone (type_set (map (fun d => type (get d key)) dicts)).

(** [key_types.issubset([str, unicode])] *)
Definition issubset (ts us : list pytype) : bool :=
  forallb (fun t => existsb (pytype_eqb t) us) ts.

(** The condition of line 73. *)
Definition type_mismatch (key : string) (dicts : list dict) : bool :=
  Nat.ltb 1 (List.length (key_types key dicts)) &&
  negb (issubset (key_types key dicts) [TStr; TUnicode]).

Definition as_dict (v : value) : option dict :=
  match v with
  | VDict d => Some d
  | _ => None
  end.

Definition as_list (v : value) : option (list value) :=
  match v with
  | VList l => Some l
  | _ => None
  end.

(** Lines 81-98, the branch for values that are neither dicts nor lists. *)
Definition merge_scalar (ancestor left right : dict) (key : string)
  : outcome value :=
  if contains ancestor key then
    if contains left key && contains right key
       && py_ne (item ancestor key) (item left key)
       && py_ne (item ancestor key) (item right key)
    then Raised (BothChanging key)
    else if contains left key && py_ne (item ancestor key) (get left key)
    then Returned (item left key)
    else if contains right key && py_ne (item ancestor key) (get right key)
    then Returned (item right key)
    else Returned (item ancestor key)
  else
    if contains left key && contains right key
       && py_ne (item left key) (item right key)
    then Raised (BothChanging key)
    else if contains left key then Returned (item left key)
    else if contains right key then Returned (item right key)
    else Raised (NoValueFound key).

(** The body of the loop of line 70: the value stored at [result[key]], or
    the exception.  [rec] is the recursive call of line 77.

    In the dict branch the arguments are [d.get(key, {})]; one that is not
    a dict is, after the type check, an explicit [None], which has no
    [keys()] (see [dict_branch_args]).  In the list branch the arguments
    are [d.get(key, [])]; one that is not a list is an explicit [None],
    which cannot be iterated (see [list_branch_args]). *)
Definition merge_key (rec : dict -> dict -> dict -> outcome dict)
    (ancestor left right : dict) (key : string) : outcome value :=
  let dicts := [ancestor; left; right] in
  if type_mismatch key dicts then Raised (TypeMismatch key)
  else if existsb (fun d => isinstance (get d key) TDict) dicts then
    match as_dict (get_default ancestor key (VDict [])),
          as_dict (get_default left key (VDict [])),
          as_dict (get_default right key (VDict [])) with
    | Some a, Some l, Some r => m <- rec a l r ;; Returned (VDict m)
    | _, _, _ => Raised AttributeError
    end
  else if existsb (fun d => isinstance (get d key) TList) dicts then
    match as_list (get_default ancestor key (VList [])),
          as_list (get_default left key (VList [])),
          as_list (get_default right key (VList [])) with
    | Some a, Some l, Some r => Returned (VList (merge_lists [a; l; r]))
    | _, _, _ => Raised TypeError
    end
  else merge_scalar ancestor left right key.

(** [for key in ...: result[key] = ...] *)
Fixpoint for_keys (body : string -> outcome value) (ks : list string)
    (result : dict) : outcome dict :=
  match ks with
  | [] => Returned result
  | key :: rest =>
      v <- body key ;; for_keys body rest (setitem result key v)
  end.

(** The keys of line 70, before they go into the set. *)
Definition all_keys (ancestor left right : dict) : list string :=
  keys ancestor ++ keys left ++ keys right.

Section Engine.

Context {order : SetOrder}.

(** [merge_dicts], with the depth of recursion bounded by [fuel]. *)
Fixpoint merge_dicts_rec (fuel : nat) (ancestor left right : dict)
  : outcome dict :=
  match fuel with
  | O => NoFuel
  | S n =>
      for_keys (merge_key (merge_dicts_rec n) ancestor left right)
               (set_iter (all_keys ancestor left right)) []
  end.

(** [merge_dicts(ancestor, left, right)].  The recursion goes one mapping
    level down at each call, so the nesting depth of the arguments is
    fuel enough ([merge_dicts_total]). *)
Definition merge_dicts (ancestor left right : dict) : outcome dict :=
  merge_dicts_rec
    (Nat.max (depth (VDict ancestor))
             (Nat.max (depth (VDict left)) (depth (VDict right))))
    ancestor left right.

End Engine.

End Merge.

Unset Implicit Arguments.

Import Merge.

(* ================================================================= *)
(** ** Variant dispatch: [createBlob] *)

Module Registry.











Section CreateBlob.

(** [json.loads]; [None] when it raises. *)
Variable json_loads : string -> option value.



End CreateBlob.

End Registry.

(* ================================================================= *)
(** ** Validation: [Blob.validate] *)

Module Validation.

Section Validate.

(** What [validate] calls and does not define: the schema a variant
    names, the product and the list of allowed domains. *)
Variables (schema product domains : Type).

(** A [jsonschema] error; only its [message] is read. *)
Record ValidationError : Type := { message : string }.

(** The calls [validate] makes on its collaborators, by the type of
    their results. *)
Inductive call : Type -> Type :=
| LogDebug (self : dict) : call unit
| GetSchema (self : dict) : call schema
| IterErrors (s : schema) (self : dict) : call (list ValidationError)
| ContainsForbiddenDomain (self : dict) (p : product) (w : domains) : call bool.

Inductive raised : Type :=
| BlobValidationError (msg : string) (errors : list string)
| ValueError (msg : string)
| External (what : string).
    (** raised inside a collaborator, as [NotImplementedError] is by the
        base class's [containsForbiddenDomain] *)

(** A method body: it returns, raises, or calls and goes on. *)
Inductive prog (A : Type) : Type :=
| Ret (a : A)
| Raise (e : raised)
| Call (X : Type) (c : call X) (k : X -> prog A).

Arguments Ret {A} a.
Arguments Raise {A} e.
Arguments Call {A X} c k.

(** Lines 116-130. *)
Definition validate (self : dict) (p : product) (whitelistedDomains : domains)
  : prog unit :=
  Call (LogDebug self) (fun _ =>
  Call (GetSchema self) (fun s =>
  Call (IterErrors s self) (fun found =>
  let errors := map message found in
  match errors with
  | _ :: _ =>
      Raise (BlobValidationError "Invalid blob! See 'errors' for details." errors)
  | [] =>
      Call (ContainsForbiddenDomain self p whitelistedDomains) (fun forbidden =>
      if (forbidden : bool)
      then Raise (ValueError "Blob contains forbidden domain(s)")
      else Ret tt)
  end))).

(** The collaborators: each call returns or raises. *)
Definition world : Type := forall X, call X -> X + string.

(** A call that was made. *)
Inductive event : Type :=
| Called (X : Type) (c : call X).

Arguments Called {X} c.

Definition is_policy_check (e : event) : bool :=
  match e with
  | Called (ContainsForbiddenDomain _ _ _) => true
  | Called _ => false
  end.

(** Running a body: the calls made, in order, and how it ended. *)
Fixpoint run {A : Type} (w : world) (m : prog A) : list event * (A + raised) :=
  match m with
  | Ret a => ([], inl a)
  | Raise e => ([], inr e)
  | Call c k =>
      match w _ c with
      | inl x => let (t, out) := run w (k x) in (Called c :: t, out)
      | inr what => ([Called c], inr (External what))
      end
  end.

End Validate.

Arguments LogDebug {schema product domains} self.
Arguments GetSchema {schema product domains} self.
Arguments IterErrors {schema product domains} s self.
Arguments ContainsForbiddenDomain {schema product domains} self p w.
Arguments Ret {schema product domains A} a.
Arguments Raise {schema product domains A} e.
Arguments Call {schema product domains A X} c k.
Arguments Called {schema product domains X} c.
Arguments run {schema product domains A} w m.
Arguments validate {schema product domains} self p whitelistedDomains.
Arguments is_policy_check {schema product domains} e.

(** A world for a blob with two schema violations and a forbidden domain. *)
Definition two_violations : world unit unit unit :=
  fun X c =>
    match c in call _ _ _ X return X + string with
    | LogDebug _ => inl tt
    | GetSchema _ => inl tt
    | IterErrors _ _ =>
        inl [ {| message := "'name' is a required property" |};
              {| message := "'x' is not of type 'object'" |} ]
    | ContainsForbiddenDomain _ _ _ => inl true
    end.

End Validation.

(* ================================================================= *)
(** ** The merge engine over a store of mutable objects *)

(** Python lists and dicts are objects reached through references, and
    [merge_lists] and [merge_dicts] build their results by mutation
    ([result.append(i)], [result[key] = ...]).  This second embedding of
    the same source keeps the store explicit, so that what a call writes
    and what it leaves alone can be stated. *)

Module Heap.

Definition loc : Type := nat.

(** A Python value: immutable scalars by value, lists and dicts by
    reference. *)
Inductive hval : Type :=
| HNone
| HBool (b : bool)
| HInt (z : Z)
| HLong (z : Z)
| HStr (s : string)
| HUnicode (s : string)
| HRef (p : loc).

Inductive obj : Type :=
| OList (items : list hval)
| ODict (items : list (string * hval)).

(** The store: the object at location [p] is the [p]-th one allocated. *)
Definition heap : Type := list obj.

Fixpoint update (h : heap) (p : loc) (o : obj) : heap :=
  match h, p with
  | [], _ => []
  | _ :: rest, O => o :: rest
  | x :: rest, S p' => x :: update rest p' o
  end.

(** [type(v)]; a reference outside the store, which no Python reference
    is, reads as a dict. *)
Definition htype (h : heap) (v : hval) : pytype :=
  match v with
  | HNone => TNone
  | HBool _ => TBool
  | HInt _ => TInt
  | HLong _ => TLong
  | HStr _ => TStr
  | HUnicode _ => TUnicode
  | HRef p =>
      match nth_error h p with
      | Some (OList _) => TList
      | _ => TDict
      end
  end.

Definition hisinstance (h : heap) (v : hval) (t : pytype) : bool :=
  issubclass (htype h v) t.

Fixpoint sequence {A : Type} (xs : list (option A)) : option (list A) :=
  match xs with
  | [] => Some []
  | None :: _ => None
  | Some x :: rest => option_map (cons x) (sequence rest)
  end.

(** The document a value stands for, read through the store. *)
Fixpoint reify (fuel : nat) (h : heap) (v : hval) : option value :=
  match v with
  | HNone => Some VNone
  | HBool b => Some (VBool b)
  | HInt z => Some (VInt z)
  | HLong z => Some (VLong z)
  | HStr s => Some (VStr s)
  | HUnicode s => Some (VUnicode s)
  | HRef p =>
      match fuel with
      | O => None
      | S n =>
          match nth_error h p with
          | Some (OList items) =>
              option_map VList (sequence (map (reify n h) items))
          | Some (ODict items) =>
              option_map VDict
                (sequence (map (fun kv => option_map (pair (fst kv))
                                                     (reify n h (snd kv)))
                               items))
          | None => None
          end
      end
  end.

(** The same reading, confined to the locations [ok] admits: it fails as
    soon as it would visit another one.  What is read this way does not
    depend on the objects outside [ok]. *)
Fixpoint reify_ok (ok : loc -> bool) (fuel : nat) (h : heap) (v : hval)
  : option value :=
  match v with
  | HNone => Some VNone
  | HBool b => Some (VBool b)
  | HInt z => Some (VInt z)
  | HLong z => Some (VLong z)
  | HStr s => Some (VStr s)
  | HUnicode s => Some (VUnicode s)
  | HRef p =>
      match fuel with
      | O => None
      | S n =>
          if ok p then
            match nth_error h p with
            | Some (OList items) =>
                option_map VList (sequence (map (reify_ok ok n h) items))
            | Some (ODict items) =>
                option_map VDict
                  (sequence (map (fun kv => option_map (pair (fst kv))
                                              (reify_ok ok n h (snd kv)))
                                 items))
            | None => None
            end
          else None
      end
  end.

(** [x == y] in store [h]: equality of the documents read.  Nesting in a
    store without cycles is no deeper than the store is long. *)
Definition heap_eq (h : heap) (x y : hval) : bool :=
  match reify (S (List.length h)) h x, reify (S (List.length h)) h y with
  | Some v, Some w => py_eq v w
  | _, _ => false
  end.

Definition heap_ne (h : heap) (x y : hval) : bool := negb (heap_eq h x y).

(** *** Computations on the store *)

Definition M (A : Type) : Type := heap -> heap * outcome A.

Definition ret {A : Type} (a : A) : M A := fun h => (h, Returned a).

Definition raise {A : Type} (e : exn) : M A := fun h => (h, Raised e).

Definition out_of_fuel {A : Type} : M A := fun h => (h, NoFuel).

Definition mbind {A B : Type} (m : M A) (f : A -> M B) : M B :=
  fun h =>
    match m h with
    | (h', Returned a) => f a h'
    | (h', Raised e) => (h', Raised e)
    | (h', NoFuel) => (h', NoFuel)
    end.

Notation "x <-- m ;; k" := (mbind m (fun x => k))
  (at level 61, m at next level, right associativity).

(** A fresh object. *)
Definition alloc (o : obj) : M loc :=
  fun h => (h ++ [o], Returned (List.length h)).

Definition get_heap : M heap := fun h => (h, Returned h).

(** The items of a dict, as [d.keys()] and [d.get] read them; anything
    else has no such attribute. *)
Definition dict_items (d : hval) : M (list (string * hval)) :=
  fun h =>
    match d with
    | HRef p =>
        match nth_error h p with
        | Some (ODict items) => (h, Returned items)
        | _ => (h, Raised AttributeError)
        end
    | _ => (h, Raised AttributeError)
    end.

(** The elements [for i in l] visits; only a list reaches this loop
    (an explicit [None] cannot be iterated). *)
Definition iterate (l : hval) : M (list hval) :=
  fun h =>
    match l with
    | HRef p =>
        match nth_error h p with
        | Some (OList items) => (h, Returned items)
        | _ => (h, Raised TypeError)
        end
    | _ => (h, Raised TypeError)
    end.

(** [result.append(i)] *)
Definition append (result : loc) (i : hval) : M unit :=
  fun h =>
    match nth_error h result with
    | Some (OList items) => (update h result (OList (items ++ [i])), Returned tt)
    | _ => (h, Raised AttributeError)
    end.

Fixpoint hsetitem (d : list (string * hval)) (key : string) (v : hval)
  : list (string * hval) :=
  match d with
  | [] => [(key, v)]
  | (k, x) :: rest =>
      if String.eqb key k then (k, v) :: rest
      else (k, x) :: hsetitem rest key v
  end.

(** [result[key] = v] *)
Definition dict_setitem (result : loc) (key : string) (v : hval) : M unit :=
  fun h =>
    match nth_error h result with
    | Some (ODict items) =>
        (update h result (ODict (hsetitem items key v)), Returned tt)
    | _ => (h, Raised TypeError)
    end.

Fixpoint for_each {A : Type} (xs : list A) (body : A -> M unit) : M unit :=
  match xs with
  | [] => ret tt
  | x :: rest => _ <-- body x ;; for_each rest body
  end.

(** *** [merge_lists] *)

Definition happends (h : heap) (result : list hval) (i : hval) : bool :=
  negb (existsb (fun x => heap_eq h x i) result) ||
  match find (fun x => heap_eq h x i) result with
  | Some x => negb (hisinstance h i (htype h x))
  | None => true
  end.

(** Lines 62-63, for one element. *)
Definition visit (result : loc) (i : hval) : M unit :=
  h <-- get_heap ;;
  so_far <-- iterate (HRef result) ;;
  if happends h so_far i then append result i else ret tt.

(** The loop of line 61 over one list. *)
Definition hextend (result : loc) (l : hval) : M unit :=
  items <-- iterate l ;;
  for_each items (visit result).

Definition hmerge_lists (lists : list hval) : M hval :=
  result <-- alloc (OList []) ;;
  _ <-- for_each lists (hextend result) ;;
  ret (HRef result).

(** *** [merge_dicts] *)

Definition hget (d : list (string * hval)) (key : string) : hval :=
  match assoc key d with
  | Some v => v
  | None => HNone
  end.

Definition hcontains (d : list (string * hval)) (key : string) : bool :=
  match assoc key d with
  | Some _ => true
  | None => false
  end.

Definition hkey_types (h : heap) (key : string)
    (dicts : list (list (string * hval))) : list pytype :=
  discard TNone (type_set (map (fun d => htype h (hget d key)) dicts)).

Definition htype_mismatch (h : heap) (key : string)
    (dicts : list (list (string * hval))) : bool :=
  Nat.ltb 1 (List.length (hkey_types h key dicts)) &&
  negb (issubset (hkey_types h key dicts) [TStr; TUnicode]).

(** [d.get(key, {})] and [d.get(key, [])]: the default is built before
    the lookup, whether or not it is used. *)
Definition get_or_new (d : list (string * hval)) (key : string) (empty : obj)
  : M hval :=
  fresh <-- alloc empty ;;
  ret (match assoc key d with
       | Some v => v
       | None => HRef fresh
       end).

(** Lines 81-98. *)
Definition hmerge_scalar (h : heap) (ancestor left right : list (string * hval))
    (key : string) : outcome hval :=
  if hcontains ancestor key then
    if hcontains left key && hcontains right key
       && heap_ne h (hget ancestor key) (hget left key)
       && heap_ne h (hget ancestor key) (hget right key)
    then Raised (BothChanging key)
    else if hcontains left key && heap_ne h (hget ancestor key) (hget left key)
    then Returned (hget left key)
    else if hcontains right key && heap_ne h (hget ancestor key) (hget right key)
    then Returned (hget right key)
    else Returned (hget ancestor key)
  else
    if hcontains left key && hcontains right key
       && heap_ne h (hget left key) (hget right key)
    then Raised (BothChanging key)
    else if hcontains left key then Returned (hget left key)
    else if hcontains right key then Returned (hget right key)
    else Raised (NoValueFound key).

Section Engine.

Context {order : SetOrder}.

(** The body of the loop of line 70, storing into [result]. *)
Definition hmerge_key (rec : hval -> hval -> hval -> M hval)
    (result : loc) (ancestor left right : hval) (key : string) : M unit :=
  a <-- dict_items ancestor ;;
  l <-- dict_items left ;;
  r <-- dict_items right ;;
  h <-- get_heap ;;
  let dicts := [a; l; r] in
  if htype_mismatch h key dicts then raise (TypeMismatch key)
  else if existsb (fun d => hisinstance h (hget d key) TDict) dicts then
    a' <-- get_or_new a key (ODict []) ;;
    l' <-- get_or_new l key (ODict []) ;;
    r' <-- get_or_new r key (ODict []) ;;
    v <-- rec a' l' r' ;;
    dict_setitem result key v
  else if existsb (fun d => hisinstance h (hget d key) TList) dicts then
    a' <-- get_or_new a key (OList []) ;;
    l' <-- get_or_new l key (OList []) ;;
    r' <-- get_or_new r key (OList []) ;;
    v <-- hmerge_lists [a'; l'; r'] ;;
    dict_setitem result key v
  else
    match hmerge_scalar h a l r key with
    | Returned v => dict_setitem result key v
    | Raised e => raise e
    | NoFuel => out_of_fuel
    end.

(** Lines 69-100: the loop over the keys, and [return result]. *)
Definition hmerge_loop (rec : hval -> hval -> hval -> M hval)
    (result : loc) (ancestor left right : hval) : M hval :=
  a <-- dict_items ancestor ;;
  l <-- dict_items left ;;
  r <-- dict_items right ;;
  _ <-- for_each (set_iter (keys a ++ keys l ++ keys r))
                 (hmerge_key rec result ancestor left right) ;;
  ret (HRef result).

(** [merge_dicts] on the store, recursion bounded by [fuel]: line 68
    makes the new dict, the loop fills it. *)
Fixpoint hmerge_dicts (fuel : nat) (ancestor left right : hval) : M hval :=
  match fuel with
  | O => out_of_fuel
  | S n =>
      result <-- alloc (ODict []) ;;
      hmerge_loop (hmerge_dicts n) result ancestor left right
  end.

End Engine.

(** [framed base m Q]: run in a store holding at least [base] objects,
    [m] leaves the first [base] of them as they were, frees nothing, and
    returns only values satisfying [Q]. *)
Definition framed {A : Type} (base : nat) (m : M A) (Q : A -> Prop) : Prop :=
  forall h, base <= List.length h ->
    List.length h <= List.length (fst (m h)) /\
    (forall p, p < base -> nth_error (fst (m h)) p = nth_error h p) /\
    (forall a, snd (m h) = Returned a -> Q a).

Definition any {A : Type} (a : A) : Prop := True.

(** A store with the three documents of an example, and the merge run
    in it: objects 0 to 6 stay, the result is object 7. *)
Definition example_store : heap :=
  [ OList [HStr "x"];
    ODict [("a", HInt 1); ("l", HRef 0)];
    OList [HStr "x"; HStr "y"];
    ODict [("a", HInt 2); ("l", HRef 2)];
    OList [HStr "x"; HStr "z"];
    ODict [("k", HNone)];
    ODict [("a", HInt 1); ("l", HRef 4); ("n", HRef 5)] ].

End Heap.

(* ================================================================= *)
(** ** Vocabulary of the statements *)

(** The value a loop body stored, when it returned. *)
Definition value_of (o : outcome value) : value :=
  match o with
  | Returned v => v
  | _ => VNone
  end.

(** The types the check compares: those of the values [d.get(key)] that
    are not [None]; a missing key and an explicit [None] both drop out. *)
Definition compared_types (key : string) (dicts : list dict) : list pytype :=
  filter (fun t => negb (pytype_eqb TNone t))
         (map (fun d => type (get d key)) dicts).

(** Two different types meet at [key], and not only string types. *)
Definition conflicting (key : string) (dicts : list dict) : Prop :=
  (exists t u, In t (compared_types key dicts) /\
               In u (compared_types key dicts) /\ t <> u) /\
  (exists t, In t (compared_types key dicts) /\ t <> TStr /\ t <> TUnicode).

(** The check as the specification words it: only the documents in which
    the key is absent are left out of the comparison. *)
Definition spec_key_types (key : string) (dicts : list dict) : list pytype :=
  type_set (map (fun d => type (item d key))
                (filter (fun d => contains d key) dicts)).

Definition spec_type_mismatch (key : string) (dicts : list dict) : bool :=
  Nat.ltb 1 (List.length (spec_key_types key dicts)) &&
  negb (issubset (spec_key_types key dicts) [TStr; TUnicode]).

(** No element equals a later one. *)
Fixpoint distinct (l : list value) : bool :=
  match l with
  | [] => true
  | x :: rest => negb (existsb (py_eq x) rest) && distinct rest
  end.

(** The rule as the specification words it: append when nothing appended
    equals the element, or when some appended element equals it and has a
    different runtime type. *)
Definition spec_appends (result : list value) (i : value) : bool :=
  negb (py_in i result) ||
  existsb (fun x => py_eq x i && negb (pytype_eqb (type x) (type i))) result.

Definition spec_merge_lists (lists : list (list value)) : list value :=
  fold_left
    (fun result l =>
       fold_left (fun result i =>
                    if spec_appends result i then result ++ [i] else result)
                 l result)
    lists [].

(** Two types the check of line 73 lets meet at a key. *)
Definition compatible (t u : pytype) : bool :=
  pytype_eqb t TNone || pytype_eqb u TNone || pytype_eqb t u ||
  (issubset [t; u] [TStr; TUnicode]).

Definition is_scalar (v : value) : bool :=
  match v with
  | VList _ | VDict _ => false
  | _ => true
  end.

(** The value held under the same key by the other document. *)
Definition under (old : option value) (key : string) : option value :=
  match old with
  | Some (VDict d) => assoc key d
  | _ => None
  end.

(** [grows old new]: [new] is what a side that only adds and updates
    makes of [old] ([None] when the key was absent).  A mapping keeps
    every key and grows value by value; a sequence keeps its elements,
    adds new ones at the end and repeats none; a scalar is replaced by a
    scalar of a compatible type. *)
Fixpoint grows (old : option value) (new : value) {struct new} : Prop :=
  match new with
  | VDict e =>
      NoDup (keys e) /\
      match old with
      | None => True
      | Some (VDict d) => forall k, In k (keys d) -> In k (keys e)
      | Some _ => False
      end /\
      (fix items (e' : list (string * value)) : Prop :=
         match e' with
         | [] => True
         | (k, y) :: e'' => grows (under old k) y /\ items e''
         end) e
  | VList l =>
      distinct l = true /\ Forall wf l /\
      match old with
      | None => True
      | Some (VList p) => exists ext, l = p ++ ext
      | Some _ => False
      end
  | _ =>
      match old with
      | None => True
      | Some v => is_scalar v = true /\ compatible (type v) (type new) = true
      end
  end.


(* ================================================================= *)
(** ** Vocabulary of the comparison of the two engines *)

Module Refine.

Import Heap.

(** [rep ok k h v x]: in store [h], value [v] stands for document [x],
    read within [ok] with fuel [k]. *)
Definition rep (ok : loc -> bool) (k : nat) (h : heap) (v : hval) (x : value)
  : Prop :=
  reify_ok ok k h v = Some x.

Definition rep_items (ok : loc -> bool) (k : nat) (h : heap)
    (items : list (string * hval)) (d : dict) : Prop :=
  Forall2 (fun kv kx => fst kv = fst kx /\ rep ok k h (snd kv) (snd kx)) items d.

(** Every object of [h] is in [h'], as it was. *)
Definition ext (h h' : heap) : Prop :=
  forall p o, nth_error h p = Some o -> nth_error h' p = Some o.

(** All the lists merged into [result], or nothing when one of the
    arguments is not a list. *)
Fixpoint extend_all (result : list value) (vals : list value)
  : option (list value) :=
  match vals with
  | [] => Some result
  | VList l :: rest => extend_all (extend result l) rest
  | _ :: _ => None
  end.

(** The dict being filled: the store kept the objects of [hc], and the
    object at [res] holds items that stand for [rdict]. *)
Definition filling (ok1 : loc -> bool) (hc : heap) (res : loc) (h : heap)
    (ritems : list (string * hval)) (rdict : dict) : Prop :=
  ext hc h /\ nth_error h res = Some (ODict ritems) /\
  exists K, rep_items ok1 K h ritems rdict.

(** The recursive call of line 77 on its three arguments. *)
Definition on_dicts (rec : dict -> dict -> dict -> outcome dict)
    (xa xl xr : value) : outcome dict :=
  match as_dict xa, as_dict xl, as_dict xr with
  | Some a, Some l, Some r => rec a l r
  | _, _, _ => Raised AttributeError
  end.

(** What the store engine owes the value engine, for one pair of
    recursive calls: from arguments that stand for the values, the same
    exception, or a new dict that stands for the document returned. *)
Definition simulates (rec : dict -> dict -> dict -> outcome dict)
    (hrec : hval -> hval -> hval -> M hval) : Prop :=
  forall ok k hc a l r xa xl xr,
    (forall p, List.length hc <= p -> ok p = true) ->
    k <= S (List.length hc) ->
    rep ok k hc a xa -> rep ok k hc l xl -> rep ok k hc r xr ->
    exists h',
      match on_dicts rec xa xl xr with
      | Returned m =>
          ext hc h' /\
          hrec a l r hc = (h', Returned (HRef (List.length hc))) /\
          exists K, rep ok K h' (HRef (List.length hc)) (VDict m)
      | Raised e => hrec a l r hc = (h', Raised e)
      | NoFuel => True
      end.

End Refine.

(* ================================================================= *)
(** ** Vocabulary of what a result shares with the arguments *)

Module Sharing.

Import Heap.

Definition is_ref (v : hval) : bool :=
  match v with
  | HRef _ => true
  | _ => false
  end.

(** [built base h v]: [v] is not a reference, or it is a list or a dict
    made after the store held [base] objects, and so is every value of
    that dict in turn.  The elements of a list are left open. *)
Inductive built (base : loc) (h : heap) : hval -> Prop :=
| built_scalar (v : hval) : is_ref v = false -> built base h v
| built_list (p : loc) (items : list hval) :
    base <= p -> nth_error h p = Some (OList items) -> built base h (HRef p)
| built_dict (p : loc) (items : list (string * hval)) :
    base <= p -> nth_error h p = Some (ODict items) ->
    (forall key v, In (key, v) items -> built base h v) ->
    built base h (HRef p).

(** [x] is an element of one of the lists [lists] of store [h]. *)
Definition element_of (h : heap) (lists : list hval) (x : hval) : Prop :=
  exists q items,
    In (HRef q) lists /\ nth_error h q = Some (OList items) /\ In x items.

(** The dict being filled at [res]: its values so far are built. *)
Definition filled (res : loc) (h : heap) : Prop :=
  exists ritems,
    nth_error h res = Some (ODict ritems) /\
    forall key v, In (key, v) ritems -> built (S res) h v.

End Sharing.

(* ================================================================= *)
(** ** Special hosts: [Blob.processSpecialForceHosts] *)

Module Urls.

(** The [force] argument of an update query; only [query_value] is read. *)
Record force_arg : Type := { query_value : string }.

(** [c in s] for a one-character [c] *)
Definition has_char (c : ascii) (s : string) : bool :=
  existsb (Ascii.eqb c) (list_ascii_of_string s).

(** How many times [c] occurs in [s]. *)
Definition count_char (c : ascii) (s : string) : nat :=
  List.length (filter (Ascii.eqb c) (list_ascii_of_string s)).

Section ProcessSpecialForceHosts.

(** The list of special hosts, and [isSpecialURL] of [auslib.AUS], which
    tells whether a URL is on one of them. *)
Variable hosts : Type.
Variable isSpecialURL : string -> hosts -> bool.

(** Lines 168-174. *)
Definition processSpecialForceHosts (url : string) (specialForceHosts : hosts)
    (force : force_arg) : string :=
  if isSpecialURL url specialForceHosts then
    if has_char "?" url then url ++ ("&force=" ++ query_value force)
    else url ++ ("?force=" ++ query_value force)
  else url.

End ProcessSpecialForceHosts.

End Urls.

(* ================================================================= *)
(** ** Vocabulary of the further properties *)

(** [subseq s l]: [s] is [l] with some elements left out. *)
Inductive subseq {A : Type} : list A -> list A -> Prop :=
| subseq_nil : subseq [] []
| subseq_skip (x : A) (s l : list A) : subseq s l -> subseq s (x :: l)
| subseq_keep (x : A) (s l : list A) : subseq s l -> subseq (x :: s) (x :: l).

(** Equal elements of [l] are of one kind: each is an instance of the
    type of every element it equals.  So it is for strings of one type,
    or for integers without booleans or longs among them. *)
Definition same_kind (l : list value) : bool :=
  forallb (fun x =>
             forallb (fun y => implb (py_eq x y) (isinstance y (type x))) l)
          l.

(** Each element of [l] passes the test of line 62 against the elements
    before it: [l] is a list the loop of [merge_lists] can have built. *)
Definition settled (l : list value) : Prop :=
  forall pre x post, l = pre ++ x :: post -> appends pre x = true.

(** Whether a call returned. *)
Definition returned (A : Type) (o : outcome A) : bool :=
  match o with
  | Returned _ => true
  | _ => false
  end.

Arguments returned {A} o.

(** Lines 191-192: the [containsForbiddenDomain] a class inherits from
    [Blob] raises [NotImplementedError]. *)
Definition not_implemented : string := "NotImplementedError".

Definition inherits_policy (schema product domains : Type)
    (w : Validation.world schema product domains) : Prop :=
  forall self p d,
    w bool (Validation.ContainsForbiddenDomain self p d) = inr not_implemented.

(** A world in which the policy check is the inherited one. *)
Definition inherited : Validation.world unit unit unit :=
  fun X c =>
    match c in Validation.call _ _ _ X return X + string with
    | Validation.LogDebug _ => inl tt
    | Validation.GetSchema _ => inl tt
    | Validation.IterErrors _ _ => inl []
    | Validation.ContainsForbiddenDomain _ _ _ => inr not_implemented
    end.

(* ================================================================= *)
(** ** Facts about the object model *)

Section ValueInduction.

Variable P : value -> Prop.
Hypothesis HNone : P VNone.
Hypothesis HBool : forall b, P (VBool b).
Hypothesis HInt : forall z, P (VInt z).
Hypothesis HLong : forall z, P (VLong z).
Hypothesis HStr : forall s, P (VStr s).
Hypothesis HUnicode : forall s, P (VUnicode s).
Hypothesis HList : forall xs, Forall P xs -> P (VList xs).
Hypothesis HDict : forall d, Forall (fun kv => P (snd kv)) d -> P (VDict d).

(** Induction over a value, with the hypothesis available for every
    element of a list and every value of a dict. *)
Fixpoint value_ind (v : value) : P v :=
  match v with
  | VNone => HNone
  | VBool b => HBool b
  | VInt z => HInt z
  | VLong z => HLong z
  | VStr s => HStr s
  | VUnicode s => HUnicode s
  | VList xs =>
      HList xs ((fix go (xs : list value) : Forall P xs :=
                match xs with
                | [] => Forall_nil _
                | x :: xs' => Forall_cons x (value_ind x) (go xs')
                end) xs)
  | VDict d =>
      HDict d ((fix go (d : list (string * value))
                : Forall (fun kv => P (snd kv)) d :=
                match d with
                | [] => Forall_nil _
                | kv :: d' => Forall_cons kv (value_ind (snd kv)) (go d')
                end) d)
  end.

End ValueInduction.

Lemma assoc_In (V : Type) (key : string) (d : list (string * V)) (v : V) :
  assoc key d = Some v -> In (key, v) d.
Proof.
  induction d as [|[k x] d IH]; simpl; [discriminate|].
  destruct (String.eqb key k) eqn:E.
  - apply String.eqb_eq in E. intros [= ->]. left. now subst.
  - intros H. right. now apply IH.
Qed.

Lemma assoc_None (V : Type) (key : string) (d : list (string * V)) :
  assoc key d = None <-> ~ In key (keys d).
Proof.
  induction d as [|[k x] d IH]; simpl.
  - tauto.
  - destruct (String.eqb key k) eqn:E.
    + apply String.eqb_eq in E. subst. split; [discriminate|]. tauto.
    + apply String.eqb_neq in E. rewrite IH. split.
      * intros H [H1|H1]; [now subst|tauto].
      * tauto.
Qed.

Lemma assoc_Some_keys (V : Type) (key : string) (d : list (string * V)) :
  In key (keys d) <-> exists v, assoc key d = Some v.
Proof.
  destruct (assoc key d) as [v|] eqn:E.
  - split; [eauto|]. intros _. apply assoc_In in E.
    apply (in_map fst) in E. exact E.
  - split.
    + intros H. now apply assoc_None in E.
    + intros [v H]. discriminate.
Qed.

Lemma assoc_NoDup (V : Type) (key : string) (d : list (string * V)) (v : V) :
  NoDup (keys d) -> In (key, v) d -> assoc key d = Some v.
Proof.
  induction d as [|[k x] d IH]; simpl; [tauto|].
  intros ND [H|H].
  - injection H as -> ->. now rewrite String.eqb_refl.
  - inversion ND as [|? ? Hk ND']; subst.
    destruct (String.eqb key k) eqn:E.
    + apply String.eqb_eq in E. subst. exfalso. apply Hk.
      apply (in_map fst) in H. exact H.
    + now apply IH.
Qed.

Lemma contains_true (d : dict) (key : string) :
  contains d key = true <-> In key (keys d).
Proof.
  unfold contains. rewrite assoc_Some_keys.
  destruct (assoc key d); split; eauto; try discriminate.
  intros [v H]. discriminate.
Qed.

Lemma contains_false (d : dict) (key : string) :
  contains d key = false <-> ~ In key (keys d).
Proof.
  rewrite <- contains_true. destruct (contains d key); split; congruence.
Qed.

(** A guarded subscript reads the binding and cannot raise [KeyError]. *)
Lemma item_guarded (d : dict) (key : string) :
  contains d key = true -> assoc key d = Some (item d key).
Proof.
  unfold contains, item, get, get_default.
  destruct (assoc key d); [reflexivity|discriminate].
Qed.

Lemma setitem_fresh (d : dict) (key : string) (v : value) :
  ~ In key (keys d) -> setitem d key v = d ++ [(key, v)].
Proof.
  induction d as [|[k x] d IH]; simpl; [reflexivity|].
  intros H. destruct (String.eqb key k) eqn:E.
  - apply String.eqb_eq in E. subst. tauto.
  - rewrite IH; [reflexivity|tauto].
Qed.

(** *** The first-occurrence order is a set order *)

Lemma first_seen_In (ks seen : list string) (k : string) :
  In k (first_seen seen ks) <-> In k ks /\ ~ In k seen.
Proof.
  revert seen. induction ks as [|a ks IH]; intros seen; simpl.
  - tauto.
  - destruct (existsb (String.eqb a) seen) eqn:E.
    + apply existsb_exists in E. destruct E as [b [Hb Eb]].
      apply String.eqb_eq in Eb. subst b.
      rewrite IH. split.
      * tauto.
      * intros [[->|H] Hn]; tauto.
    + assert (Ha : ~ In a seen).
      { intros H. assert (X : existsb (String.eqb a) seen = true).
        { apply existsb_exists. exists a. split; [exact H|apply String.eqb_refl]. }
        congruence. }
      simpl. rewrite IH. simpl. split.
      * intros [->|[H Hn]]; [tauto|]. split; [tauto|]. intros Hs. apply Hn. now right.
      * intros [[->|H] Hn]; [tauto|].
        destruct (string_dec a k) as [->|Hak]; [tauto|].
        right. split; [exact H|]. intros [Hs|Hs]; tauto.
Qed.

Lemma first_seen_NoDup (ks seen : list string) : NoDup (first_seen seen ks).
Proof.
  revert seen. induction ks as [|a ks IH]; intros seen; simpl.
  - constructor.
  - destruct (existsb (String.eqb a) seen); [apply IH|].
    constructor; [|apply IH].
    rewrite first_seen_In. simpl. tauto.
Qed.

Definition first_seen_order : SetOrder :=
  {| set_iter := first_seen [];
     set_iter_NoDup := fun ks => first_seen_NoDup ks [];
     set_iter_In := fun ks k =>
       conj (fun H => proj1 (proj1 (first_seen_In ks [] k) H))
            (fun H => proj2 (first_seen_In ks [] k) (conj H (fun F => F))) |}.

(* ================================================================= *)
(** ** Facts about the merge loop *)

Lemma keys_app (V : Type) (d e : list (string * V)) :
  keys (d ++ e) = keys d ++ keys e.
Proof. unfold keys. apply map_app. Qed.

(** When every visited key yields a value, the loop appends one binding
    per key, in the order of the visit. *)
Lemma for_keys_Returned (body : string -> outcome value) (ks : list string) :
  forall init,
  NoDup ks ->
  (forall k, In k ks -> ~ In k (keys init)) ->
  (forall k, In k ks -> exists v, body k = Returned v) ->
  for_keys body ks init =
  Returned (init ++ map (fun k => (k, value_of (body k))) ks).
Proof.
  induction ks as [|k ks IH]; intros init ND Hfresh Hret; simpl.
  - now rewrite app_nil_r.
  - destruct (Hret k (or_introl eq_refl)) as [v Hv]. rewrite Hv. simpl.
    inversion ND as [|? ? Hk ND']; subst.
    rewrite setitem_fresh by (apply Hfresh; now left).
    rewrite IH.
    + now rewrite <- app_assoc.
    + exact ND'.
    + intros k' Hk'. rewrite keys_app. simpl. rewrite in_app_iff. simpl.
      intros [H|[H|[]]].
      * apply (Hfresh k'); [now right|exact H].
      * subst. tauto.
    + intros k' Hk'. apply Hret. now right.
Qed.

(** An exception leaving the loop was raised by the body at some key. *)
Lemma for_keys_Raised (body : string -> outcome value) (ks : list string) (e : exn) :
  forall init,
  for_keys body ks init = Raised e ->
  exists k, In k ks /\ body k = Raised e.
Proof.
  induction ks as [|k ks IH]; intros init; simpl; [discriminate|].
  destruct (body k) as [v|e'|] eqn:E; simpl.
  - intros H. destruct (IH _ H) as [k' [H1 H2]]. exists k'. split; [now right|exact H2].
  - intros [= ->]. exists k. split; [now left|exact E].
  - discriminate.
Qed.

Lemma for_keys_NoFuel (body : string -> outcome value) (ks : list string) :
  forall init,
  for_keys body ks init = NoFuel ->
  exists k, In k ks /\ body k = NoFuel.
Proof.
  induction ks as [|k ks IH]; intros init; simpl; [discriminate|].
  destruct (body k) as [v|e'|] eqn:E; simpl.
  - intros H. destruct (IH _ H) as [k' [H1 H2]]. exists k'. split; [now right|exact H2].
  - discriminate.
  - intros _. exists k. split; [now left|exact E].
Qed.

(** A loop that returns had its body return at every key. *)
Lemma for_keys_all_Returned (body : string -> outcome value) (ks : list string) :
  forall init res,
  for_keys body ks init = Returned res ->
  forall k, In k ks -> exists v, body k = Returned v.
Proof.
  induction ks as [|k ks IH]; intros init res; simpl; [tauto|].
  destruct (body k) as [v|e'|] eqn:E; simpl; try discriminate.
  intros H k' [->|Hk'].
  - eauto.
  - eapply IH; eauto.
Qed.

(** Two bodies that agree wherever the first one does not run out of fuel
    drive the loop to the same outcome. *)
Lemma for_keys_ext (body body' : string -> outcome value) (ks : list string) :
  forall init,
  (forall k, In k ks -> body k <> NoFuel -> body' k = body k) ->
  for_keys body ks init <> NoFuel ->
  for_keys body' ks init = for_keys body ks init.
Proof.
  induction ks as [|k ks IH]; intros init Hag; simpl; [reflexivity|].
  destruct (body k) as [v|e'|] eqn:E; simpl; intros Hnf.
  - rewrite (Hag k (or_introl eq_refl)) by congruence. rewrite E. simpl.
    apply IH; [|exact Hnf]. intros k' Hk'. apply Hag. now right.
  - rewrite (Hag k (or_introl eq_refl)) by congruence. now rewrite E.
  - congruence.
Qed.

Lemma depth_assoc (key : string) (d : dict) (x : value) :
  assoc key d = Some x -> depth x < depth (VDict d).
Proof.
  induction d as [|[k y] d IH]; simpl; [discriminate|].
  destruct (String.eqb key k).
  - intros [= ->]. lia.
  - intros H. specialize (IH H). simpl in IH. lia.
Qed.

Lemma depth_dict_pos (d : dict) : 1 <= depth (VDict d).
Proof. simpl. lia. Qed.

Lemma isinstance_dict (v : value) :
  isinstance v TDict = true -> exists d, v = VDict d.
Proof. destruct v; try discriminate. eauto. Qed.

Lemma isinstance_list (v : value) :
  isinstance v TList = true -> exists l, v = VList l.
Proof. destruct v; try discriminate. eauto. Qed.

Lemma get_default_depth (d e : dict) (key : string) (n : nat) :
  depth (VDict d) <= S n -> 1 <= n ->
  as_dict (get_default d key (VDict [])) = Some e ->
  depth (VDict e) <= n.
Proof.
  unfold get_default. intros Hd Hn.
  destruct (assoc key d) as [x|] eqn:E.
  - destruct x; try discriminate. intros [= ->].
    apply depth_assoc in E. lia.
  - intros [= <-]. simpl. lia.
Qed.

Lemma get_dict_depth (d : dict) (key : string) (n : nat) :
  depth (VDict d) <= S n -> isinstance (get d key) TDict = true -> 1 <= n.
Proof.
  intros Hd Hi. apply isinstance_dict in Hi. destruct Hi as [e He].
  unfold get, get_default in He.
  destruct (assoc key d) as [x|] eqn:E; [|discriminate]. subst x.
  apply depth_assoc in E. pose proof (depth_dict_pos e). lia.
Qed.

Section EngineFacts.

Context {order : SetOrder}.

Lemma merge_key_ext (rec rec' : dict -> dict -> dict -> outcome dict)
    (a l r : dict) (key : string) :
  (forall x y z, rec x y z <> NoFuel -> rec' x y z = rec x y z) ->
  merge_key rec a l r key <> NoFuel ->
  merge_key rec' a l r key = merge_key rec a l r key.
Proof.
  intros Hag. unfold merge_key. cbv zeta.
  destruct (type_mismatch key [a; l; r]); [reflexivity|].
  destruct (existsb _ [a; l; r]); [|reflexivity].
  destruct (as_dict (get_default a key (VDict []))) as [a'|]; [|reflexivity].
  destruct (as_dict (get_default l key (VDict []))) as [l'|]; [|reflexivity].
  destruct (as_dict (get_default r key (VDict []))) as [r'|]; [|reflexivity].
  intros H. rewrite Hag; [reflexivity|].
  intros F. apply H. now rewrite F.
Qed.

(** More fuel does not change an outcome already reached. *)
Lemma merge_dicts_rec_mono (n : nat) :
  forall m (a l r : dict),
  n <= m ->
  merge_dicts_rec n a l r <> NoFuel ->
  merge_dicts_rec m a l r = merge_dicts_rec n a l r.
Proof.
  induction n as [|n IH]; intros m a l r Hle Hnf; simpl in *; [congruence|].
  destruct m as [|m]; [lia|]. simpl.
  apply for_keys_ext; [|exact Hnf].
  intros k _ Hk. apply merge_key_ext; [|exact Hk].
  intros x y z Hxyz. apply IH; [lia|exact Hxyz].
Qed.

(** Fuel up to the nesting depth of the arguments is enough. *)
Lemma merge_dicts_rec_fuel (n : nat) :
  forall a l r : dict,
  depth (VDict a) <= n -> depth (VDict l) <= n -> depth (VDict r) <= n ->
  merge_dicts_rec n a l r <> NoFuel.
Proof.
  induction n as [|n IH]; intros a l r Ha Hl Hr.
  - pose proof (depth_dict_pos a). lia.
  - simpl. intros F. apply for_keys_NoFuel in F. destruct F as [key [_ F]].
    revert F. unfold merge_key. cbv zeta.
    destruct (type_mismatch key [a; l; r]); [discriminate|].
    destruct (existsb (fun d => isinstance (get d key) TDict) [a; l; r]) eqn:Ed.
    + assert (Hn : 1 <= n).
      { cbn [existsb] in Ed. rewrite !orb_true_iff in Ed.
        destruct Ed as [H|[H|[H|H]]]; [| | |discriminate H];
          (eapply get_dict_depth; [|exact H]; assumption). }
      destruct (as_dict (get_default a key (VDict []))) as [a'|] eqn:Ea; [|discriminate].
      destruct (as_dict (get_default l key (VDict []))) as [l'|] eqn:El; [|discriminate].
      destruct (as_dict (get_default r key (VDict []))) as [r'|] eqn:Er; [|discriminate].
      destruct (merge_dicts_rec n a' l' r') eqn:Erec; try discriminate.
      intros _. revert Erec. apply IH.
      * eapply get_default_depth; [exact Ha|exact Hn|exact Ea].
      * eapply get_default_depth; [exact Hl|exact Hn|exact El].
      * eapply get_default_depth; [exact Hr|exact Hn|exact Er].
    + destruct (existsb (fun d => isinstance (get d key) TList) [a; l; r]); cbv iota.
      * destruct (as_list _); [|discriminate].
        destruct (as_list _); [|discriminate].
        destruct (as_list _); discriminate.
      * unfold merge_scalar.
        repeat match goal with
               | |- (if ?c then _ else _) = _ -> _ => destruct c; cbv iota
               end; discriminate.
Qed.

(** [merge_dicts] always comes back: with a document or an exception. *)
Lemma merge_dicts_total (a l r : dict) : merge_dicts a l r <> NoFuel.
Proof. unfold merge_dicts. apply merge_dicts_rec_fuel; lia. Qed.

(** Any sufficient amount of fuel computes [merge_dicts]. *)
Lemma merge_dicts_rec_enough (n : nat) (a l r : dict) :
  depth (VDict a) <= n -> depth (VDict l) <= n -> depth (VDict r) <= n ->
  merge_dicts_rec n a l r = merge_dicts a l r.
Proof.
  intros Ha Hl Hr. unfold merge_dicts.
  apply merge_dicts_rec_mono; [lia|]. apply merge_dicts_rec_fuel; lia.
Qed.

End EngineFacts.

(* ================================================================= *)
(** ** The type-compatibility check *)

Lemma pytype_eqb_eq (t u : pytype) : pytype_eqb t u = true <-> t = u.
Proof. destruct t, u; simpl; split; congruence. Qed.

Lemma pytype_eqb_neq (t u : pytype) : pytype_eqb t u = false <-> t <> u.
Proof. destruct t, u; simpl; split; congruence. Qed.

Lemma existsb_pytype (t : pytype) (ts : list pytype) :
  existsb (pytype_eqb t) ts = true <-> In t ts.
Proof.
  rewrite existsb_exists. split.
  - intros [u [H E]]. apply pytype_eqb_eq in E. now subst.
  - intros H. exists t. split; [exact H|]. now apply pytype_eqb_eq.
Qed.

Lemma type_set_In (t : pytype) (ts : list pytype) :
  In t (type_set ts) <-> In t ts.
Proof.
  induction ts as [|u ts IH]; simpl; [tauto|].
  destruct (existsb (pytype_eqb u) ts) eqn:E.
  - apply existsb_pytype in E. rewrite IH. split; [tauto|].
    intros [->|H]; tauto.
  - simpl. rewrite IH. tauto.
Qed.

Lemma type_set_NoDup (ts : list pytype) : NoDup (type_set ts).
Proof.
  induction ts as [|u ts IH]; simpl; [constructor|].
  destruct (existsb (pytype_eqb u) ts) eqn:E; [exact IH|].
  constructor; [|exact IH].
  rewrite type_set_In, <- existsb_pytype. congruence.
Qed.

Lemma compared_types_In (key : string) (dicts : list dict) (t : pytype) :
  In t (compared_types key dicts) <->
  t <> TNone /\ exists d, In d dicts /\ type (get d key) = t.
Proof.
  unfold compared_types. rewrite filter_In, in_map_iff, negb_true_iff, pytype_eqb_neq.
  split.
  - intros [[d [E H]] N]. split; [congruence|]. eauto.
  - intros [N [d [H E]]]. split; [eauto|congruence].
Qed.

Lemma key_types_In (key : string) (dicts : list dict) (t : pytype) :
  In t (key_types key dicts) <-> In t (compared_types key dicts).
Proof.
  unfold key_types, discard, compared_types.
  rewrite !filter_In, type_set_In. tauto.
Qed.

Lemma key_types_NoDup (key : string) (dicts : list dict) :
  NoDup (key_types key dicts).
Proof. unfold key_types, discard. apply NoDup_filter, type_set_NoDup. Qed.

Lemma two_distinct (A : Type) (L : list A) :
  NoDup L ->
  (1 < List.length L <-> exists t u, In t L /\ In u L /\ t <> u).
Proof.
  intros ND. destruct L as [|x [|y L]]; simpl.
  - split; [lia|]. intros [t [u [[] _]]].
  - split; [lia|]. intros [t [u [[<-|[]] [[<-|[]] H]]]]. congruence.
  - split; [|lia]. intros _. exists x, y. repeat split; auto.
    inversion ND as [|? ? Hx _]; subst. intros ->. apply Hx. now left.
Qed.

Lemma issubset_false (ts us : list pytype) :
  issubset ts us = false <-> exists t, In t ts /\ ~ In t us.
Proof.
  unfold issubset. split.
  - intros H. induction ts as [|t ts IH]; simpl in *; [discriminate|].
    apply andb_false_iff in H. destruct H as [H|H].
    + exists t. split; [now left|]. rewrite <- existsb_pytype. congruence.
    + destruct (IH H) as [u [H1 H2]]. exists u. split; [now right|exact H2].
  - intros [t [H1 H2]]. destruct (forallb _ ts) eqn:E; [|reflexivity].
    rewrite forallb_forall in E. specialize (E t H1).
    apply existsb_pytype in E. tauto.
Qed.

(** The condition of line 73, in words. *)
Lemma type_mismatch_iff (key : string) (dicts : list dict) :
  type_mismatch key dicts = true <-> conflicting key dicts.
Proof.
  unfold type_mismatch, conflicting.
  rewrite andb_true_iff, Nat.ltb_lt, negb_true_iff, issubset_false.
  rewrite (two_distinct _ _ (key_types_NoDup key dicts)).
  split.
  - intros [[t [u [Ht [Hu N]]]] [v [Hv Nv]]]. split.
    + exists t, u. rewrite <- !key_types_In. auto.
    + exists v. rewrite <- key_types_In. split; [exact Hv|].
      simpl in Nv. split; intros ->; tauto.
  - intros [[t [u [Ht [Hu N]]]] [v [Hv [N1 N2]]]]. split.
    + exists t, u. rewrite !key_types_In. auto.
    + exists v. rewrite key_types_In. split; [exact Hv|].
      simpl. intros [H|[H|[]]]; congruence.
Qed.

Lemma type_mismatch_false (key : string) (dicts : list dict) :
  type_mismatch key dicts = false <-> ~ conflicting key dicts.
Proof.
  rewrite <- type_mismatch_iff. destruct (type_mismatch key dicts); split; congruence.
Qed.

Lemma conflicting_with_list (key : string) (dicts : list dict)
    (d d' : dict) (l : list value) :
  In d dicts -> In d' dicts ->
  get d' key = VList l ->
  type (get d key) <> TNone -> type (get d key) <> TList ->
  conflicting key dicts.
Proof.
  intros Hd Hd' Hl N1 N2.
  assert (HL : In TList (compared_types key dicts)).
  { apply compared_types_In. split; [discriminate|].
    exists d'. split; [exact Hd'|]. now rewrite Hl. }
  split.
  - exists TList, (type (get d key)). repeat split; [exact HL| |congruence].
    apply compared_types_In. split; [exact N1|]. eauto.
  - exists TList. repeat split; [exact HL|discriminate|discriminate].
Qed.

Lemma conflicting_with_dict (key : string) (dicts : list dict)
    (d d' : dict) (e : dict) :
  In d dicts -> In d' dicts ->
  get d' key = VDict e ->
  type (get d key) <> TNone -> type (get d key) <> TDict ->
  conflicting key dicts.
Proof.
  intros Hd Hd' He N1 N2.
  assert (HD : In TDict (compared_types key dicts)).
  { apply compared_types_In. split; [discriminate|].
    exists d'. split; [exact Hd'|]. now rewrite He. }
  split.
  - exists TDict, (type (get d key)). repeat split; [exact HD| |congruence].
    apply compared_types_In. split; [exact N1|]. eauto.
  - exists TDict. repeat split; [exact HD|discriminate|discriminate].
Qed.

(** After the type check, the arguments of the dict branch are dicts or
    explicit [None]s, and a [None] has no [keys()]. *)
Lemma dict_branch_args (key : string) (dicts : list dict) (d : dict) :
  type_mismatch key dicts = false ->
  existsb (fun d => isinstance (get d key) TDict) dicts = true ->
  In d dicts ->
  (exists e, get_default d key (VDict []) = VDict e) \/
  get_default d key (VDict []) = VNone.
Proof.
  intros Hm He Hd. apply existsb_exists in He. destruct He as [d' [Hd' Hl]].
  apply isinstance_dict in Hl. destruct Hl as [e' Hl].
  apply type_mismatch_false in Hm.
  pose proof (@conflicting_with_dict key dicts d d' e' Hd Hd' Hl) as C.
  unfold get, get_default in *. destruct (assoc key d) as [x|] eqn:E; [|eauto].
  destruct x; eauto; exfalso; apply Hm, C; simpl; discriminate.
Qed.

(** After the type check, the arguments of the list branch are lists or
    explicit [None]s; nothing else can reach [merge_lists]. *)
Lemma list_branch_args (key : string) (dicts : list dict) (d : dict) :
  type_mismatch key dicts = false ->
  existsb (fun d => isinstance (get d key) TList) dicts = true ->
  In d dicts ->
  (exists l, get_default d key (VList []) = VList l) \/
  get_default d key (VList []) = VNone.
Proof.
  intros Hm He Hd. apply existsb_exists in He. destruct He as [d' [Hd' Hl]].
  apply isinstance_list in Hl. destruct Hl as [l' Hl].
  apply type_mismatch_false in Hm.
  pose proof (@conflicting_with_list key dicts d d' l' Hd Hd' Hl) as C.
  unfold get, get_default in *. destruct (assoc key d) as [x|] eqn:E; [|eauto].
  destruct x; eauto; exfalso; apply Hm, C; simpl; discriminate.
Qed.

(* ================================================================= *)
(** ** The scalar branch and the keys it is run on *)

Lemma all_keys_contains (a l r : dict) (key : string) :
  In key (all_keys a l r) <->
  contains a key = true \/ contains l key = true \/ contains r key = true.
Proof. unfold all_keys. rewrite !in_app_iff, !contains_true. tauto. Qed.

Lemma merge_scalar_NoValueFound (a l r : dict) (key k : string) :
  merge_scalar a l r key = Raised (NoValueFound k) ->
  contains a key = false /\ contains l key = false /\ contains r key = false.
Proof.
  unfold merge_scalar.
  destruct (contains a key), (contains l key), (contains r key); cbn [andb];
    repeat match goal with
           | |- (if ?c then _ else _) = _ -> _ => destruct c; cbv iota
           end; try discriminate; auto.
Qed.

(** The scalar branch raises a type mismatch for no key. *)
Lemma merge_scalar_no_TypeMismatch (a l r : dict) (key k : string) :
  merge_scalar a l r key <> Raised (TypeMismatch k).
Proof.
  unfold merge_scalar.
  repeat match goal with
         | |- (if ?c then _ else _) <> _ => destruct c; cbv iota
         end; discriminate.
Qed.

(** When both sides hold a value other than the ancestor's, the scalar
    branch raises; it never looks at whether the two new values agree. *)
Lemma merge_scalar_both_changed (a l r : dict) (key : string) :
  contains a key = true -> contains l key = true -> contains r key = true ->
  py_ne (item a key) (item l key) = true ->
  py_ne (item a key) (item r key) = true ->
  merge_scalar a l r key = Raised (BothChanging key).
Proof.
  intros Ha Hl Hr Nl Nr. unfold merge_scalar.
  now rewrite Ha, Hl, Hr, Nl, Nr.
Qed.

Lemma set_iter_single {order : SetOrder} (ks : list string) (key : string) :
  (forall k, In k ks <-> k = key) -> set_iter ks = [key].
Proof.
  intros H. pose proof (set_iter_NoDup ks) as ND.
  assert (HI : forall k, In k (set_iter ks) <-> k = key).
  { intros k. rewrite set_iter_In. apply H. }
  destruct (set_iter ks) as [|x L].
  - exfalso. apply (HI key). reflexivity.
  - assert (x = key) by (apply HI; now left). subst x.
    destruct L as [|y L]; [reflexivity|].
    assert (y = key) by (apply HI; right; now left). subst y.
    inversion ND as [|? ? Hx _]; subst. exfalso. apply Hx. now left.
Qed.

(* ================================================================= *)
(** ** Equality of well-formed values *)

Lemma py_eq_list (xs ys : list value) :
  py_eq (VList xs) (VList ys) = true <-> Forall2 (fun x y => py_eq x y = true) xs ys.
Proof.
  simpl. revert ys. induction xs as [|x xs IH]; intros [|y ys]; split; intros H;
    try discriminate; try constructor; try (now inversion H).
  - apply andb_true_iff in H. tauto.
  - apply andb_true_iff in H. apply IH. tauto.
  - inversion H; subst. apply andb_true_iff. split; [assumption|]. now apply IH.
Qed.

Lemma py_eq_dict (d e : dict) :
  py_eq (VDict d) (VDict e) = true <->
  List.length d = List.length e /\
  forall k x, In (k, x) d -> exists y, assoc k e = Some y /\ py_eq x y = true.
Proof.
  simpl. rewrite andb_true_iff, Nat.eqb_eq.
  apply and_iff_compat_l.
  induction d as [|[k x] d IH].
  - split; [intros _ k x []|reflexivity].
  - rewrite andb_true_iff, IH. split.
    + intros [H1 H2] k' x' [[= <- <-]|H].
      * destruct (assoc k e) as [y|]; [eauto|discriminate].
      * now apply H2.
    + intros H. split.
      * destruct (H k x (or_introl eq_refl)) as [y [-> Hy]]. exact Hy.
      * intros k' x' H'. apply H. now right.
Qed.

Lemma wf_list (xs : list value) : wf (VList xs) <-> Forall wf xs.
Proof.
  simpl. induction xs as [|x xs IH]; split; intros H.
  - constructor.
  - exact I.
  - destruct H as [H1 H2]. constructor; [exact H1|now apply IH].
  - inversion H; subst. split; [assumption|now apply IH].
Qed.

Lemma wf_dict (d : dict) :
  wf (VDict d) <-> NoDup (keys d) /\ Forall (fun kv => wf (snd kv)) d.
Proof.
  simpl. apply and_iff_compat_l.
  induction d as [|[k x] d IH]; split; intros H.
  - constructor.
  - exact I.
  - destruct H as [H1 H2]. constructor; [exact H1|now apply IH].
  - inversion H; subst. split; [assumption|now apply IH].
Qed.

Lemma wf_assoc (d : dict) (key : string) (x : value) :
  wf (VDict d) -> assoc key d = Some x -> wf x.
Proof.
  rewrite wf_dict. intros [_ H] E. apply assoc_In in E.
  rewrite Forall_forall in H. exact (H _ E).
Qed.

(** [x == x] for every well-formed value. *)
Lemma py_eq_refl (v : value) : wf v -> py_eq v v = true.
Proof.
  induction v as [| b | z | z | s | s | xs IH | d IH] using value_ind; intros W;
    try reflexivity.
  - simpl. apply Z.eqb_refl.
  - simpl. apply Z.eqb_refl.
  - simpl. apply Z.eqb_refl.
  - simpl. apply String.eqb_refl.
  - simpl. apply String.eqb_refl.
  - apply py_eq_list. apply wf_list in W.
    induction xs as [|x xs IHxs]; constructor.
    + inversion IH; inversion W; subst. auto.
    + inversion IH; inversion W; subst. auto.
  - apply py_eq_dict. split; [reflexivity|].
    apply wf_dict in W. destruct W as [ND W].
    intros k x Hin. exists x. split.
    + now apply assoc_NoDup.
    + rewrite Forall_forall in IH, W.
      apply (IH (k, x) Hin). apply (W (k, x) Hin).
Qed.

Lemma isinstance_own_type (v : value) : isinstance v (type v) = true.
Proof. destruct v; reflexivity. Qed.

(* ================================================================= *)
(** ** Facts about [merge_lists] *)

Lemma distinct_cons (x : value) (l : list value) :
  distinct (x :: l) = true <->
  (forall y, In y l -> py_eq x y = false) /\ distinct l = true.
Proof.
  simpl. rewrite andb_true_iff, negb_true_iff.
  apply and_iff_compat_r. split.
  - intros H y Hy. destruct (py_eq x y) eqn:E; [|reflexivity].
    assert (existsb (py_eq x) l = true) by (apply existsb_exists; eauto).
    congruence.
  - intros H. destruct (existsb (py_eq x) l) eqn:E; [|reflexivity].
    apply existsb_exists in E. destruct E as [y [Hy E]].
    rewrite (H y Hy) in E. discriminate.
Qed.

Lemma distinct_app (l1 l2 : list value) :
  distinct (l1 ++ l2) = true <->
  distinct l1 = true /\ distinct l2 = true /\
  forall x y, In x l1 -> In y l2 -> py_eq x y = false.
Proof.
  induction l1 as [|a l1 IH].
  - simpl. split; [intros H; repeat split; auto; intros x y []|tauto].
  - change ((a :: l1) ++ l2) with (a :: (l1 ++ l2)).
    rewrite !distinct_cons, IH. split.
    + intros [H1 [H2 [H3 H4]]]. repeat split; auto.
      * intros y Hy. apply H1. apply in_app_iff. now left.
      * intros x y [<-|Hx] Hy; [|now apply H4].
        apply H1. apply in_app_iff. now right.
    + intros [[H1 H2] [H3 H4]]. repeat split; auto.
      * intros y Hy. apply in_app_iff in Hy. destruct Hy as [Hy|Hy]; [now apply H1|].
        apply H4; [now left|exact Hy].
      * intros x y Hx Hy. apply H4; [now right|exact Hy].
Qed.

Lemma py_in_false (i : value) (result : list value) :
  py_in i result = false <-> forall x, In x result -> py_eq x i = false.
Proof.
  unfold py_in. split.
  - intros H x Hx. destruct (py_eq x i) eqn:E; [|reflexivity].
    assert (existsb (fun x => py_eq x i) result = true) by (apply existsb_exists; eauto).
    congruence.
  - intros H. destruct (existsb _ result) eqn:E; [|reflexivity].
    apply existsb_exists in E. destruct E as [x [Hx E]].
    rewrite (H x Hx) in E. discriminate.
Qed.

Lemma extend_cons (result : list value) (i : value) (l : list value) :
  extend result (i :: l) =
  extend (if appends result i then result ++ [i] else result) l.
Proof. reflexivity. Qed.

Lemma extend_app (result l1 l2 : list value) :
  extend result (l1 ++ l2) = extend (extend result l1) l2.
Proof. unfold extend. apply fold_left_app. Qed.

(** Elements that equal nothing seen so far are all appended. *)
Lemma extend_new (l result : list value) :
  distinct (result ++ l) = true -> extend result l = result ++ l.
Proof.
  revert result. induction l as [|i l IH]; intros result D.
  - simpl. now rewrite app_nil_r.
  - rewrite extend_cons.
    assert (A : appends result i = true).
    { unfold appends. apply distinct_app in D. destruct D as [_ [_ D]].
      assert (py_in i result = false) as ->; [|reflexivity].
      apply py_in_false. intros x Hx. apply D; [exact Hx|now left]. }
    rewrite A. rewrite IH; rewrite <- app_assoc; [reflexivity|exact D].
Qed.

Lemma first_equal_self (result : list value) (i : value) :
  distinct result = true -> In i result -> wf i ->
  first_equal i result = Some i.
Proof.
  induction result as [|x result IH]; intros D Hin W; [destruct Hin|].
  apply distinct_cons in D. destruct D as [D1 D2]. simpl.
  destruct Hin as [->|Hin].
  - now rewrite py_eq_refl.
  - rewrite (D1 i Hin). now apply IH.
Qed.

(** Elements already in the result, itself without repetition, are skipped. *)
Lemma extend_old (l result : list value) :
  distinct result = true ->
  (forall i, In i l -> In i result /\ wf i) ->
  extend result l = result.
Proof.
  induction l as [|i l IH]; intros D H; [reflexivity|].
  rewrite extend_cons.
  destruct (H i (or_introl eq_refl)) as [Hin W].
  assert (A : appends result i = false).
  { unfold appends. rewrite (@first_equal_self result i D Hin W), isinstance_own_type.
    assert (py_in i result = true) as ->; [|reflexivity].
    apply existsb_exists. exists i. split; [exact Hin|now apply py_eq_refl]. }
  rewrite A. apply IH; [exact D|]. intros j Hj. apply H. now right.
Qed.

(** A list without repetition merges with itself into itself. *)
Lemma merge_lists_same (l : list value) :
  distinct l = true -> Forall wf l -> merge_lists [l; l; l] = l.
Proof.
  intros D W. rewrite Forall_forall in W. unfold merge_lists. simpl.
  assert (Old : forall i, In i l -> In i l /\ wf i) by auto.
  rewrite (extend_new l []) by exact D. simpl.
  now rewrite !(@extend_old l l) by assumption.
Qed.



(** The result only grows. *)
Lemma extend_prefix (l result : list value) :
  exists suffix, extend result l = result ++ suffix.
Proof.
  revert result. induction l as [|i l IH]; intros result.
  - exists []. simpl. now rewrite app_nil_r.
  - rewrite extend_cons. destruct (appends result i).
    + destruct (IH (result ++ [i])) as [s ->]. exists (i :: s).
      now rewrite <- app_assoc.
    + apply IH.
Qed.

Lemma extend_keeps (l result : list value) (i : value) :
  py_in i result = true -> py_in i (extend result l) = true.
Proof.
  intros H. destruct (extend_prefix l result) as [s ->].
  unfold py_in in *. rewrite existsb_app, H. reflexivity.
Qed.

Lemma extend_present (l result : list value) (i : value) :
  wf i -> In i l -> py_in i (extend result l) = true.
Proof.
  intros W. revert result. induction l as [|j l IH]; intros result Hin; [destruct Hin|].
  rewrite extend_cons. destruct Hin as [->|Hin]; [|now apply IH].
  apply extend_keeps. destruct (appends result i) eqn:A.
  - unfold py_in. rewrite existsb_app. simpl. rewrite (py_eq_refl _ W).
    now rewrite orb_true_r.
  - unfold appends in A. apply orb_false_iff in A. destruct A as [A _].
    now apply negb_false_iff in A.
Qed.

Lemma first_equal_None (i : value) (result : list value) :
  first_equal i result = None <-> py_in i result = false.
Proof.
  unfold py_in. induction result as [|x result IH]; simpl; [tauto|].
  destruct (py_eq x i); simpl; [split; discriminate|exact IH].
Qed.

(** The test of line 62, in words: nothing appended so far equals [i], or
    [i] is not an instance of the type of the first appended element that
    equals it. *)
Lemma appends_iff (result : list value) (i : value) :
  appends result i = true <->
  (forall x, In x result -> py_eq x i = false) \/
  (exists x, first_equal i result = Some x /\ isinstance i (type x) = false).
Proof.
  unfold appends. rewrite orb_true_iff, negb_true_iff, py_in_false.
  split; intros [H|H]; auto.
  - destruct (first_equal i result) as [x|] eqn:E.
    + right. exists x. split; [reflexivity|]. now apply negb_true_iff.
    + left. apply py_in_false. now apply first_equal_None.
  - destruct H as [x [-> H]]. right. now apply negb_true_iff.
Qed.

(* ================================================================= *)
(** ** What [merge_dicts] returns, key by key *)

Section Returned.

Context {order : SetOrder}.

(** A merge that returns took a value from the loop body at every key of
    the three documents, and returns exactly those bindings. *)
Lemma merge_dicts_rec_Returned (n : nat) (a l r : dict) :
  (forall key, In key (all_keys a l r) ->
     exists v, merge_key (merge_dicts_rec n) a l r key = Returned v) ->
  merge_dicts_rec (S n) a l r =
  Returned (map (fun key => (key, value_of (merge_key (merge_dicts_rec n) a l r key)))
                (set_iter (all_keys a l r))).
Proof.
  intros H. simpl. rewrite for_keys_Returned.
  - reflexivity.
  - apply set_iter_NoDup.
  - intros k _ [].
  - intros k Hk. apply H. now apply set_iter_In.
Qed.

Lemma merge_dicts_rec_body (n : nat) (a l r res : dict) :
  merge_dicts_rec (S n) a l r = Returned res ->
  forall key, In key (all_keys a l r) ->
  exists v, merge_key (merge_dicts_rec n) a l r key = Returned v.
Proof.
  simpl. intros H key Hk. eapply for_keys_all_Returned; [exact H|].
  now apply set_iter_In.
Qed.

(** An exception leaving [merge_dicts] left the loop body at some key. *)
Lemma merge_dicts_rec_Raised (n : nat) (a l r : dict) (e : exn) :
  merge_dicts_rec (S n) a l r = Raised e ->
  exists key, In key (all_keys a l r) /\
              merge_key (merge_dicts_rec n) a l r key = Raised e.
Proof.
  simpl. intros H. apply for_keys_Raised in H. destruct H as [k [Hk H]].
  exists k. split; [now apply set_iter_In|exact H].
Qed.

(** A key whose loop body raises makes the whole merge raise. *)
Lemma merge_dicts_fails (a l r : dict) (key : string) :
  In key (all_keys a l r) ->
  (forall rec, exists e, merge_key rec a l r key = Raised e) ->
  exists e, merge_dicts a l r = Raised e.
Proof.
  intros Hk Hbody. pose proof (merge_dicts_total a l r) as T.
  unfold merge_dicts in *.
  destruct (Nat.max _ _) as [|n]; [simpl in T; congruence|].
  destruct (merge_dicts_rec (S n) a l r) as [res|e|] eqn:E.
  - destruct (merge_dicts_rec_body _ _ _ _ _ E _ Hk) as [v Hv].
    destruct (Hbody (merge_dicts_rec n)) as [e He]. congruence.
  - eauto.
  - congruence.
Qed.

End Returned.

(* ================================================================= *)
(** ** Conflicts raised by the scalar branch *)

Section ScalarConflicts.

Context {order : SetOrder}.

Lemma merge_dicts_one_int (key : string) (x y z : Z) :
  merge_dicts [(key, VInt x)] [(key, VInt y)] [(key, VInt z)] =
  v <- merge_scalar [(key, VInt x)] [(key, VInt y)] [(key, VInt z)] key ;;
  Returned [(key, v)].
Proof.
  unfold merge_dicts. cbn [depth Nat.max]. cbn [merge_dicts_rec].
  rewrite (@set_iter_single _ _ key).
  - cbn [for_keys]. unfold merge_key, type_mismatch, key_types, get, get_default.
    cbn [map assoc existsb]. rewrite String.eqb_refl. cbn.
    destruct (merge_scalar _ _ _ key); reflexivity.
  - intros k. unfold all_keys. simpl. intuition.
Qed.

(** C1. Ancestor, left and right all hold an integer at [key]; left and
    right hold the same new integer, different from the ancestor's.  The
    claim has the shared value accepted; [merge_dicts] raises the
    both-changing conflict: the test of line 82 compares each side with
    the ancestor only, where its sibling of line 91 compares the sides. *)
Theorem same_new_value_conflicts (key : string) (x y : Z) :
  x <> y ->
  merge_dicts [(key, VInt x)] [(key, VInt y)] [(key, VInt y)] =
  Raised (BothChanging key).
Proof.
  intros N. rewrite merge_dicts_one_int.
  rewrite merge_scalar_both_changed; try reflexivity;
    unfold contains, item, get, get_default, py_ne; cbn [assoc];
    rewrite String.eqb_refl; try reflexivity;
    cbn; apply negb_true_iff, Z.eqb_neq; exact N.
Qed.

(** The sibling branch: the same value newly set on both sides, with no
    ancestor value, is accepted. *)
Lemma same_added_value_accepted (key : string) (y : Z) :
  merge_dicts [] [(key, VInt y)] [(key, VInt y)] = Returned [(key, VInt y)].
Proof.
  unfold merge_dicts. cbn [depth Nat.max]. cbn [merge_dicts_rec].
  rewrite (@set_iter_single _ _ key).
  - cbn [for_keys]. unfold merge_key, type_mismatch, key_types, get, get_default.
    cbn [map assoc existsb]. rewrite String.eqb_refl. cbn.
    unfold merge_scalar, contains, item, get, get_default, py_ne. cbn [assoc].
    rewrite String.eqb_refl. cbn. rewrite Z.eqb_refl. reflexivity.
  - intros k. unfold all_keys. simpl. intuition.
Qed.

End ScalarConflicts.

Lemma same_new_value_conflicts_witness :
  @merge_dicts first_seen_order [("a", VInt 1)] [("a", VInt 2)] [("a", VInt 2)] =
  Raised (BothChanging "a").
Proof.
  apply (@same_new_value_conflicts first_seen_order "a" 1%Z 2%Z). discriminate.
Defined.

(* ================================================================= *)
(** ** The no-value-found branch *)

Section NoValueFound.

Context {order : SetOrder}.

Lemma merge_key_NoValueFound (rec : dict -> dict -> dict -> outcome dict)
    (a l r : dict) (key k : string) :
  (forall x y z, rec x y z <> Raised (NoValueFound k)) ->
  In key (all_keys a l r) ->
  merge_key rec a l r key <> Raised (NoValueFound k).
Proof.
  intros Hrec Hin. unfold merge_key. cbv zeta.
  destruct (type_mismatch key [a; l; r]); [discriminate|].
  destruct (existsb (fun d => isinstance (get d key) TDict) [a; l; r]).
  - destruct (as_dict _); [|discriminate].
    destruct (as_dict _); [|discriminate].
    destruct (as_dict _) as [r'|]; [|discriminate].
    match goal with |- context [rec ?x ?y ?z] =>
      specialize (Hrec x y z); destruct (rec x y z) end;
      simpl; congruence.
  - destruct (existsb (fun d => isinstance (get d key) TList) [a; l; r]).
    + destruct (as_list _); [|discriminate].
      destruct (as_list _); [|discriminate].
      destruct (as_list _); discriminate.
    + intros F. apply merge_scalar_NoValueFound in F.
      apply all_keys_contains in Hin. destruct F as [F1 [F2 F3]].
      rewrite F1, F2, F3 in Hin. intuition discriminate.
Qed.

Lemma merge_dicts_rec_NoValueFound (fuel : nat) :
  forall (a l r : dict) (k : string),
  merge_dicts_rec fuel a l r <> Raised (NoValueFound k).
Proof.
  induction fuel as [|n IH]; intros a l r k; [discriminate|].
  intros F. apply merge_dicts_rec_Raised in F. destruct F as [key [Hin F]].
  revert F. apply merge_key_NoValueFound; [|exact Hin].
  intros x y z. apply IH.
Qed.

(** C9. The keys the loop visits are the keys of the three documents, so
    the scalar branch always finds the key in one of them: [merge_dicts]
    never raises the error of line 98, at any depth of recursion. *)
Theorem no_value_found_unreachable (a l r : dict) (k : string) :
  merge_dicts a l r <> Raised (NoValueFound k) /\
  forall key, In key (set_iter (all_keys a l r)) ->
    (contains a key || contains l key || contains r key) = true /\
    merge_scalar a l r key <> Raised (NoValueFound k).
Proof.
  split; [apply merge_dicts_rec_NoValueFound|].
  intros key Hin. apply set_iter_In, all_keys_contains in Hin.
  assert (C : (contains a key || contains l key || contains r key) = true).
  { rewrite !orb_true_iff. tauto. }
  split; [exact C|]. intros F. apply merge_scalar_NoValueFound in F.
  destruct F as [F1 [F2 F3]]. rewrite F1, F2, F3 in C. discriminate.
Qed.

End NoValueFound.

Lemma no_value_found_unreachable_witness :
  @merge_dicts first_seen_order [] [("a", VInt 1)] [("b", VNone)] <>
  Raised (NoValueFound "a").
Proof.
  apply (proj1 (@no_value_found_unreachable first_seen_order
                  [] [("a", VInt 1)] [("b", VNone)] "a")).
Defined.

(* ================================================================= *)
(** ** Type mismatches *)

Section TypeMismatch.

Context {order : SetOrder}.

Lemma conflicting_key (a l r : dict) (key : string) :
  conflicting key [a; l; r] -> In key (all_keys a l r).
Proof.
  intros [_ [t [Ht _]]]. apply compared_types_In in Ht.
  destruct Ht as [N [d [Hd E]]].
  assert (C : contains d key = true).
  { unfold contains. unfold get, get_default in E.
    destruct (assoc key d); [reflexivity|]. simpl in E. congruence. }
  apply all_keys_contains. simpl in Hd.
  destruct Hd as [<-|[<-|[<-|[]]]]; tauto.
Qed.

Lemma type_mismatch_raised
    (rec : dict -> dict -> dict -> outcome dict) (a l r : dict) (key : string) :
  conflicting key [a; l; r] ->
  merge_key rec a l r key = Raised (TypeMismatch key).
Proof.
  intros C. apply type_mismatch_iff in C.
  unfold merge_key. cbv zeta. now rewrite C.
Qed.

Lemma type_mismatch_nested
    (rec : dict -> dict -> dict -> outcome dict) (a l r : dict) (key k : string) :
  ~ conflicting key [a; l; r] ->
  merge_key rec a l r key = Raised (TypeMismatch k) ->
  exists a' l' r',
    get_default a key (VDict []) = VDict a' /\
    get_default l key (VDict []) = VDict l' /\
    get_default r key (VDict []) = VDict r' /\
    rec a' l' r' = Raised (TypeMismatch k).
Proof.
  intros C. apply type_mismatch_false in C.
  unfold merge_key. cbv zeta. rewrite C.
  destruct (existsb (fun d => isinstance (get d key) TDict) [a; l; r]).
  - destruct (get_default a key (VDict [])); try discriminate.
    destruct (get_default l key (VDict [])); try discriminate.
    destruct (get_default r key (VDict [])); try discriminate.
    cbn [as_dict].
    match goal with |- context [rec ?x ?y ?z] =>
      destruct (rec x y z) eqn:E end; simpl; try discriminate.
    intros [= ->]. eauto 10.
  - destruct (existsb (fun d => isinstance (get d key) TList) [a; l; r]).
    + destruct (as_list _); [|discriminate].
      destruct (as_list _); [|discriminate].
      destruct (as_list _); discriminate.
    + intros F. now apply merge_scalar_no_TypeMismatch in F.
Qed.

(** C5, as the code has it.  The types compared at a key are those of the
    values that are neither absent nor [None].  When two of them differ
    and they are not all string types, the loop body raises the type
    mismatch for that key and the merge fails.  Otherwise the check of
    that key raises nothing: a type mismatch leaving the body was raised
    by the recursive merge of the mappings nested under the key. *)
Theorem type_mismatch_conflict
    (rec : dict -> dict -> dict -> outcome dict) (a l r : dict) (key : string) :
  (conflicting key [a; l; r] ->
     merge_key rec a l r key = Raised (TypeMismatch key) /\
     exists e, merge_dicts a l r = Raised e) /\
  (~ conflicting key [a; l; r] ->
     forall k, merge_key rec a l r key = Raised (TypeMismatch k) ->
     exists a' l' r',
       get_default a key (VDict []) = VDict a' /\
       get_default l key (VDict []) = VDict l' /\
       get_default r key (VDict []) = VDict r' /\
       rec a' l' r' = Raised (TypeMismatch k)).
Proof.
  split.
  - intros C. split; [now apply type_mismatch_raised|].
    apply merge_dicts_fails with (key := key); [now apply conflicting_key|].
    intros rec'. eexists. now apply type_mismatch_raised.
  - intros C k. now apply type_mismatch_nested.
Qed.

(** C10. A key that holds [None] in some documents and values of one
    single type in the others passes the type check; when that type is
    not the mapping type, the loop body raises no type mismatch at all. *)
Theorem null_is_absent_for_types
    (rec : dict -> dict -> dict -> outcome dict) (a l r : dict)
    (key : string) (t : pytype) :
  (forall d, In d [a; l; r] ->
     type (get d key) = TNone \/ type (get d key) = t) ->
  type_mismatch key [a; l; r] = false /\
  (t <> TDict ->
   forall k, merge_key rec a l r key <> Raised (TypeMismatch k)).
Proof.
  intros H.
  assert (C : ~ conflicting key [a; l; r]).
  { intros [[u [v [Hu [Hv N]]]] _].
    apply compared_types_In in Hu, Hv.
    destruct Hu as [Nu [d [Hd Eu]]]. destruct Hv as [Nv [d' [Hd' Ev]]].
    destruct (H d Hd), (H d' Hd'); congruence. }
  split; [now apply type_mismatch_false|].
  intros Nt k F.
  destruct (@type_mismatch_nested rec a l r key k C F)
    as [a' [l' [r' [Ea [El [Er _]]]]]].
  assert (D : forall d d', In d [a; l; r] -> get_default d key (VDict []) = VDict d' ->
              d' = [] /\ assoc key d = None).
  { intros d d' Hd E. unfold get, get_default in *. specialize (H d Hd).
    destruct (assoc key d) as [x|]; [|split; congruence].
    subst x. simpl in H. destruct H; congruence. }
  destruct (D a a') as [-> Na]; [simpl; tauto|exact Ea|].
  destruct (D l l') as [-> Nl]; [simpl; tauto|exact El|].
  destruct (D r r') as [-> Nr]; [simpl; tauto|exact Er|].
  revert F. unfold merge_key, type_mismatch, key_types, get, get_default.
  cbn [map existsb]. rewrite Na, Nl, Nr. cbn.
  apply merge_scalar_no_TypeMismatch.
Qed.

End TypeMismatch.

(** C5 as stated fails on an explicit [None]: the key is present in
    ancestor and left with two types, one of them not a string type, and
    the merge returns. *)
Lemma type_mismatch_counterexample :
  spec_type_mismatch "k" [[("k", VNone)]; [("k", VInt 5)]; []] = true /\
  @merge_dicts first_seen_order [("k", VNone)] [("k", VInt 5)] [] =
  Returned [("k", VInt 5)].
Proof. split; reflexivity. Defined.

Lemma type_mismatch_conflict_witness :
  merge_key (@merge_dicts_rec first_seen_order 0)
            [("k", VInt 1)] [("k", VStr "s")] [] "k" =
  Raised (TypeMismatch "k") /\
  exists e, @merge_dicts first_seen_order [("k", VInt 1)] [("k", VStr "s")] [] =
            Raised e.
Proof.
  apply (proj1 (@type_mismatch_conflict first_seen_order
                  (@merge_dicts_rec first_seen_order 0)
                  [("k", VInt 1)] [("k", VStr "s")] [] "k")).
  split.
  - exists TInt, TStr. simpl. repeat split; auto. discriminate.
  - exists TInt. simpl. repeat split; auto; discriminate.
Defined.

Lemma null_is_absent_for_types_witness :
  type_mismatch "k" [[("k", VNone)]; [("k", VInt 5)]; []] = false /\
  (TInt <> TDict ->
   forall k, merge_key (@merge_dicts_rec first_seen_order 0)
                       [("k", VNone)] [("k", VInt 5)] [] "k" <>
             Raised (TypeMismatch k)).
Proof.
  apply null_is_absent_for_types.
  intros d [<-|[<-|[<-|[]]]]; simpl; auto.
Defined.

(** The example of C10 end to end: the null is replaced by the value. *)
Lemma null_then_value_example :
  @merge_dicts first_seen_order [("k", VNone)] [("k", VInt 5)] [] =
  Returned [("k", VInt 5)].
Proof. reflexivity. Qed.

(* ================================================================= *)
(** ** Sequence merge *)

(** C4 as stated fails on a boolean after an equal integer: [True == 1],
    the types differ, and yet [True] is not kept, because
    [isinstance(True, int)] holds. *)
Lemma merge_lists_counterexample :
  merge_lists [[VInt 1]; [VBool true]; []] = [VInt 1] /\
  spec_merge_lists [[VInt 1]; [VBool true]; []] = [VInt 1; VBool true].
Proof. split; reflexivity. Defined.

(** C4, as the code has it.  The three sequences are walked in order as
    one; an element is appended exactly when nothing appended so far
    equals it, or when it is not an instance of the type of the first
    appended element that equals it (a boolean is an instance of the
    integer type).  Every element of a well-formed input is then in the
    result by value equality, and the example merges to x, y, z. *)
Theorem merge_lists_walk (a l r : list value) :
  Forall wf (a ++ l ++ r) ->
  merge_lists [a; l; r] = extend [] (a ++ l ++ r) /\
  (forall result i rest,
     extend result (i :: rest) =
     extend (if appends result i then result ++ [i] else result) rest) /\
  (forall result i,
     appends result i = true <->
     (forall x, In x result -> py_eq x i = false) \/
     (exists x, first_equal i result = Some x /\
                pytype_eqb (type i) (type x) = false /\
                ~ (type i = TBool /\ type x = TInt))) /\
  (forall i, In i (a ++ l ++ r) -> py_in i (merge_lists [a; l; r]) = true) /\
  merge_lists [[VStr "x"]; [VStr "x"; VStr "y"]; [VStr "x"; VStr "z"]] =
  [VStr "x"; VStr "y"; VStr "z"].
Proof.
  intros W.
  assert (E : merge_lists [a; l; r] = extend [] (a ++ l ++ r)).
  { unfold merge_lists. simpl. now rewrite !extend_app. }
  split; [exact E|]. split; [reflexivity|]. split; [|split; [|reflexivity]].
  - intros result i. rewrite appends_iff.
    apply or_iff_compat_l. split; intros [x [H1 H2]]; exists x; (split; [exact H1|]).
    + unfold isinstance, issubclass in H2. apply orb_false_iff in H2.
      destruct H2 as [H2 H3]. split; [exact H2|].
      intros [Hi Hx]. rewrite Hi, Hx in H3. discriminate.
    + destruct H2 as [H2 H3]. unfold isinstance, issubclass. rewrite H2. simpl.
      destruct (type i), (type x); try reflexivity. exfalso. now apply H3.
  - intros i Hi. rewrite E. apply extend_present; [|exact Hi].
    rewrite Forall_forall in W. now apply W.
Qed.

Lemma merge_lists_walk_witness :
  py_in (VBool true) (merge_lists [[VInt 1]; [VBool true]; []]) = true.
Proof.
  assert (W : Forall wf ([VInt 1] ++ [VBool true] ++ [])).
  { simpl. repeat constructor. }
  apply (proj1 (proj2 (proj2 (proj2 (@merge_lists_walk _ _ _ W))))).
  simpl. auto.
Defined.

(* ================================================================= *)
(** ** One-sided changes *)

Lemma grows_dict (old : option value) (e : dict) :
  grows old (VDict e) <->
  NoDup (keys e) /\
  match old with
  | None => True
  | Some (VDict d) => forall k, In k (keys d) -> In k (keys e)
  | Some _ => False
  end /\
  Forall (fun kv => grows (under old (fst kv)) (snd kv)) e.
Proof.
  simpl. apply and_iff_compat_l, and_iff_compat_l.
  induction e as [|[k y] e IH]; split; intros H.
  - constructor.
  - exact I.
  - destruct H as [H1 H2]. constructor; [exact H1|now apply IH].
  - inversion H; subst. split; [assumption|now apply IH].
Qed.


Lemma compatible_refl (t : pytype) : compatible t t = true.
Proof. destruct t; reflexivity. Qed.



(** A value that grew from another is well formed as far as equality
    needs it: it equals itself. *)
Lemma grows_py_eq_refl (new : value) :
  forall old, grows old new -> py_eq new new = true.
Proof.
  induction new as [| b | z | z | s | s | xs IH | d IH] using value_ind;
    intros old G; try reflexivity;
    try (simpl; apply Z.eqb_refl); try (simpl; apply String.eqb_refl).
  - apply py_eq_refl. apply wf_list. simpl in G. tauto.
  - apply grows_dict in G. destruct G as [ND [_ F]].
    apply py_eq_dict. split; [reflexivity|].
    intros k x Hin. exists x. split; [now apply assoc_NoDup|].
    rewrite Forall_forall in IH, F.
    apply (IH (k, x) Hin (under old k)). apply (F (k, x) Hin).
Qed.



Lemma assoc_present (d : dict) (key : string) (x dflt : value) :
  assoc key d = Some x ->
  get d key = x /\ get_default d key dflt = x /\
  item d key = x /\ contains d key = true.
Proof.
  intros E. unfold item, get, get_default, contains. now rewrite E.
Qed.



(** *** The three branches of the loop body *)




Section OneSided.

Context {order : SetOrder}.

(** A merge whose loop body returns, at every key of [target], a value
    equal to the one [target] holds, returns a document equal to [target]. *)
Lemma merged_eq (n : nat) (a l r target : dict) :
  NoDup (keys target) ->
  (forall k, In k (all_keys a l r) <-> In k (keys target)) ->
  (forall k x, assoc k target = Some x ->
     exists v, merge_key (merge_dicts_rec n) a l r k = Returned v /\
               py_eq v x = true) ->
  exists m, merge_dicts_rec (S n) a l r = Returned m /\
            py_eq (VDict m) (VDict target) = true.
Proof.
  intros ND Hk Hv.
  assert (B : forall key, In key (all_keys a l r) ->
              exists x v, assoc key target = Some x /\
                          merge_key (merge_dicts_rec n) a l r key = Returned v /\
                          py_eq v x = true).
  { intros key Hin. apply Hk, assoc_Some_keys in Hin. destruct Hin as [x Hx].
    destruct (Hv key x Hx) as [v [H1 H2]]. eauto. }
  eexists. split.
  - apply merge_dicts_rec_Returned. intros key Hin.
    destruct (B key Hin) as [x [v [_ [H _]]]]. eauto.
  - apply py_eq_dict. split.
    + rewrite length_map.
      rewrite <- (length_map fst target). fold (keys target).
      apply Permutation_length, NoDup_Permutation;
        [apply set_iter_NoDup|exact ND|].
      intros k. rewrite set_iter_In. apply Hk.
    + intros k v Hin. apply in_map_iff in Hin.
      destruct Hin as [key [[= <- <-] Hin]].
      apply (proj1 (set_iter_In _ _)) in Hin.
      destruct (B key Hin) as [x [v [Hx [Hb He]]]].
      exists x. split; [exact Hx|]. now rewrite Hb.
Qed.


End OneSided.

Section OneSidedMerge.

Context {order : SetOrder}.




End OneSidedMerge.


(** Other one-sided changes that do not win: an element removed from a
    sequence is kept, and a scalar replaced by one of another type stops
    the merge. *)
Lemma one_sided_other_failures :
  @merge_dicts first_seen_order
     [("l", VList [VInt 1; VInt 2])] [("l", VList [VInt 1; VInt 2])]
     [("l", VList [VInt 2])] =
  Returned [("l", VList [VInt 1; VInt 2])] /\
  @merge_dicts first_seen_order
     [("v", VInt 1)] [("v", VInt 1)] [("v", VStr "1")] =
  Raised (TypeMismatch "v").
Proof. split; reflexivity. Qed.


Ltac distinct_keys :=
  repeat constructor; simpl; intuition discriminate.



(* ================================================================= *)
(** ** Facts about [createBlob] *)

Module RegistryFacts.

Import Registry.

Section CreateBlob.

Variable json_loads : string -> option value.





End CreateBlob.



End RegistryFacts.

(* ================================================================= *)
(** ** Facts about [Blob.validate] *)

Module ValidationFacts.

Import Validation.

Section Validate.

Variables (schema product domains : Type).

(** C6. Whenever the schema is obtained and [iter_errors] returns, the
    messages of all the errors it found are collected.  When there are
    any, [validate] raises [BlobValidationError] with the complete list
    and never calls the policy check; the policy check is called only
    when there are none, and only then can its error be the outcome. *)
Theorem validate_schema_before_policy
    (w : world schema product domains) (self : dict) (p : product) (d : domains)
    (s : schema) (found : list ValidationError) :
  w unit (LogDebug self) = inl tt ->
  w schema (GetSchema self) = inl s ->
  w _ (IterErrors s self) = inl found ->
  (found <> [] ->
     snd (run w (validate self p d)) =
       inr (BlobValidationError "Invalid blob! See 'errors' for details."
                                (map message found)) /\
     existsb is_policy_check (fst (run w (validate self p d))) = false) /\
  (found = [] ->
     existsb is_policy_check (fst (run w (validate self p d))) = true /\
     snd (run w (validate self p d)) =
       match w bool (ContainsForbiddenDomain self p d) with
       | inl true => inr (ValueError "Blob contains forbidden domain(s)")
       | inl false => inl tt
       | inr what => inr (External what)
       end) /\
  (existsb is_policy_check (fst (run w (validate self p d))) = true ->
     found = []) /\
  (forall msg, snd (run w (validate self p d)) = inr (ValueError msg) ->
     found = []).
Proof.
  intros HL HS HI. unfold validate. simpl. rewrite HL, HS. simpl. rewrite HI.
  destruct found as [|e found]; simpl.
  - destruct (w bool (ContainsForbiddenDomain self p d)) as [[|]|what]; simpl;
      repeat split; auto; congruence.
  - repeat split; auto; try congruence; discriminate.
Qed.

End Validate.

Lemma validate_schema_before_policy_witness :
  snd (run two_violations (validate [] tt tt)) =
    inr (BlobValidationError "Invalid blob! See 'errors' for details."
           ["'name' is a required property"; "'x' is not of type 'object'"]) /\
  existsb is_policy_check (fst (run two_violations (validate [] tt tt))) = false.
Proof.
  apply (proj1 (validate_schema_before_policy unit unit unit two_violations
                  [] tt tt tt _ eq_refl eq_refl eq_refl)).
  discriminate.
Defined.

End ValidationFacts.

(* ================================================================= *)
(** ** What a merge writes *)

Import Heap.
Import Refine.

Lemma update_length (h : heap) (p : loc) (o : obj) :
  List.length (update h p o) = List.length h.
Proof.
  revert p. induction h as [|x h IH]; intros [|p]; simpl; auto.
Qed.

Lemma update_other (h : heap) (p q : loc) (o : obj) :
  q <> p -> nth_error (update h p o) q = nth_error h q.
Proof.
  revert p q. induction h as [|x h IH]; intros [|p] [|q] N; simpl; auto;
    congruence.
Qed.

Lemma framed_ret (A : Type) (base : nat) (a : A) (Q : A -> Prop) :
  Q a -> framed base (ret a) Q.
Proof.
  intros H h _. simpl. repeat split; auto. intros a' [= <-]. exact H.
Qed.

Lemma framed_raise (A : Type) (base : nat) (e : exn) (Q : A -> Prop) :
  framed base (raise e) Q.
Proof. intros h _. simpl. repeat split; auto. discriminate. Qed.

Lemma framed_out_of_fuel (A : Type) (base : nat) (Q : A -> Prop) :
  framed base out_of_fuel Q.
Proof. intros h _. simpl. repeat split; auto. discriminate. Qed.

Lemma framed_bind (A B : Type) (base : nat) (m : M A) (f : A -> M B)
    (Q : A -> Prop) (R : B -> Prop) :
  framed base m Q ->
  (forall a, Q a -> framed base (f a) R) ->
  framed base (mbind m f) R.
Proof.
  intros Hm Hf h Hb. destruct (Hm h Hb) as [L [F P]].
  unfold mbind. destruct (m h) as [h1 [a|e|]] eqn:E; simpl in *.
  - destruct (Hf a (P a eq_refl) h1) as [L' [F' P']]; [lia|].
    repeat split.
    + lia.
    + intros p Hp. rewrite F' by exact Hp. now apply F.
    + exact P'.
  - repeat split; auto. discriminate.
  - repeat split; auto. discriminate.
Qed.

Lemma framed_weaken (A : Type) (base : nat) (m : M A) (Q Q' : A -> Prop) :
  framed base m Q -> (forall a, Q a -> Q' a) -> framed base m Q'.
Proof.
  intros Hm HQ h Hb. destruct (Hm h Hb) as [L [F P]]. repeat split; auto.
Qed.

(** A fresh location lies beyond the protected part of the store. *)
Lemma framed_alloc (base : nat) (o : obj) :
  framed base (alloc o) (fun p => base <= p).
Proof.
  intros h Hb. unfold alloc. simpl. repeat split.
  - rewrite length_app. simpl. lia.
  - intros p Hp. apply nth_error_app1. lia.
  - intros a [= <-]. exact Hb.
Qed.

Lemma framed_get_heap (base : nat) : framed base get_heap any.
Proof. intros h _. simpl. repeat split; auto. Qed.

Lemma framed_dict_items (base : nat) (d : hval) : framed base (dict_items d) any.
Proof.
  intros h _. unfold dict_items.
  destruct d as [| | | | | |p]; simpl; repeat split; auto.
  all: destruct (nth_error h p) as [[|]|]; simpl; auto.
Qed.

Lemma framed_iterate (base : nat) (l : hval) : framed base (iterate l) any.
Proof.
  intros h _. unfold iterate.
  destruct l as [| | | | | |p]; simpl; repeat split; auto.
  all: destruct (nth_error h p) as [[|]|]; simpl; auto.
Qed.

(** Writes go to locations beyond the protected part only. *)
Lemma framed_append (base : nat) (result : loc) (i : hval) :
  base <= result -> framed base (append result i) any.
Proof.
  intros Hr h _. unfold append.
  destruct (nth_error h result) as [[items|items]|]; simpl; repeat split; auto.
  - now rewrite update_length.
  - intros p Hp. apply update_other. lia.
Qed.

Lemma framed_dict_setitem (base : nat) (result : loc) (key : string) (v : hval) :
  base <= result -> framed base (dict_setitem result key v) any.
Proof.
  intros Hr h _. unfold dict_setitem.
  destruct (nth_error h result) as [[items|items]|]; simpl; repeat split; auto.
  - now rewrite update_length.
  - intros p Hp. apply update_other. lia.
Qed.

Lemma framed_for_each (A : Type) (base : nat) (xs : list A) (body : A -> M unit) :
  (forall x, framed base (body x) any) ->
  framed base (for_each xs body) any.
Proof.
  intros Hb. induction xs as [|x xs IH]; simpl.
  - now apply framed_ret.
  - eapply framed_bind; [apply Hb|]. intros _ _. exact IH.
Qed.

Lemma framed_get_or_new (base : nat) (d : list (string * hval))
    (key : string) (empty : obj) :
  framed base (get_or_new d key empty) any.
Proof.
  unfold get_or_new. eapply framed_bind; [apply framed_alloc|].
  intros fresh _. now apply framed_ret.
Qed.

Lemma framed_hmerge_lists (base : nat) (lists : list hval) :
  framed base (hmerge_lists lists) any.
Proof.
  unfold hmerge_lists. eapply framed_bind; [apply framed_alloc|].
  intros result Hr. cbv beta.
  eapply framed_bind; [|intros _ _; now apply framed_ret].
  apply framed_for_each. intros l. unfold hextend.
  eapply framed_bind; [apply framed_iterate|]. intros items _.
  apply framed_for_each. intros i. unfold visit.
  eapply framed_bind; [apply framed_get_heap|]. intros h _.
  eapply framed_bind; [apply framed_iterate|]. intros so_far _.
  destruct (happends h so_far i); [now apply framed_append|now apply framed_ret].
Qed.

Section Frame.

Context {order : SetOrder}.

Lemma framed_hmerge_key (base : nat) (rec : hval -> hval -> hval -> M hval)
    (result : loc) (ancestor left right : hval) (key : string) :
  (forall a l r, framed base (rec a l r) any) ->
  base <= result ->
  framed base (hmerge_key rec result ancestor left right key) any.
Proof.
  intros Hrec Hr. unfold hmerge_key.
  eapply framed_bind; [apply framed_dict_items|]. intros a _.
  eapply framed_bind; [apply framed_dict_items|]. intros l _.
  eapply framed_bind; [apply framed_dict_items|]. intros r _.
  eapply framed_bind; [apply framed_get_heap|]. intros h _. cbv zeta.
  destruct (htype_mismatch h key [a; l; r]); [apply framed_raise|].
  destruct (existsb (fun d => hisinstance h (hget d key) TDict) [a; l; r]).
  - eapply framed_bind; [apply framed_get_or_new|]. intros a' _.
    eapply framed_bind; [apply framed_get_or_new|]. intros l' _.
    eapply framed_bind; [apply framed_get_or_new|]. intros r' _.
    eapply framed_bind; [apply Hrec|]. intros v _.
    now apply framed_dict_setitem.
  - destruct (existsb (fun d => hisinstance h (hget d key) TList) [a; l; r]).
    + eapply framed_bind; [apply framed_get_or_new|]. intros a' _.
      eapply framed_bind; [apply framed_get_or_new|]. intros l' _.
      eapply framed_bind; [apply framed_get_or_new|]. intros r' _.
      eapply framed_bind; [apply framed_hmerge_lists|]. intros v _.
      now apply framed_dict_setitem.
    + destruct (hmerge_scalar h a l r key).
      * now apply framed_dict_setitem.
      * apply framed_raise.
      * apply framed_out_of_fuel.
Qed.

(** The loop writes to [result] and to what it allocates, and returns
    [result]. *)
Lemma framed_hmerge_loop (base : nat) (rec : hval -> hval -> hval -> M hval)
    (result : loc) (ancestor left right : hval) :
  (forall a l r, framed base (rec a l r) any) ->
  base <= result ->
  framed base (hmerge_loop rec result ancestor left right)
         (fun v => v = HRef result).
Proof.
  intros Hrec Hr. unfold hmerge_loop.
  eapply framed_bind; [apply framed_dict_items|]. intros a _.
  eapply framed_bind; [apply framed_dict_items|]. intros l _.
  eapply framed_bind; [apply framed_dict_items|]. intros r _.
  eapply framed_bind; [|intros _ _; now apply framed_ret].
  apply framed_for_each. intros key.
  now apply framed_hmerge_key.
Qed.

Lemma framed_hmerge_dicts (base : nat) (fuel : nat) :
  forall ancestor left right,
  framed base (hmerge_dicts fuel ancestor left right) any.
Proof.
  induction fuel as [|n IH]; intros ancestor left right; simpl.
  - apply framed_out_of_fuel.
  - eapply framed_bind; [apply framed_alloc|]. intros result Hr. cbv beta.
    eapply framed_weaken; [now apply framed_hmerge_loop|]. intros. exact I.
Qed.

End Frame.

Lemma sequence_map_ext (A B : Type) (f g : A -> option B) (items : list A) :
  (forall i y, f i = Some y -> g i = Some y) ->
  forall xs, sequence (map f items) = Some xs ->
             sequence (map g items) = Some xs.
Proof.
  intros H. induction items as [|i items IH]; simpl; auto. intros xs.
  destruct (f i) as [y|] eqn:Ei; [|discriminate]. rewrite (H i y Ei).
  destruct (sequence (map f items)) as [ys|]; [|discriminate].
  now rewrite (IH ys eq_refl).
Qed.

(** A document read from the store reads the same from any store that
    kept the objects. *)
Lemma reify_extends (h h' : heap) :
  (forall p o, nth_error h p = Some o -> nth_error h' p = Some o) ->
  forall n v x, reify n h v = Some x -> reify n h' v = Some x.
Proof.
  intros E n. induction n as [|n IH]; intros v x; destruct v; simpl; auto.
  destruct (nth_error h p) as [o|] eqn:Ep; [|discriminate].
  rewrite (E p o Ep). destruct o as [items|items].
  - destruct (sequence (map (reify n h) items)) as [xs|] eqn:S; [|discriminate].
    now rewrite (sequence_map_ext _ _ _ _ items IH xs S).
  - destruct (sequence (map _ items)) as [xs|] eqn:S; [|discriminate].
    erewrite sequence_map_ext; [|  |exact S]; [tauto|].
    intros [k i] y. simpl.
    destruct (reify n h i) as [z|] eqn:Ei; [|discriminate].
    now rewrite (IH i z Ei).
Qed.

Section Untouched.

Context {order : SetOrder}.

(** C8. Whatever the fuel and however the call ends, every object of the
    store [merge_dicts] was called in is in the store it leaves, as it
    was: the three documents read the same afterwards, nested mappings
    and sequences included.  A returned document is a new dict, at a
    location the store did not have. *)
Theorem merge_leaves_inputs (fuel : nat) (ancestor left right : hval) (h : heap) :
  (forall p o, nth_error h p = Some o ->
     nth_error (fst (hmerge_dicts fuel ancestor left right h)) p = Some o) /\
  (forall n v x, reify n h v = Some x ->
     reify n (fst (hmerge_dicts fuel ancestor left right h)) v = Some x) /\
  (forall v, snd (hmerge_dicts fuel ancestor left right h) = Returned v ->
     v = HRef (List.length h) /\
     nth_error h (List.length h) = None /\
     List.length h < List.length (fst (hmerge_dicts fuel ancestor left right h))).
Proof.
  assert (K : forall p o, nth_error h p = Some o ->
     nth_error (fst (hmerge_dicts fuel ancestor left right h)) p = Some o).
  { intros p o Hp.
    destruct (framed_hmerge_dicts (List.length h) fuel ancestor left right h)
      as [_ [F _]]; [lia|].
    rewrite F; [exact Hp|]. apply nth_error_Some. congruence. }
  split; [exact K|]. split; [now apply reify_extends|].
  intros v. destruct fuel as [|n]; [discriminate|].
  change (hmerge_dicts (S n) ancestor left right h)
    with (hmerge_loop (hmerge_dicts n) (List.length h) ancestor left right
            (h ++ [ODict []])).
  intros R.
  destruct (framed_hmerge_loop (List.length h) (hmerge_dicts n) (List.length h)
              ancestor left right
              (fun a l r => framed_hmerge_dicts (List.length h) n a l r)
              (le_n _) (h ++ [ODict []])) as [L [_ Q]].
  { rewrite length_app. simpl. lia. }
  split; [now apply Q|]. split; [apply nth_error_None; lia|].
  rewrite length_app in L. simpl in L. lia.
Qed.

End Untouched.

Lemma merge_leaves_inputs_witness :
  nth_error
    (fst (@hmerge_dicts first_seen_order 3 (HRef 1) (HRef 3) (HRef 6)
                        example_store)) 1 =
  Some (ODict [("a", HInt 1); ("l", HRef 0)]).
Proof.
  apply (proj1 (@merge_leaves_inputs first_seen_order 3
                  (HRef 1) (HRef 3) (HRef 6) example_store)).
  reflexivity.
Defined.

Lemma merge_example_store :
  let run := @hmerge_dicts first_seen_order 3 (HRef 1) (HRef 3) (HRef 6)
                           example_store in
  snd run = Returned (HRef 7) /\
  firstn 7 (fst run) = example_store /\
  reify 3 (fst run) (HRef 7) =
  Some (VDict [("a", VInt 2); ("l", VList [VStr "x"; VStr "y"; VStr "z"]);
               ("n", VDict [("k", VNone)])]) /\
  @merge_dicts first_seen_order
     [("a", VInt 1); ("l", VList [VStr "x"])]
     [("a", VInt 2); ("l", VList [VStr "x"; VStr "y"])]
     [("a", VInt 1); ("l", VList [VStr "x"; VStr "z"]);
      ("n", VDict [("k", VNone)])] =
  Returned [("a", VInt 2); ("l", VList [VStr "x"; VStr "y"; VStr "z"]);
            ("n", VDict [("k", VNone)])].
Proof. repeat split; vm_compute; reflexivity. Qed.

(* ================================================================= *)
(** ** The store engine computes the documents of the value engine *)

(** *** Reading documents from a store *)

Lemma sequence_Forall2 (A B : Type) (f : A -> option B) (items : list A) :
  forall xs, sequence (map f items) = Some xs <->
             Forall2 (fun i x => f i = Some x) items xs.
Proof.
  induction items as [|i items IH]; intros xs; simpl.
  - split.
    + intros [= <-]. constructor.
    + intros H. inversion H. reflexivity.
  - destruct (f i) as [y|] eqn:Ei.
    + destruct (sequence (map f items)) as [ys|] eqn:Es; simpl.
      * split.
        -- intros [= <-]. constructor; [exact Ei|]. now apply IH.
        -- intros H. inversion H as [|? x ? xs' Hx Hxs]; subst.
           apply IH in Hxs. congruence.
      * split; [discriminate|].
        intros H. inversion H as [|? x ? xs' Hx Hxs]; subst.
        apply IH in Hxs. discriminate.
    + split; [discriminate|].
      intros H. inversion H; subst. congruence.
Qed.

(** Reading moves to a store that kept the admitted objects, to a wider
    admission and to more fuel. *)
Lemma reify_ok_transport (ok ok' : loc -> bool) (h h' : heap) :
  (forall p o, ok p = true -> nth_error h p = Some o ->
               ok' p = true /\ nth_error h' p = Some o) ->
  forall k v x, reify_ok ok k h v = Some x ->
  forall k', k <= k' -> reify_ok ok' k' h' v = Some x.
Proof.
  intros T k. induction k as [|k IH]; intros v x; destruct v; simpl;
    try discriminate;
    try (intros E k' _; destruct k'; exact E).
  intros E [|k'] Hk; [lia|]. simpl.
  destruct (ok p) eqn:Ok; [|discriminate].
  destruct (nth_error h p) as [o|] eqn:Ep; [|discriminate].
  destruct (T p o Ok Ep) as [-> ->]. destruct o as [items|items].
  - destruct (sequence (map (reify_ok ok k h) items)) as [xs|] eqn:Sq;
      [|discriminate].
    rewrite (sequence_map_ext _ _ (reify_ok ok k h) (reify_ok ok' k' h') items)
      with (xs := xs); [exact E| |exact Sq].
    intros i y Hi. apply (IH i y Hi). lia.
  - destruct (sequence (map _ items)) as [xs|] eqn:Sq; [|discriminate].
    erewrite sequence_map_ext; [| |exact Sq]; [exact E|].
    intros [key i] y. simpl.
    destruct (reify_ok ok k h i) as [z|] eqn:Ei; [|discriminate].
    rewrite (IH i z Ei k') by lia. tauto.
Qed.

Lemma reify_ok_sound (ok : loc -> bool) (k : nat) (h : heap) (v : hval) (x : value) :
  reify_ok ok k h v = Some x -> reify k h v = Some x.
Proof.
  revert v x. induction k as [|k IH]; intros v x; destruct v; simpl; auto.
  destruct (ok p); [|discriminate].
  destruct (nth_error h p) as [[items|items]|]; auto.
  - destruct (sequence (map (reify_ok ok k h) items)) as [xs|] eqn:Sq;
      [|discriminate].
    now rewrite (sequence_map_ext _ _ _ (reify k h) items IH xs Sq).
  - destruct (sequence (map _ items)) as [xs|] eqn:Sq; [|discriminate].
    erewrite sequence_map_ext; [| |exact Sq]; [tauto|].
    intros [key i] y. simpl.
    destruct (reify_ok ok k h i) as [z|] eqn:Ei; [|discriminate].
    now rewrite (IH i z Ei).
Qed.

Lemma reify_ok_all (k : nat) (h : heap) (v : hval) (x : value) :
  reify k h v = Some x -> reify_ok (fun _ => true) k h v = Some x.
Proof.
  revert v x. induction k as [|k IH]; intros v x; destruct v; simpl; auto.
  destruct (nth_error h p) as [[items|items]|]; auto.
  - destruct (sequence (map (reify k h) items)) as [xs|] eqn:Sq; [|discriminate].
    now rewrite (sequence_map_ext _ _ _ (reify_ok (fun _ => true) k h) items IH xs Sq).
  - destruct (sequence (map _ items)) as [xs|] eqn:Sq; [|discriminate].
    erewrite sequence_map_ext; [| |exact Sq]; [tauto|].
    intros [key i] y. simpl.
    destruct (reify k h i) as [z|] eqn:Ei; [|discriminate].
    now rewrite (IH i z Ei).
Qed.

Lemma ext_refl (h : heap) : ext h h.
Proof. intros p o H. exact H. Qed.

Lemma ext_trans (h1 h2 h3 : heap) : ext h1 h2 -> ext h2 h3 -> ext h1 h3.
Proof. intros H1 H2 p o H. apply H2, H1, H. Qed.

Lemma ext_length (h h' : heap) : ext h h' -> List.length h <= List.length h'.
Proof.
  intros E. destruct (Nat.le_gt_cases (List.length h) (List.length h')) as [L|L];
    [exact L|].
  destruct (nth_error h (List.length h')) as [o|] eqn:N.
  - apply E in N.
    assert (List.length h' < List.length h') by (apply nth_error_Some; congruence).
    lia.
  - apply nth_error_None in N. lia.
Qed.

Lemma ext_app (h : heap) (more : list obj) : ext h (h ++ more).
Proof.
  intros p o H. rewrite nth_error_app1; [exact H|].
  apply nth_error_Some. congruence.
Qed.

Lemma ext_update (h : heap) (p : loc) (o : obj) (base : heap) :
  ext base h -> List.length base <= p -> ext base (update h p o).
Proof.
  intros E L q o' H. rewrite update_other.
  - now apply E.
  - assert (q < List.length base) by (apply nth_error_Some; congruence). lia.
Qed.

Lemma rep_ext (ok : loc -> bool) (k k' : nat) (h h' : heap) (v : hval) (x : value) :
  ext h h' -> k <= k' -> rep ok k h v x -> rep ok k' h' v x.
Proof.
  intros E L R. unfold rep in *.
  apply (reify_ok_transport ok ok h h') with (k := k); auto.
Qed.

Lemma rep_items_ext (ok : loc -> bool) (k k' : nat) (h h' : heap)
    (items : list (string * hval)) (d : dict) :
  ext h h' -> k <= k' -> rep_items ok k h items d -> rep_items ok k' h' items d.
Proof.
  intros E L R. unfold rep_items in *.
  induction R as [|kv kx items d [H1 H2] R IH]; constructor; auto.
  split; [exact H1|]. now apply (rep_ext ok k k' h h').
Qed.

Lemma rep_list_ext (ok : loc -> bool) (k k' : nat) (h h' : heap)
    (items : list hval) (xs : list value) :
  ext h h' -> k <= k' ->
  Forall2 (rep ok k h) items xs -> Forall2 (rep ok k' h') items xs.
Proof.
  intros E L R. induction R; constructor; auto.
  now apply (rep_ext ok k k' h h').
Qed.

Lemma rep_items_sequence (ok : loc -> bool) (k : nat) (h : heap)
    (items : list (string * hval)) (d : dict) :
  sequence (map (fun kv => option_map (pair (fst kv)) (reify_ok ok k h (snd kv)))
                items) = Some d <->
  rep_items ok k h items d.
Proof.
  rewrite sequence_Forall2. unfold rep_items, rep.
  split; intros H; induction H as [|[key v] [key' x] items d H R IH];
    constructor; auto; simpl in *.
  - destruct (reify_ok ok k h v); simpl in H; [|discriminate].
    injection H as -> ->. auto.
  - destruct H as [-> ->]. reflexivity.
Qed.

Lemma rep_dict_inv (ok : loc -> bool) (k : nat) (h : heap) (v : hval) (d : dict) :
  rep ok k h v (VDict d) ->
  exists p n items,
    v = HRef p /\ k = S n /\ ok p = true /\
    nth_error h p = Some (ODict items) /\ rep_items ok n h items d.
Proof.
  unfold rep. destruct k as [|n]; destruct v as [| | | | | |p]; simpl;
    try (intros H; discriminate H).
  destruct (ok p) eqn:Ok; [|discriminate].
  destruct (nth_error h p) as [[items|items]|] eqn:E; try discriminate.
  - destruct (sequence _); discriminate.
  - destruct (sequence _) as [d'|] eqn:Sq; [|discriminate].
    intros [= <-]. exists p, n, items. repeat split; auto.
    now apply rep_items_sequence.
Qed.

Lemma rep_list_inv (ok : loc -> bool) (k : nat) (h : heap) (v : hval)
    (xs : list value) :
  rep ok k h v (VList xs) ->
  exists p n items,
    v = HRef p /\ k = S n /\ ok p = true /\
    nth_error h p = Some (OList items) /\ Forall2 (rep ok n h) items xs.
Proof.
  unfold rep. destruct k as [|n]; destruct v as [| | | | | |p]; simpl;
    try (intros H; discriminate H).
  destruct (ok p) eqn:Ok; [|discriminate].
  destruct (nth_error h p) as [[items|items]|] eqn:E; try discriminate.
  - destruct (sequence _) as [d'|] eqn:Sq; [|discriminate].
    intros [= <-]. exists p, n, items. repeat split; auto.
    now apply sequence_Forall2.
  - destruct (sequence _); discriminate.
Qed.

Lemma rep_dict_intro (ok : loc -> bool) (n : nat) (h : heap) (p : loc)
    (items : list (string * hval)) (d : dict) :
  ok p = true -> nth_error h p = Some (ODict items) ->
  rep_items ok n h items d -> rep ok (S n) h (HRef p) (VDict d).
Proof.
  intros Ok E R. unfold rep. simpl. rewrite Ok, E.
  apply rep_items_sequence in R. now rewrite R.
Qed.

Lemma rep_list_intro (ok : loc -> bool) (n : nat) (h : heap) (p : loc)
    (items : list hval) (xs : list value) :
  ok p = true -> nth_error h p = Some (OList items) ->
  Forall2 (rep ok n h) items xs -> rep ok (S n) h (HRef p) (VList xs).
Proof.
  intros Ok E R. unfold rep. simpl. rewrite Ok, E.
  apply sequence_Forall2 in R. now rewrite R.
Qed.

(** A value that stands for a scalar is that scalar. *)
Lemma rep_scalar (ok : loc -> bool) (k : nat) (h : heap) (v : hval) (x : value) :
  rep ok k h v x -> is_scalar x = true ->
  forall ok' k' h', rep ok' k' h' v x.
Proof.
  unfold rep. destruct k as [|n]; destruct v as [| | | | | |p]; simpl;
    try (intros H; discriminate H);
    try (intros [= <-] _ ok' k' h'; destruct k'; reflexivity).
  destruct (ok p); [|discriminate].
  destruct (nth_error h p) as [[items|items]|]; try discriminate;
    destruct (sequence _); try discriminate; intros [= <-]; discriminate.
Qed.

Lemma rep_type (ok : loc -> bool) (k : nat) (h : heap) (v : hval) (x : value) :
  rep ok k h v x -> htype h v = type x.
Proof.
  unfold rep. destruct k as [|n]; destruct v as [| | | | | |p]; simpl;
    try (intros H; discriminate H); try (intros [= <-]; reflexivity).
  destruct (ok p); [|discriminate].
  destruct (nth_error h p) as [[items|items]|]; try discriminate;
    destruct (sequence _); try discriminate; intros [= <-]; reflexivity.
Qed.

Lemma rep_heap_eq (ok : loc -> bool) (k : nat) (h : heap) (v w : hval)
    (x y : value) :
  rep ok k h v x -> rep ok k h w y -> k <= S (List.length h) ->
  heap_eq h v w = py_eq x y.
Proof.
  intros Rv Rw L. unfold heap_eq.
  assert (F : forall u z, rep ok k h u z ->
                          reify (S (List.length h)) h u = Some z).
  { intros u z R. apply (reify_ok_sound ok).
    apply (rep_ext ok k (S (List.length h)) h h); auto using ext_refl. }
  now rewrite (F v x Rv), (F w y Rw).
Qed.

Lemma rep_items_assoc (ok : loc -> bool) (k : nat) (h : heap)
    (items : list (string * hval)) (d : dict) (key : string) :
  rep_items ok k h items d ->
  match assoc key items, assoc key d with
  | Some v, Some x => rep ok k h v x
  | None, None => True
  | _, _ => False
  end.
Proof.
  intros R. induction R as [|[k1 v] [k2 x] items d [H1 H2] R IH]; simpl; auto.
  simpl in H1, H2. subst k2. destruct (String.eqb key k1); auto.
Qed.

Lemma rep_items_keys (ok : loc -> bool) (k : nat) (h : heap)
    (items : list (string * hval)) (d : dict) :
  rep_items ok k h items d -> keys items = keys d.
Proof.
  intros R. induction R as [|[k1 v] [k2 x] items d [H1 H2] R IH]; simpl; auto.
  simpl in H1. now rewrite H1, IH.
Qed.

Lemma rep_items_setitem (ok : loc -> bool) (k : nat) (h : heap)
    (items : list (string * hval)) (d : dict) (key : string)
    (v : hval) (x : value) :
  rep_items ok k h items d -> rep ok k h v x ->
  rep_items ok k h (hsetitem items key v) (setitem d key x).
Proof.
  intros R Rv. induction R as [|[k1 w] [k2 y] items d [H1 H2] R IH]; simpl.
  - constructor; [|constructor]. auto.
  - simpl in H1, H2. subst k2. destruct (String.eqb key k1).
    + constructor; [|exact R]. auto.
    + constructor; [|exact IH]. auto.
Qed.

(** *** Running a computation *)

Lemma run_bind (A B : Type) (m : M A) (f : A -> M B) (h h1 : heap) (a : A) :
  m h = (h1, Returned a) -> mbind m f h = f a h1.
Proof. intros E. unfold mbind. now rewrite E. Qed.

Lemma run_bind_raised (A B : Type) (m : M A) (f : A -> M B) (h h1 : heap)
    (e : exn) :
  m h = (h1, Raised e) -> mbind m f h = (h1, Raised e).
Proof. intros E. unfold mbind. now rewrite E. Qed.

Lemma update_same (h : heap) (p : loc) (o : obj) :
  p < List.length h -> nth_error (update h p o) p = Some o.
Proof.
  revert p. induction h as [|x h IH]; intros [|p] L; simpl in *; try lia; auto.
  apply IH. lia.
Qed.

Lemma nth_error_length (h : heap) (p : loc) (o : obj) :
  nth_error h p = Some o -> p < List.length h.
Proof. intros E. apply nth_error_Some. congruence. Qed.

(** *** [merge_lists] *)

Lemma happends_sim (ok : loc -> bool) (k : nat) (h : heap)
    (sf : list hval) (result : list value) (i : hval) (x : value) :
  Forall2 (rep ok k h) sf result -> rep ok k h i x ->
  k <= S (List.length h) ->
  happends h sf i = appends result x.
Proof.
  intros R Ri L. unfold happends, appends, py_in.
  assert (F : match find (fun y => heap_eq h y i) sf, first_equal x result with
              | Some y, Some vy => rep ok k h y vy
              | None, None => True
              | _, _ => False
              end).
  { induction R as [|y vy sf result Ry R IH]; simpl; [exact I|].
    rewrite (rep_heap_eq ok k h y i vy x) by assumption.
    destruct (py_eq vy x); [exact Ry|exact IH]. }
  assert (E : existsb (fun y => heap_eq h y i) sf =
              existsb (fun y => py_eq y x) result).
  { clear F. induction R as [|y vy sf result Ry R IH]; simpl; [reflexivity|].
    now rewrite (rep_heap_eq ok k h y i vy x), IH. }
  rewrite E. destruct (find _ sf) as [y|], (first_equal x result) as [vy|];
    try contradiction; [|reflexivity].
  unfold hisinstance, isinstance.
  now rewrite (rep_type ok k h i x Ri), (rep_type ok k h y vy F).
Qed.

Lemma visit_run (result : loc) (i : hval) (h : heap) (sf : list hval) :
  nth_error h result = Some (OList sf) ->
  visit result i h =
  if happends h sf i
  then (update h result (OList (sf ++ [i])), Returned tt)
  else (h, Returned tt).
Proof.
  intros N. unfold visit, mbind, get_heap, iterate, append, ret. rewrite N.
  destruct (happends h sf i); [now rewrite N|reflexivity].
Qed.

Lemma sim_inner (ok : loc -> bool) (k : nat) (hc : heap) (res : loc) :
  List.length hc <= res -> k <= S (List.length hc) ->
  forall items l, Forall2 (rep ok k hc) items l ->
  forall h sf result,
    ext hc h -> nth_error h res = Some (OList sf) ->
    Forall2 (rep ok k hc) sf result ->
    exists h' sf',
      for_each items (visit res) h = (h', Returned tt) /\
      ext hc h' /\ List.length h' = List.length h /\
      nth_error h' res = Some (OList sf') /\
      Forall2 (rep ok k hc) sf' (extend result l).
Proof.
  intros Lr Lk items l R.
  induction R as [|i x items l Ri R IH]; intros h sf result E N Rs.
  - exists h, sf. simpl. auto.
  - cbn [for_each].
    pose proof (ext_length hc h E) as Lh.
    assert (A : happends h sf i = appends result x).
    { apply (happends_sim ok k h); [| |lia].
      - apply (rep_list_ext ok k k hc h); auto.
      - apply (rep_ext ok k k hc h); auto. }
    rewrite extend_cons. unfold mbind at 1.
    rewrite (visit_run res i h sf N), A. destruct (appends result x).
    + destruct (IH (update h res (OList (sf ++ [i]))) (sf ++ [i]) (result ++ [x]))
        as [h' [sf' [H1 [H2 [H3 [H4 H5]]]]]].
      * now apply ext_update.
      * apply update_same. now apply nth_error_length in N.
      * apply Forall2_app; [exact Rs|]. constructor; [exact Ri|constructor].
      * exists h', sf'. rewrite update_length in H3. auto.
    + apply (IH h sf result); assumption.
Qed.

Lemma iterate_rep (ok : loc -> bool) (k : nat) (hc h : heap) (arg : hval)
    (x : value) :
  rep ok (S k) hc arg x -> ext hc h ->
  match x with
  | VList l =>
      exists items, iterate arg h = (h, Returned items) /\
                    Forall2 (rep ok k hc) items l
  | _ => iterate arg h = (h, Raised TypeError)
  end.
Proof.
  intros R E. unfold rep in R.
  destruct arg as [| | | | | |p]; simpl in R;
    try (injection R as <-; reflexivity).
  destruct (ok p) eqn:Ok; [|discriminate].
  destruct (nth_error hc p) as [[items|items]|] eqn:N; try discriminate.
  - destruct (sequence _) as [xs|] eqn:Sq; [|discriminate].
    injection R as <-. exists items. unfold iterate. rewrite (E p _ N).
    split; [reflexivity|]. now apply sequence_Forall2.
  - destruct (sequence _) as [xs|] eqn:Sq; [|discriminate].
    injection R as <-. unfold iterate. now rewrite (E p _ N).
Qed.

Lemma sim_outer (ok : loc -> bool) (k : nat) (hc : heap) (res : loc) :
  List.length hc <= res -> k <= S (List.length hc) ->
  forall args vals, Forall2 (rep ok (S k) hc) args vals ->
  forall h sf result,
    ext hc h -> nth_error h res = Some (OList sf) ->
    Forall2 (rep ok k hc) sf result ->
    exists h',
      ext hc h' /\ List.length h' = List.length h /\
      match extend_all result vals with
      | Some final =>
          for_each args (hextend res) h = (h', Returned tt) /\
          exists sf', nth_error h' res = Some (OList sf') /\
                      Forall2 (rep ok k hc) sf' final
      | None => for_each args (hextend res) h = (h', Raised TypeError)
      end.
Proof.
  intros Lr Lk args vals R.
  induction R as [|arg x args vals Ra R IH]; intros h sf result E N Rs.
  - exists h. simpl. repeat split; auto. exists sf. auto.
  - cbn [for_each]. pose proof (iterate_rep ok k hc h arg x Ra E) as It.
    assert (Stop : iterate arg h = (h, Raised TypeError) ->
              for_each (arg :: args) (hextend res) h = (h, Raised TypeError)).
    { intros Ei. cbn [for_each]. unfold mbind at 1. unfold hextend at 1.
      now rewrite (run_bind_raised _ _ _ _ h h TypeError Ei). }
    destruct x as [| | | | | | l | d];
      try (exists h; simpl; repeat split; auto; fail).
    destruct It as [items [Ei Ri]].
    destruct (sim_inner ok k hc res Lr Lk items l Ri h sf result E N Rs)
      as [h1 [sf1 [H1 [H2 [H3 [H4 H5]]]]]].
    destruct (IH h1 sf1 (extend result l) H2 H4 H5) as [h' [G1 [G2 G3]]].
    exists h'. split; [exact G1|]. split; [lia|].
    assert (Step : for_each (arg :: args) (hextend res) h =
                   for_each args (hextend res) h1).
    { cbn [for_each]. unfold mbind at 1. unfold hextend at 1.
      now rewrite (run_bind _ _ _ _ h h items Ei), H1. }
    cbn [for_each] in Step. cbn [extend_all]. now rewrite Step.
Qed.

(** [merge_lists] on the store builds the list [merge_lists] computes. *)
Lemma sim_merge_lists (ok : loc -> bool) (k : nat) (hc : heap)
    (a l r : hval) (xa xl xr : value) :
  ok (List.length hc) = true -> k <= S (List.length hc) ->
  rep ok (S k) hc a xa -> rep ok (S k) hc l xl -> rep ok (S k) hc r xr ->
  exists h',
    ext hc h' /\ List.length h' = S (List.length hc) /\
    match as_list xa, as_list xl, as_list xr with
    | Some pa, Some pl, Some pr =>
        hmerge_lists [a; l; r] hc = (h', Returned (HRef (List.length hc))) /\
        rep ok (S k) h' (HRef (List.length hc)) (VList (merge_lists [pa; pl; pr]))
    | _, _, _ => hmerge_lists [a; l; r] hc = (h', Raised TypeError)
    end.
Proof.
  intros Ok Lk Ra Rl Rr.
  assert (R : Forall2 (rep ok (S k) hc) [a; l; r] [xa; xl; xr]).
  { repeat constructor; assumption. }
  destruct (sim_outer ok k hc (List.length hc) (le_n _) Lk
              [a; l; r] [xa; xl; xr] R (hc ++ [OList []]) [] [])
    as [h' [E [L S3]]].
  - apply ext_app.
  - rewrite nth_error_app2, Nat.sub_diag by lia. reflexivity.
  - constructor.
  - exists h'. rewrite length_app in L. simpl in L.
    split; [exact E|]. split; [lia|].
    assert (Run : hmerge_lists [a; l; r] hc =
              match for_each [a; l; r] (hextend (List.length hc))
                             (hc ++ [OList []]) with
              | (h1, Returned _) => (h1, Returned (HRef (List.length hc)))
              | (h1, Raised e) => (h1, Raised e)
              | (h1, NoFuel) => (h1, NoFuel)
              end).
    { reflexivity. }
    rewrite Run. clear Run.
    assert (X : extend_all [] [xa; xl; xr] =
                match as_list xa, as_list xl, as_list xr with
                | Some pa, Some pl, Some pr => Some (merge_lists [pa; pl; pr])
                | _, _, _ => None
                end).
    { destruct xa, xl, xr; reflexivity. }
    rewrite X in S3.
    destruct (as_list xa) as [pa|]; [|now rewrite S3].
    destruct (as_list xl) as [pl|]; [|now rewrite S3].
    destruct (as_list xr) as [pr|]; [|now rewrite S3].
    destruct S3 as [S3 [sf' [N F]]]. rewrite S3. split; [reflexivity|].
    apply (rep_list_intro ok k h' (List.length hc) sf'); auto.
    apply (rep_list_ext ok k k hc); auto.
Qed.

(** *** [merge_dicts] *)

Lemma rep_None (ok : loc -> bool) (k : nat) (h : heap) : rep ok k h HNone VNone.
Proof. unfold rep. destruct k; reflexivity. Qed.

Lemma dict_items_rep (ok : loc -> bool) (k : nat) (hc h : heap) (a : hval)
    (x : value) :
  rep ok k hc a x -> ext hc h ->
  match x with
  | VDict d =>
      exists n items, k = S n /\ dict_items a h = (h, Returned items) /\
                      rep_items ok n hc items d
  | _ => dict_items a h = (h, Raised AttributeError)
  end.
Proof.
  intros R E. unfold rep in R.
  destruct k as [|n]; destruct a as [| | | | | |p]; simpl in R;
    try discriminate; try (injection R as <-; reflexivity).
  destruct (ok p) eqn:Ok; [|discriminate].
  destruct (nth_error hc p) as [[items|items]|] eqn:N; try discriminate.
  - destruct (sequence _) as [xs|] eqn:Sq; [|discriminate].
    injection R as <-. unfold dict_items. now rewrite (E p _ N).
  - destruct (sequence _) as [xs|] eqn:Sq; [|discriminate].
    injection R as <-. exists n, items. unfold dict_items. rewrite (E p _ N).
    repeat split. now apply rep_items_sequence.
Qed.

Lemma hget_rep (ok : loc -> bool) (k : nat) (h : heap)
    (items : list (string * hval)) (d : dict) (key : string) :
  rep_items ok k h items d ->
  rep ok k h (hget items key) (get d key) /\
  hcontains items key = contains d key.
Proof.
  intros R. pose proof (rep_items_assoc ok k h items d key R) as A.
  unfold hget, get, get_default, hcontains, contains.
  destruct (assoc key items), (assoc key d); try contradiction; auto.
  split; [apply rep_None|reflexivity].
Qed.

(** The argument [d.get(key, default)], with the default built at [fresh]. *)
Lemma arg_rep (ok : loc -> bool) (k : nat) (h : heap)
    (items : list (string * hval)) (d : dict) (key : string)
    (fresh : loc) (default : value) :
  rep_items ok k h items d ->
  rep ok k h (HRef fresh) default ->
  rep ok k h (match assoc key items with
              | Some v => v
              | None => HRef fresh
              end)
      (get_default d key default).
Proof.
  intros R F. pose proof (rep_items_assoc ok k h items d key R) as A.
  unfold get_default.
  destruct (assoc key items), (assoc key d); try contradiction; auto.
Qed.

Lemma sim_types (ok : loc -> bool) (k : nat) (h : heap)
    (a l r : list (string * hval)) (va vl vr : dict) (key : string) :
  rep_items ok k h a va -> rep_items ok k h l vl -> rep_items ok k h r vr ->
  htype_mismatch h key [a; l; r] = type_mismatch key [va; vl; vr] /\
  (forall t,
     existsb (fun d => hisinstance h (hget d key) t) [a; l; r] =
     existsb (fun d => isinstance (get d key) t) [va; vl; vr]).
Proof.
  intros Ra Rl Rr.
  destruct (hget_rep ok k h a va key Ra) as [Ga _].
  destruct (hget_rep ok k h l vl key Rl) as [Gl _].
  destruct (hget_rep ok k h r vr key Rr) as [Gr _].
  apply rep_type in Ga, Gl, Gr.
  split.
  - unfold htype_mismatch, type_mismatch, hkey_types, key_types. simpl.
    now rewrite Ga, Gl, Gr.
  - intros t. unfold hisinstance, isinstance. simpl. now rewrite Ga, Gl, Gr.
Qed.

Lemma sim_scalar (ok : loc -> bool) (k : nat) (h : heap)
    (a l r : list (string * hval)) (va vl vr : dict) (key : string) :
  rep_items ok k h a va -> rep_items ok k h l vl -> rep_items ok k h r vr ->
  k <= S (List.length h) ->
  match merge_scalar va vl vr key, hmerge_scalar h a l r key with
  | Returned x, Returned v => rep ok k h v x
  | Raised e, Raised e' => e = e'
  | _, _ => False
  end.
Proof.
  intros Ra Rl Rr L.
  destruct (hget_rep ok k h a va key Ra) as [Ga Ca].
  destruct (hget_rep ok k h l vl key Rl) as [Gl Cl].
  destruct (hget_rep ok k h r vr key Rr) as [Gr Cr].
  unfold merge_scalar, hmerge_scalar, heap_ne, py_ne, item.
  rewrite Ca, Cl, Cr.
  rewrite (rep_heap_eq ok k h _ _ _ _ Ga Gl L).
  rewrite (rep_heap_eq ok k h _ _ _ _ Ga Gr L).
  rewrite (rep_heap_eq ok k h _ _ _ _ Gl Gr L).
  destruct (contains va key), (contains vl key), (contains vr key);
    cbn [andb];
    repeat match goal with
           | |- context [if ?c then _ else _] => destruct c
           end; auto.
Qed.

Lemma rep_items_transport (ok ok' : loc -> bool) (h h' : heap) :
  (forall p o, ok p = true -> nth_error h p = Some o ->
               ok' p = true /\ nth_error h' p = Some o) ->
  forall k k' items d, k <= k' ->
  rep_items ok k h items d -> rep_items ok' k' h' items d.
Proof.
  intros T k k' items d L R. unfold rep_items in *.
  induction R as [|kv kx items d [H1 H2] R IH]; constructor; auto.
  split; [exact H1|].
  apply (reify_ok_transport ok ok' h h' T k _ _ H2 k' L).
Qed.

Lemma filling_setitem (ok1 : loc -> bool) (hc : heap) (res : loc)
    (h h2 : heap) (ritems : list (string * hval)) (rdict : dict)
    (key : string) (v : hval) (x : value) (K : nat) :
  (forall p, ok1 p = true -> p <> res) ->
  List.length hc <= res ->
  filling ok1 hc res h ritems rdict -> ext h h2 -> rep ok1 K h2 v x ->
  dict_setitem res key v h2 =
    (update h2 res (ODict (hsetitem ritems key v)), Returned tt) /\
  filling ok1 hc res (update h2 res (ODict (hsetitem ritems key v)))
          (hsetitem ritems key v) (setitem rdict key x).
Proof.
  intros Hok Lr [E [N [K0 R]]] E2 Rv.
  pose proof (E2 res _ N) as N2.
  split; [unfold dict_setitem; now rewrite N2|].
  assert (T : forall p o, ok1 p = true -> nth_error h2 p = Some o ->
              ok1 p = true /\
              nth_error (update h2 res (ODict (hsetitem ritems key v))) p = Some o).
  { intros p o Ok Np. split; [exact Ok|].
    rewrite update_other; [exact Np|]. now apply Hok. }
  split; [|split].
  - apply ext_update; [|exact Lr]. now apply (ext_trans hc h h2).
  - apply update_same. now apply nth_error_length in N2.
  - exists (Nat.max K0 K). apply rep_items_setitem.
    + apply (rep_items_transport ok1 ok1 h2 _ T K0); [lia|].
      apply (rep_items_ext ok1 K0 K0 h h2); auto.
    + apply (reify_ok_transport ok1 ok1 h2 _ T K _ _ Rv). lia.
Qed.

Lemma three_new (B : Type) (a l r : list (string * hval)) (key : string)
    (e : obj) (k : hval -> hval -> hval -> M B) (h : heap) :
  (a' <-- get_or_new a key e ;;
   l' <-- get_or_new l key e ;;
   r' <-- get_or_new r key e ;;
   k a' l' r') h =
  k (match assoc key a with Some v => v | None => HRef (List.length h) end)
    (match assoc key l with Some v => v | None => HRef (S (List.length h)) end)
    (match assoc key r with Some v => v | None => HRef (S (S (List.length h))) end)
    (h ++ [e; e; e]).
Proof.
  unfold get_or_new, mbind, alloc, ret. simpl.
  rewrite !length_app. simpl. rewrite <- !app_assoc. simpl.
  rewrite !Nat.add_1_r. reflexivity.
Qed.

Lemma three_fresh (h : heap) (e : obj) :
  nth_error (h ++ [e; e; e]) (List.length h) = Some e /\
  nth_error (h ++ [e; e; e]) (S (List.length h)) = Some e /\
  nth_error (h ++ [e; e; e]) (S (S (List.length h))) = Some e.
Proof.
  repeat split.
  - rewrite nth_error_app2 by lia. now rewrite Nat.sub_diag.
  - rewrite nth_error_app2 by lia.
    now replace (S (List.length h) - List.length h) with 1 by lia.
  - rewrite nth_error_app2 by lia.
    now replace (S (S (List.length h)) - List.length h) with 2 by lia.
Qed.

(** One turn of the loop of line 70, in both engines. *)
Lemma sim_key (rec : dict -> dict -> dict -> outcome dict)
    (hrec : hval -> hval -> hval -> M hval)
    (ok : loc -> bool) (k0 : nat) (hc : heap) (a l r : hval)
    (ia il ir : list (string * hval)) (va vl vr : dict) :
  simulates rec hrec ->
  (forall p, List.length hc <= p -> ok p = true) ->
  k0 <= List.length hc ->
  (forall h, ext hc h -> dict_items a h = (h, Returned ia)) ->
  (forall h, ext hc h -> dict_items l h = (h, Returned il)) ->
  (forall h, ext hc h -> dict_items r h = (h, Returned ir)) ->
  rep_items ok k0 hc ia va -> rep_items ok k0 hc il vl ->
  rep_items ok k0 hc ir vr ->
  forall key h ritems rdict,
    filling (fun p => ok p && negb (Nat.eqb p (List.length hc)))
            hc (List.length hc) h ritems rdict ->
    exists h',
      match merge_key rec va vl vr key with
      | Returned x =>
          hmerge_key hrec (List.length hc) a l r key h = (h', Returned tt) /\
          exists ritems',
            filling (fun p => ok p && negb (Nat.eqb p (List.length hc)))
                    hc (List.length hc) h' ritems' (setitem rdict key x)
      | Raised e =>
          hmerge_key hrec (List.length hc) a l r key h = (h', Raised e)
      | NoFuel => True
      end.
Proof.
  intros Sim Fresh Lk Da Dl Dr Ra Rl Rr key h ritems rdict F.
  set (res := List.length hc) in *.
  set (ok1 := fun p => ok p && negb (Nat.eqb p res)) in *.
  pose proof F as [E [N _]].
  assert (Lres : res < List.length h) by (apply (nth_error_length _ _ _ N)).
  assert (Ok1 : forall p, ok1 p = true -> p <> res).
  { unfold ok1. intros p H. apply andb_prop in H as [_ H].
    apply negb_true_iff in H. now apply Nat.eqb_neq in H. }
  assert (New : forall p, List.length h <= p -> ok1 p = true).
  { intros p L. unfold ok1. rewrite Fresh by (unfold res in *; lia).
    simpl. apply negb_true_iff, Nat.eqb_neq. lia. }
  assert (T : forall p o, ok p = true -> nth_error hc p = Some o ->
              ok1 p = true /\ nth_error h p = Some o).
  { intros p o Ok Np. split; [|apply E; exact Np]. unfold ok1. rewrite Ok.
    simpl. apply negb_true_iff, Nat.eqb_neq.
    apply nth_error_length in Np. unfold res. lia. }
  pose proof (rep_items_transport ok ok1 hc h T k0 k0 ia va (le_n _) Ra) as Ra1.
  pose proof (rep_items_transport ok ok1 hc h T k0 k0 il vl (le_n _) Rl) as Rl1.
  pose proof (rep_items_transport ok ok1 hc h T k0 k0 ir vr (le_n _) Rr) as Rr1.
  unfold hmerge_key.
  rewrite (run_bind _ _ _ _ h h ia (Da h E)).
  rewrite (run_bind _ _ _ _ h h il (Dl h E)).
  rewrite (run_bind _ _ _ _ h h ir (Dr h E)).
  rewrite (run_bind _ _ get_heap _ h h h eq_refl).
  cbv zeta.
  destruct (sim_types ok1 k0 h ia il ir va vl vr key Ra1 Rl1 Rr1) as [Tm Ti].
  rewrite Tm, (Ti TDict), (Ti TList). unfold merge_key. cbv zeta.
  destruct (type_mismatch key [va; vl; vr]); [exists h; reflexivity|].
  destruct (existsb (fun d => isinstance (get d key) TDict) [va; vl; vr]).
  { (* the dict branch *)
    rewrite three_new.
    set (h1 := h ++ [ODict []; ODict []; ODict []]).
    destruct (three_fresh h (ODict [])) as [F0 [F1 F2]]. fold h1 in F0, F1, F2.
    assert (E1 : ext h h1) by apply ext_app.
    assert (L1 : List.length h1 = 3 + List.length h).
    { unfold h1. rewrite length_app. simpl. lia. }
    assert (Dflt : forall p, List.length h <= p ->
                   nth_error h1 p = Some (ODict []) ->
                   rep ok1 (S k0) h1 (HRef p) (VDict [])).
    { intros p Lp Np. apply (rep_dict_intro ok1 k0 h1 p [] []); auto.
      constructor. }
    assert (Arg : forall items d p, rep_items ok1 k0 h items d ->
                  List.length h <= p -> nth_error h1 p = Some (ODict []) ->
                  rep ok1 (S k0) h1
                      (match assoc key items with
                       | Some v => v
                       | None => HRef p
                       end)
                      (get_default d key (VDict []))).
    { intros items d p R Lp Np. apply arg_rep; [|now apply Dflt].
      apply (rep_items_ext ok1 k0 (S k0) h h1); auto. }
    assert (New1 : forall p, List.length h1 <= p -> ok1 p = true).
    { intros p L. apply New. lia. }
    assert (Lk1 : S k0 <= S (List.length h1)) by (unfold res in *; lia).
    destruct (Sim ok1 (S k0) h1 _ _ _ _ _ _ New1 Lk1
                  (Arg ia va _ Ra1 (le_n _) F0)
                  (Arg il vl _ Rl1 (Nat.le_succ_diag_r _) F1)
                  (Arg ir vr _ Rr1 (Nat.le_trans _ _ _ (Nat.le_succ_diag_r _)
                                      (Nat.le_succ_diag_r _)) F2)) as [h2 H2].
    unfold on_dicts in H2.
    destruct (as_dict (get_default va key (VDict []))) as [da|];
      [|exists h2; now apply run_bind_raised].
    destruct (as_dict (get_default vl key (VDict []))) as [dl|];
      [|exists h2; now apply run_bind_raised].
    destruct (as_dict (get_default vr key (VDict []))) as [dr|];
      [|exists h2; now apply run_bind_raised].
    destruct (rec da dl dr) as [m|e|]; simpl.
    - destruct H2 as [E2 [Run [K Rm]]].
      destruct (filling_setitem ok1 hc res h h2 ritems rdict key
                  (HRef (List.length h1)) (VDict m) K Ok1 (le_n _) F
                  (ext_trans _ _ _ E1 E2) Rm) as [St Fill].
      eexists. split; [|eexists; exact Fill].
      rewrite (run_bind _ _ _ _ _ _ _ Run). exact St.
    - exists h2. now apply run_bind_raised.
    - exists h. exact I. }
  destruct (existsb (fun d => isinstance (get d key) TList) [va; vl; vr]).
  { (* the list branch *)
    rewrite three_new.
    set (h1 := h ++ [OList []; OList []; OList []]).
    destruct (three_fresh h (OList [])) as [F0 [F1 F2]]. fold h1 in F0, F1, F2.
    assert (E1 : ext h h1) by apply ext_app.
    assert (L1 : List.length h1 = 3 + List.length h).
    { unfold h1. rewrite length_app. simpl. lia. }
    assert (Dflt : forall p, List.length h <= p ->
                   nth_error h1 p = Some (OList []) ->
                   rep ok1 (S k0) h1 (HRef p) (VList [])).
    { intros p Lp Np. apply (rep_list_intro ok1 k0 h1 p [] []); auto. }
    assert (Arg : forall items d p, rep_items ok1 k0 h items d ->
                  List.length h <= p -> nth_error h1 p = Some (OList []) ->
                  rep ok1 (S k0) h1
                      (match assoc key items with
                       | Some v => v
                       | None => HRef p
                       end)
                      (get_default d key (VList []))).
    { intros items d p R Lp Np. apply arg_rep; [|now apply Dflt].
      apply (rep_items_ext ok1 k0 (S k0) h h1); auto. }
    assert (New1 : ok1 (List.length h1) = true) by (apply New; lia).
    assert (Lk1 : k0 <= S (List.length h1)) by (unfold res in *; lia).
    destruct (sim_merge_lists ok1 k0 h1 _ _ _ _ _ _ New1 Lk1
                  (Arg ia va _ Ra1 (le_n _) F0)
                  (Arg il vl _ Rl1 (Nat.le_succ_diag_r _) F1)
                  (Arg ir vr _ Rr1 (Nat.le_trans _ _ _ (Nat.le_succ_diag_r _)
                                      (Nat.le_succ_diag_r _)) F2))
      as [h2 [E2 [L2 H2]]].
    destruct (as_list (get_default va key (VList []))) as [pa|];
      [|exists h2; now apply run_bind_raised].
    destruct (as_list (get_default vl key (VList []))) as [pl|];
      [|exists h2; now apply run_bind_raised].
    destruct (as_list (get_default vr key (VList []))) as [pr|];
      [|exists h2; now apply run_bind_raised].
    destruct H2 as [Run Rm].
    destruct (filling_setitem ok1 hc res h h2 ritems rdict key
                (HRef (List.length h1)) _ (S k0) Ok1 (le_n _) F
                (ext_trans _ _ _ E1 E2) Rm) as [St Fill].
    eexists. split; [|eexists; exact Fill].
    rewrite (run_bind _ _ _ _ _ _ _ Run). exact St. }
  (* the scalar branch *)
  assert (Lk1 : k0 <= S (List.length h)) by (unfold res in *; lia).
  pose proof (sim_scalar ok1 k0 h ia il ir va vl vr key Ra1 Rl1 Rr1 Lk1) as Sc.
  destruct (merge_scalar va vl vr key) as [x|e|],
           (hmerge_scalar h ia il ir key) as [v|e'|]; try contradiction.
  - destruct (filling_setitem ok1 hc res h h ritems rdict key v x k0 Ok1
                (le_n _) F (ext_refl h) Sc) as [St Fill].
    eexists. split; [exact St|eexists; exact Fill].
  - subst e'. exists h. reflexivity.
Qed.

(** The loop of line 70, in both engines. *)
Lemma sim_loop (rec : dict -> dict -> dict -> outcome dict)
    (hrec : hval -> hval -> hval -> M hval)
    (ok : loc -> bool) (k0 : nat) (hc : heap) (a l r : hval)
    (ia il ir : list (string * hval)) (va vl vr : dict) :
  simulates rec hrec ->
  (forall p, List.length hc <= p -> ok p = true) ->
  k0 <= List.length hc ->
  (forall h, ext hc h -> dict_items a h = (h, Returned ia)) ->
  (forall h, ext hc h -> dict_items l h = (h, Returned il)) ->
  (forall h, ext hc h -> dict_items r h = (h, Returned ir)) ->
  rep_items ok k0 hc ia va -> rep_items ok k0 hc il vl ->
  rep_items ok k0 hc ir vr ->
  forall ks h ritems rdict,
    filling (fun p => ok p && negb (Nat.eqb p (List.length hc)))
            hc (List.length hc) h ritems rdict ->
    exists h',
      match for_keys (merge_key rec va vl vr) ks rdict with
      | Returned m =>
          for_each ks (hmerge_key hrec (List.length hc) a l r) h
            = (h', Returned tt) /\
          exists ritems',
            filling (fun p => ok p && negb (Nat.eqb p (List.length hc)))
                    hc (List.length hc) h' ritems' m
      | Raised e =>
          for_each ks (hmerge_key hrec (List.length hc) a l r) h
            = (h', Raised e)
      | NoFuel => True
      end.
Proof.
  intros Sim Fresh Lk Da Dl Dr Ra Rl Rr ks.
  induction ks as [|key ks IH]; intros h ritems rdict F; simpl.
  - exists h. split; [reflexivity|]. exists ritems. exact F.
  - destruct (sim_key rec hrec ok k0 hc a l r ia il ir va vl vr
                Sim Fresh Lk Da Dl Dr Ra Rl Rr key h ritems rdict F)
      as [h1 H1].
    destruct (merge_key rec va vl vr key) as [x|e|]; simpl.
    + destruct H1 as [Run [ritems1 F1]].
      destruct (IH h1 ritems1 (setitem rdict key x) F1) as [h2 H2].
      exists h2.
      destruct (for_keys (merge_key rec va vl vr) ks (setitem rdict key x));
        auto.
      * destruct H2 as [Run2 Fill]. split; [|exact Fill].
        rewrite (run_bind _ _ _ _ _ _ _ Run). exact Run2.
      * rewrite (run_bind _ _ _ _ _ _ _ Run). exact H2.
    + exists h1. now apply run_bind_raised.
    + exists h. exact I.
Qed.

Section Refinement.

Context {order : SetOrder}.

(** [merge_dicts] on something that is not a dict: [keys()] of line 70
    fails. *)
Lemma hmerge_dicts_rejects (n : nat) (ok : loc -> bool) (k : nat) (hc : heap)
    (a l r : hval) (xa xl xr : value) :
  rep ok k hc a xa -> rep ok k hc l xl -> rep ok k hc r xr ->
  as_dict xa = None \/ as_dict xl = None \/ as_dict xr = None ->
  exists h', hmerge_dicts (S n) a l r hc = (h', Raised AttributeError).
Proof.
  intros Ra Rl Rr Not.
  set (h0 := hc ++ [ODict []]).
  assert (E0 : ext hc h0) by apply ext_app.
  assert (Start : hmerge_dicts (S n) a l r hc =
                  hmerge_loop (hmerge_dicts n) (List.length hc) a l r h0)
    by reflexivity.
  exists h0. rewrite Start. unfold hmerge_loop.
  pose proof (dict_items_rep ok k hc h0 a xa Ra E0) as Ia.
  pose proof (dict_items_rep ok k hc h0 l xl Rl E0) as Il.
  pose proof (dict_items_rep ok k hc h0 r xr Rr E0) as Ir.
  destruct xa; try (now apply run_bind_raised).
  destruct Ia as [na [ia [_ [Ia _]]]]. rewrite (run_bind _ _ _ _ _ _ _ Ia).
  destruct xl; try (now apply run_bind_raised).
  destruct Il as [nl [il [_ [Il _]]]]. rewrite (run_bind _ _ _ _ _ _ _ Il).
  destruct xr; try (now apply run_bind_raised).
  simpl in Not. destruct Not as [N|[N|N]]; discriminate N.
Qed.

Lemma hmerge_dicts_simulates (n : nat) :
  simulates (merge_dicts_rec n) (hmerge_dicts (S n)).
Proof.
  induction n as [|n IH]; intros ok k hc a l r xa xl xr Fresh Lk Ra Rl Rr;
    unfold on_dicts.
  - destruct (as_dict xa) as [va|] eqn:Aa;
      [|apply (hmerge_dicts_rejects 0 ok k hc a l r xa xl xr); auto].
    destruct (as_dict xl) as [vl|] eqn:Al;
      [|apply (hmerge_dicts_rejects 0 ok k hc a l r xa xl xr); auto].
    destruct (as_dict xr) as [vr|] eqn:Ar;
      [|apply (hmerge_dicts_rejects 0 ok k hc a l r xa xl xr); auto].
    exists hc. exact I.
  - destruct (as_dict xa) as [va|] eqn:Aa;
      [|apply (hmerge_dicts_rejects (S n) ok k hc a l r xa xl xr); auto].
    destruct (as_dict xl) as [vl|] eqn:Al;
      [|apply (hmerge_dicts_rejects (S n) ok k hc a l r xa xl xr); auto].
    destruct (as_dict xr) as [vr|] eqn:Ar;
      [|apply (hmerge_dicts_rejects (S n) ok k hc a l r xa xl xr); auto].
    destruct xa; try discriminate Aa. injection Aa as ->.
    destruct xl; try discriminate Al. injection Al as ->.
    destruct xr; try discriminate Ar. injection Ar as ->.
    destruct (rep_dict_inv ok k hc a va Ra) as [pa [k0 [ia [-> [-> [Oa [Na Ia]]]]]]].
    destruct (rep_dict_inv ok _ hc l vl Rl) as [pl [kl [il [-> [Ekl [Ol [Nl Il]]]]]]].
    destruct (rep_dict_inv ok _ hc r vr Rr) as [pr [kr [ir [-> [Ekr [Or [Nr Ir]]]]]]].
    injection Ekl as <-. injection Ekr as <-.
    set (res := List.length hc).
    set (h0 := hc ++ [ODict []]).
    assert (E0 : ext hc h0) by apply ext_app.
    assert (Da : forall h, ext hc h ->
                 dict_items (HRef pa) h = (h, Returned ia)).
    { intros h E. unfold dict_items. now rewrite (E _ _ Na). }
    assert (Dl : forall h, ext hc h ->
                 dict_items (HRef pl) h = (h, Returned il)).
    { intros h E. unfold dict_items. now rewrite (E _ _ Nl). }
    assert (Dr : forall h, ext hc h ->
                 dict_items (HRef pr) h = (h, Returned ir)).
    { intros h E. unfold dict_items. now rewrite (E _ _ Nr). }
    assert (F0 : filling (fun p => ok p && negb (Nat.eqb p res)) hc res h0 [] []).
    { split; [exact E0|]. split.
      - unfold h0, res. rewrite nth_error_app2 by lia.
        now rewrite Nat.sub_diag.
      - exists 0. constructor. }
    destruct (sim_loop (merge_dicts_rec n) (hmerge_dicts (S n)) ok k0 hc
                (HRef pa) (HRef pl) (HRef pr) ia il ir va vl vr
                IH Fresh (le_S_n _ _ Lk) Da Dl Dr Ia Il Ir
                (set_iter (all_keys va vl vr)) h0 [] [] F0) as [h' H'].
    assert (Start : hmerge_dicts (S (S n)) (HRef pa) (HRef pl) (HRef pr) hc =
                    hmerge_loop (hmerge_dicts (S n)) res
                                (HRef pa) (HRef pl) (HRef pr) h0)
      by reflexivity.
    assert (Loop : hmerge_loop (hmerge_dicts (S n)) res
                               (HRef pa) (HRef pl) (HRef pr) h0 =
                   (_ <-- for_each (set_iter (all_keys va vl vr))
                                   (hmerge_key (hmerge_dicts (S n)) res
                                      (HRef pa) (HRef pl) (HRef pr)) ;;
                    ret (HRef res)) h0).
    { unfold hmerge_loop.
      rewrite (run_bind _ _ _ _ _ _ _ (Da h0 E0)).
      rewrite (run_bind _ _ _ _ _ _ _ (Dl h0 E0)).
      rewrite (run_bind _ _ _ _ _ _ _ (Dr h0 E0)).
      unfold all_keys.
      now rewrite (rep_items_keys _ _ _ _ _ Ia), (rep_items_keys _ _ _ _ _ Il),
                  (rep_items_keys _ _ _ _ _ Ir). }
    exists h'. rewrite Start, Loop.
    change (merge_dicts_rec (S n) va vl vr)
      with (for_keys (merge_key (merge_dicts_rec n) va vl vr)
                     (set_iter (all_keys va vl vr)) []).
    destruct (for_keys (merge_key (merge_dicts_rec n) va vl vr)
                       (set_iter (all_keys va vl vr)) []) as [m|e|]; auto.
    + destruct H' as [Run [ritems [E' [N' [K R']]]]].
      split; [exact E'|]. split.
      * now rewrite (run_bind _ _ _ _ _ _ _ Run).
      * exists (S K).
        apply (rep_dict_intro ok K h' res ritems m);
          [apply Fresh; unfold res; lia|exact N'|].
        apply (rep_items_transport
                 (fun p => ok p && negb (Nat.eqb p res)) ok h' h') with (k := K);
          [|lia|exact R'].
        intros p o Okp Np. split; [|exact Np].
        now apply andb_prop in Okp as [Okp _].
    + now apply run_bind_raised.
Qed.

(** X16. The two embeddings agree.  Called on three dicts of a store, in
    which they read as [va], [vl] and [vr], the store engine ends as
    [merge_dicts va vl vr] does: with the same exception, or with a new
    dict that reads as the document returned. *)
Theorem hmerge_dicts_refines (n : nat) (h : heap) (a l r : hval)
    (va vl vr : dict) :
  reify (S (List.length h)) h a = Some (VDict va) ->
  reify (S (List.length h)) h l = Some (VDict vl) ->
  reify (S (List.length h)) h r = Some (VDict vr) ->
  depth (VDict va) <= n -> depth (VDict vl) <= n -> depth (VDict vr) <= n ->
  match merge_dicts va vl vr with
  | Returned m =>
      exists h',
        hmerge_dicts (S n) a l r h = (h', Returned (HRef (List.length h))) /\
        exists K, reify K h' (HRef (List.length h)) = Some (VDict m)
  | Raised e => exists h', hmerge_dicts (S n) a l r h = (h', Raised e)
  | NoFuel => False
  end.
Proof.
  intros Ra Rl Rr Da Dl Dr.
  destruct (hmerge_dicts_simulates n (fun _ => true) (S (List.length h)) h
              a l r (VDict va) (VDict vl) (VDict vr)
              (fun _ _ => eq_refl) (le_n _)
              (reify_ok_all _ _ _ _ Ra) (reify_ok_all _ _ _ _ Rl)
              (reify_ok_all _ _ _ _ Rr)) as [h' H].
  unfold on_dicts in H. simpl in H.
  rewrite (merge_dicts_rec_enough n va vl vr Da Dl Dr) in H.
  pose proof (merge_dicts_total va vl vr) as Tot.
  destruct (merge_dicts va vl vr) as [m|e|].
  - destruct H as [_ [Run [K R]]]. exists h'. split; [exact Run|].
    exists K. now apply (reify_ok_sound (fun _ => true)).
  - exists h'. exact H.
  - now apply Tot.
Qed.

End Refinement.

(** The example of [merge_example_store], read through the theorem. *)
Lemma hmerge_dicts_refines_witness :
  exists h',
    @hmerge_dicts first_seen_order 3 (HRef 1) (HRef 3) (HRef 6) example_store
      = (h', Returned (HRef 7)) /\
    exists K,
      reify K h' (HRef 7) =
      Some (VDict [("a", VInt 2); ("l", VList [VStr "x"; VStr "y"; VStr "z"]);
                   ("n", VDict [("k", VNone)])]).
Proof.
  exact (@hmerge_dicts_refines first_seen_order 2 example_store
           (HRef 1) (HRef 3) (HRef 6)
           [("a", VInt 1); ("l", VList [VStr "x"])]
           [("a", VInt 2); ("l", VList [VStr "x"; VStr "y"])]
           [("a", VInt 1); ("l", VList [VStr "x"; VStr "z"]);
            ("n", VDict [("k", VNone)])]
           eq_refl eq_refl eq_refl
           ltac:(simpl; lia) ltac:(simpl; lia) ltac:(simpl; lia)).
Defined.

(* ================================================================= *)
(** ** Further properties of [merge_lists] *)

Lemma subseq_nil_l (A : Type) (l : list A) : subseq [] l.
Proof. induction l; constructor; auto. Qed.

Lemma subseq_refl (A : Type) (l : list A) : subseq l l.
Proof. induction l; [apply subseq_nil|now apply subseq_keep]. Qed.

Lemma subseq_app (A : Type) (s1 l1 s2 l2 : list A) :
  subseq s1 l1 -> subseq s2 l2 -> subseq (s1 ++ s2) (l1 ++ l2).
Proof.
  intros H1 H2. induction H1; simpl.
  - exact H2.
  - now apply subseq_skip.
  - now apply subseq_keep.
Qed.

Lemma subseq_In (A : Type) (s l : list A) (x : A) :
  subseq s l -> In x s -> In x l.
Proof.
  intros H. induction H; simpl; auto.
  intros [->|I]; auto.
Qed.

Lemma subseq_length (A : Type) (s l : list A) :
  subseq s l -> List.length s <= List.length l.
Proof. intros H. induction H; simpl; lia. Qed.

(** The inner loop only appends, and what it appends is taken from the
    list it walks, in the order of that list. *)
Lemma extend_suffix (l result : list value) :
  exists suffix, extend result l = result ++ suffix /\ subseq suffix l.
Proof.
  revert result. induction l as [|i l IH]; intros result.
  - exists []. split; [now rewrite app_nil_r|constructor].
  - rewrite extend_cons. destruct (appends result i).
    + destruct (IH (result ++ [i])) as [s [E S]]. exists (i :: s).
      split; [now rewrite E, <- app_assoc|now apply subseq_keep].
    + destruct (IH result) as [s [E S]]. exists s.
      split; [exact E|now apply subseq_skip].
Qed.

Lemma fold_extend_suffix (more : list (list value)) (result : list value) :
  exists suffix,
    fold_left extend more result = result ++ suffix /\
    subseq suffix (List.concat more).
Proof.
  revert result. induction more as [|l more IH]; intros result; simpl.
  - exists []. split; [now rewrite app_nil_r|constructor].
  - destruct (extend_suffix l result) as [s1 [E1 S1]].
    destruct (IH (extend result l)) as [s2 [E2 S2]].
    exists (s1 ++ s2). split.
    + now rewrite E2, E1, <- app_assoc.
    + now apply subseq_app.
Qed.

Lemma merge_lists_In (lists : list (list value)) (x : value) :
  In x (merge_lists lists) -> exists l, In l lists /\ In x l.
Proof.
  unfold merge_lists.
  destruct (fold_extend_suffix lists []) as [s [E S]]. simpl in E. rewrite E.
  intros I. apply (subseq_In _ _ _ _ S) in I.
  apply in_concat in I. destruct I as [l [Il Ix]]. now exists l.
Qed.

(** X1. Merging further lists only appends.  What the first lists gave is
    kept as a prefix, and what comes after is taken from the further
    lists: their elements, in their order, some left out.  With no first
    list, the whole result is such a selection from the arguments, so no
    element is invented, none is moved, and none occurs more often than
    in the arguments. *)
Theorem merge_lists_appends (lists more : list (list value)) :
  exists suffix,
    merge_lists (lists ++ more) = merge_lists lists ++ suffix /\
    subseq suffix (List.concat more) /\
    subseq (merge_lists (lists ++ more)) (List.concat (lists ++ more)) /\
    forall x, In x (merge_lists (lists ++ more)) ->
              exists l, In l (lists ++ more) /\ In x l.
Proof.
  unfold merge_lists. rewrite fold_left_app.
  destruct (fold_extend_suffix more (fold_left extend lists [])) as [s [E S]].
  exists s. split; [exact E|]. split; [exact S|].
  rewrite <- fold_left_app.
  destruct (fold_extend_suffix (lists ++ more) []) as [s' [E' S']].
  simpl in E'. rewrite E'. split; [exact S'|].
  intros x I. apply (subseq_In _ _ _ _ S') in I.
  apply in_concat in I. destruct I as [l [Il Ix]]. now exists l.
Qed.

Lemma first_equal_Some (i x : value) (result : list value) :
  first_equal i result = Some x -> In x result /\ py_eq x i = true.
Proof.
  induction result as [|y result IH]; simpl; [discriminate|].
  destruct (py_eq y i) eqn:E.
  - intros [= <-]. auto.
  - intros H. destruct (IH H). auto.
Qed.

Lemma first_equal_app (i x : value) (result more : list value) :
  first_equal i result = Some x -> first_equal i (result ++ more) = Some x.
Proof.
  induction result as [|y result IH]; simpl; [discriminate|].
  destruct (py_eq y i); auto.
Qed.

Lemma py_in_app (i : value) (l1 l2 : list value) :
  py_in i (l1 ++ l2) = py_in i l1 || py_in i l2.
Proof. unfold py_in. apply existsb_app. Qed.

(** An element appended although the result held an equal one is
    appended again.  The test of line 62 looks at the first equal
    element only, and that one stays where it is. *)
Lemma appends_again (result : list value) (x : value) :
  py_in x result = true -> appends result x = true ->
  py_in x (result ++ [x]) = true /\ appends (result ++ [x]) x = true.
Proof.
  intros I A. split; [rewrite py_in_app, I; reflexivity|].
  unfold appends in *. rewrite I in A. simpl in A.
  destruct (first_equal x result) as [y|] eqn:F.
  - rewrite (first_equal_app _ _ _ [x] F). rewrite A. apply orb_true_r.
  - apply first_equal_None in F. congruence.
Qed.

Lemma extend_repeats (result : list value) (x : value) (n : nat) :
  py_in x result = true -> appends result x = true ->
  extend result (repeat x n) = result ++ repeat x n.
Proof.
  revert result. induction n as [|n IH]; intros result I A; cbn [repeat].
  - unfold extend. simpl. now rewrite app_nil_r.
  - rewrite extend_cons, A.
    destruct (appends_again result x I A) as [I' A'].
    rewrite (IH _ I' A'), <- app_assoc. reflexivity.
Qed.

(** X3. The lists of [merge_lists] are not sets.  An element that line 62
    lets in beside an equal one (the integer 1 after the boolean true) is
    let in at every later visit too: a further list that holds it [n]
    times adds it [n] times. *)
Theorem merge_lists_repeats (lists : list (list value)) (x : value) (n : nat) :
  py_in x (merge_lists lists) = true ->
  appends (merge_lists lists) x = true ->
  merge_lists (lists ++ [repeat x n]) = merge_lists lists ++ repeat x n.
Proof.
  intros I A. unfold merge_lists in *. rewrite fold_left_app. simpl.
  now apply extend_repeats.
Qed.

Lemma merge_lists_repeats_witness :
  merge_lists ([[VBool true; VInt 1]] ++ [repeat (VInt 1) 2]) =
  merge_lists [[VBool true; VInt 1]] ++ repeat (VInt 1) 2.
Proof.
  apply (merge_lists_repeats [[VBool true; VInt 1]] (VInt 1) 2); reflexivity.
Defined.

(** Merging a list with itself can make it longer. *)
Lemma merge_lists_not_idempotent :
  merge_lists [[VBool true; VInt 1]] = [VBool true; VInt 1] /\
  merge_lists [[VBool true; VInt 1]; [VBool true; VInt 1]] =
  [VBool true; VInt 1; VInt 1].
Proof. split; reflexivity. Qed.

Lemma same_kind_spec (l : list value) :
  same_kind l = true <->
  forall x y, In x l -> In y l -> py_eq x y = true ->
              isinstance y (type x) = true.
Proof.
  unfold same_kind. rewrite forallb_forall. split.
  - intros H x y Ix Iy E. specialize (H x Ix). rewrite forallb_forall in H.
    specialize (H y Iy). now rewrite E in H.
  - intros H x Ix. rewrite forallb_forall. intros y Iy.
    destruct (py_eq x y) eqn:E; [|reflexivity]. simpl. now apply H.
Qed.

Lemma extend_distinct (base l result : list value) :
  (forall x y, In x base -> In y base -> py_eq x y = true ->
               isinstance y (type x) = true) ->
  (forall x, In x result -> In x base) -> (forall x, In x l -> In x base) ->
  distinct result = true ->
  distinct (extend result l) = true /\
  (forall x, In x (extend result l) -> In x base).
Proof.
  intros K. revert result. induction l as [|i l IH]; intros result Rb Lb D.
  - split; assumption.
  - rewrite extend_cons. destruct (appends result i) eqn:A.
    + apply IH.
      * intros x I. apply in_app_iff in I. destruct I as [I|[<-|[]]]; auto.
        apply Lb. now left.
      * intros x I. apply Lb. now right.
      * apply distinct_app. split; [exact D|]. split; [reflexivity|].
        intros x y Ix [<-|[]].
        apply appends_iff in A. destruct A as [A|[z [F N]]]; [now apply A|].
        apply first_equal_Some in F. destruct F as [Iz E].
        rewrite (K z i (Rb z Iz) (Lb i (or_introl eq_refl)) E) in N.
        discriminate N.
    + apply IH; auto. intros x I. apply Lb. now right.
Qed.

(** X4. Where equal elements are of one kind, the result is a set: no two of
    its elements are equal.  (Each element of the arguments is equal to
    one of them: [extend_present].) *)
Theorem merge_lists_distinct (lists : list (list value)) :
  same_kind (List.concat lists) = true ->
  distinct (merge_lists lists) = true.
Proof.
  intros K. rewrite same_kind_spec in K.
  assert (G : forall more result,
            (forall x, In x result -> In x (List.concat lists)) ->
            (forall l, In l more -> In l lists) ->
            distinct result = true ->
            distinct (fold_left extend more result) = true).
  { induction more as [|l more IH]; intros result Rb Mb D; simpl; [exact D|].
    destruct (extend_distinct (List.concat lists) l result K Rb) as [D' Rb']; auto.
    - intros x I. apply in_concat. exists l. split; [|exact I].
      apply Mb. now left.
    - apply IH; auto. intros l' I. apply Mb. now right. }
  unfold merge_lists. apply G; auto. intros x [].
Qed.

Lemma merge_lists_distinct_witness :
  distinct (merge_lists [[VStr "x"; VStr "x"]; [VStr "y"; VStr "x"]]) = true.
Proof.
  apply (merge_lists_distinct [[VStr "x"; VStr "x"]; [VStr "y"; VStr "x"]]).
  reflexivity.
Defined.

Lemma settled_snoc (result : list value) (i : value) :
  settled result -> appends result i = true -> settled (result ++ [i]).
Proof.
  intros St A pre x post E.
  destruct post as [|y post].
  - apply app_inj_tail in E. destruct E as [-> ->]. exact A.
  - apply (St pre x (removelast (y :: post))).
    assert (E' : removelast (result ++ [i]) =
                 removelast (pre ++ x :: y :: post)) by now rewrite E.
    rewrite removelast_last in E'. rewrite E'.
    rewrite removelast_app by discriminate.
    change (x :: y :: post) with ([x] ++ y :: post).
    rewrite removelast_app by discriminate. reflexivity.
Qed.

Lemma extend_settled (l result : list value) :
  settled result -> settled (extend result l).
Proof.
  revert result. induction l as [|i l IH]; intros result St; [exact St|].
  rewrite extend_cons. destruct (appends result i) eqn:A; apply IH; auto.
  now apply settled_snoc.
Qed.

Lemma merge_lists_settled (lists : list (list value)) :
  settled (merge_lists lists).
Proof.
  unfold merge_lists.
  assert (G : forall result, settled result ->
                             settled (fold_left extend lists result)).
  { induction lists as [|l lists IH]; intros result St; simpl; [exact St|].
    apply IH. now apply extend_settled. }
  apply G. intros pre x post E. now destruct pre.
Qed.

(** Walking a list the loop has built, after what came before each
    element, appends all of it. *)
Lemma extend_settled_self (rest pre : list value) :
  settled (pre ++ rest) -> extend pre rest = pre ++ rest.
Proof.
  revert pre. induction rest as [|x rest IH]; intros pre St.
  - unfold extend. simpl. now rewrite app_nil_r.
  - rewrite extend_cons, (St pre x rest eq_refl).
    rewrite IH; rewrite <- app_assoc; [reflexivity|exact St].
Qed.

(** X2. Merging in stages.  The result of a merge is a list [merge_lists]
    takes as it is, so lists can be merged a few at a time: merging the
    result of the first lists with the further lists gives what merging
    all of them at once gives. *)
Theorem merge_lists_staged (lists more : list (list value)) :
  merge_lists [merge_lists lists] = merge_lists lists /\
  merge_lists (merge_lists lists :: more) = merge_lists (lists ++ more).
Proof.
  assert (E : extend [] (merge_lists lists) = merge_lists lists).
  { apply (extend_settled_self (merge_lists lists) []).
    apply merge_lists_settled. }
  split.
  - unfold merge_lists at 1. simpl. exact E.
  - unfold merge_lists at 1 3. rewrite fold_left_app. simpl.
    now rewrite E.
Qed.

(* ================================================================= *)
(** ** Further properties of [merge_dicts] *)

Lemma assoc_map_keys (f : string -> value) (ks : list string) (k : string) :
  assoc k (map (fun key => (key, f key)) ks) =
  if existsb (String.eqb k) ks then Some (f k) else None.
Proof.
  induction ks as [|k' ks IH]; simpl; [reflexivity|].
  destruct (String.eqb_spec k k') as [->|N]; simpl; auto.
Qed.

Lemma existsb_eqb_In (k : string) (ks : list string) :
  existsb (String.eqb k) ks = true <-> In k ks.
Proof.
  rewrite existsb_exists. split.
  - intros [x [I E]]. apply String.eqb_eq in E. now subst.
  - intros I. exists k. split; [exact I|apply String.eqb_refl].
Qed.

Lemma get_contains (d : dict) (key : string) :
  type (get d key) <> TNone -> contains d key = true.
Proof.
  unfold get, get_default, contains.
  destruct (assoc key d); [reflexivity|]. intros H. now elim H.
Qed.

Lemma existsb_three (f : dict -> bool) (a l r : dict) :
  existsb f [a; l; r] = true -> exists d, In d [a; l; r] /\ f d = true.
Proof. intros H. apply existsb_exists in H. exact H. Qed.

(** A scalar the branch of lines 81-98 stores is the value one of the
    three dicts holds under the key. *)
Lemma merge_scalar_Returned (a l r : dict) (key : string) (v : value) :
  merge_scalar a l r key = Returned v ->
  exists d, In d [a; l; r] /\ assoc key d = Some v.
Proof.
  unfold merge_scalar.
  destruct (contains a key) eqn:Ca.
  - destruct (contains l key && contains r key &&
              py_ne (item a key) (item l key) &&
              py_ne (item a key) (item r key)); [discriminate|].
    destruct (contains l key && py_ne (item a key) (get l key)) eqn:El.
    + intros [= <-]. apply andb_prop in El. destruct El as [Cl _].
      exists l. split; [simpl; auto|now apply item_guarded].
    + destruct (contains r key && py_ne (item a key) (get r key)) eqn:Er.
      * intros [= <-]. apply andb_prop in Er. destruct Er as [Cr _].
        exists r. split; [simpl; auto|now apply item_guarded].
      * intros [= <-]. exists a. split; [simpl; auto|now apply item_guarded].
  - destruct (contains l key && contains r key &&
              py_ne (item l key) (item r key)); [discriminate|].
    destruct (contains l key) eqn:Cl.
    + intros [= <-]. exists l. split; [simpl; auto|now apply item_guarded].
    + destruct (contains r key) eqn:Cr; [|discriminate].
      intros [= <-]. exists r. split; [simpl; auto|now apply item_guarded].
Qed.

(** What one turn of the loop stores has the type one of the dicts holds
    under the key; a scalar is the very value of one of them. *)
Lemma merge_key_Returned (rec : dict -> dict -> dict -> outcome dict)
    (a l r : dict) (key : string) (v : value) :
  merge_key rec a l r key = Returned v ->
  (exists d, In d [a; l; r] /\ contains d key = true /\
             type (get d key) = type v) /\
  (is_scalar v = true -> exists d, In d [a; l; r] /\ assoc key d = Some v).
Proof.
  unfold merge_key. cbv zeta.
  destruct (type_mismatch key [a; l; r]); [discriminate|].
  destruct (existsb (fun d => isinstance (get d key) TDict) [a; l; r]) eqn:Ed.
  { destruct (as_dict (get_default a key (VDict []))) as [da|]; [|discriminate].
    destruct (as_dict (get_default l key (VDict []))) as [dl|]; [|discriminate].
    destruct (as_dict (get_default r key (VDict []))) as [dr|]; [|discriminate].
    destruct (rec da dl dr) as [m| |]; try discriminate. intros [= <-].
    split; [|discriminate].
    apply existsb_three in Ed. destruct Ed as [d [Id T]].
    apply isinstance_dict in T. destruct T as [e T].
    exists d. split; [exact Id|]. rewrite T. split; [|reflexivity].
    apply get_contains. now rewrite T. }
  destruct (existsb (fun d => isinstance (get d key) TList) [a; l; r]) eqn:El.
  { destruct (as_list (get_default a key (VList []))) as [pa|]; [|discriminate].
    destruct (as_list (get_default l key (VList []))) as [pl|]; [|discriminate].
    destruct (as_list (get_default r key (VList []))) as [pr|]; [|discriminate].
    intros [= <-]. split; [|discriminate].
    apply existsb_three in El. destruct El as [d [Id T]].
    apply isinstance_list in T. destruct T as [e T].
    exists d. split; [exact Id|]. rewrite T. split; [|reflexivity].
    apply get_contains. now rewrite T. }
  intros H. apply merge_scalar_Returned in H. destruct H as [d [Id A]].
  split; [|intros _; now exists d].
  exists d. split; [exact Id|].
  destruct (assoc_present d key v VNone A) as [G [_ [_ C]]].
  now rewrite G.
Qed.

Section Documents.

Context {order : SetOrder}.

(** A returned document, key by key. *)
Lemma merge_dicts_rec_shape (n : nat) (a l r m : dict) :
  merge_dicts_rec (S n) a l r = Returned m ->
  m = map (fun key => (key, value_of (merge_key (merge_dicts_rec n) a l r key)))
          (set_iter (all_keys a l r)) /\
  forall key, In key (all_keys a l r) ->
    exists v, merge_key (merge_dicts_rec n) a l r key = Returned v.
Proof.
  intros H. pose proof (merge_dicts_rec_body n a l r m H) as B.
  rewrite (merge_dicts_rec_Returned n a l r B) in H.
  injection H as <-. split; [reflexivity|exact B].
Qed.

Lemma merge_dicts_rec_keys (n : nat) (a l r m : dict) :
  merge_dicts_rec n a l r = Returned m ->
  keys m = set_iter (all_keys a l r).
Proof.
  destruct n as [|n]; [discriminate|].
  intros H. apply merge_dicts_rec_shape in H. destruct H as [-> _].
  unfold keys. rewrite map_map. simpl. apply map_id.
Qed.

Lemma merge_dicts_rec_assoc (n : nat) (a l r m : dict) (key : string) (v : value) :
  merge_dicts_rec (S n) a l r = Returned m ->
  assoc key m = Some v ->
  In key (all_keys a l r) /\
  merge_key (merge_dicts_rec n) a l r key = Returned v.
Proof.
  intros H A. apply merge_dicts_rec_shape in H. destruct H as [-> B].
  rewrite assoc_map_keys in A.
  destruct (existsb (String.eqb key) (set_iter (all_keys a l r))) eqn:E;
    [|discriminate].
  apply existsb_eqb_In in E. apply (proj1 (set_iter_In _ _)) in E.
  split; [exact E|].
  destruct (B key E) as [w W]. rewrite W in A. simpl in A. congruence.
Qed.

(** X5. The keys of a merge.  A returned document has every key of the
    ancestor, of the left and of the right document, each once, and no
    other key: no key is dropped, so a key one side deleted is back in
    the result. *)
Theorem merge_keeps_keys (a l r m : dict) :
  merge_dicts a l r = Returned m ->
  NoDup (keys m) /\
  forall key, In key (keys m) <->
              In key (keys a) \/ In key (keys l) \/ In key (keys r).
Proof.
  unfold merge_dicts. intros H. apply merge_dicts_rec_keys in H. rewrite H.
  split; [apply set_iter_NoDup|].
  intros key. rewrite set_iter_In. unfold all_keys. rewrite !in_app_iff.
  tauto.
Qed.

(** X6. The values of a merge.  Under each key a returned document holds a
    value of the type one of the three documents holds under that key;
    when it is not a mapping or a sequence, it is the very value of one
    of them.  The merge computes no scalar of its own. *)
Theorem merge_values_from_inputs (a l r m : dict) (key : string) (v : value) :
  merge_dicts a l r = Returned m ->
  assoc key m = Some v ->
  (exists d, In d [a; l; r] /\ contains d key = true /\
             type (get d key) = type v) /\
  (is_scalar v = true -> exists d, In d [a; l; r] /\ assoc key d = Some v).
Proof.
  unfold merge_dicts.
  destruct (Nat.max (depth (VDict a))
                    (Nat.max (depth (VDict l)) (depth (VDict r)))) as [|n];
    [discriminate|].
  intros H A. destruct (merge_dicts_rec_assoc n a l r m key v H A) as [_ K].
  now apply merge_key_Returned in K.
Qed.

(** X7. An explicit null beside a mapping or a sequence.  [d.get(key, {})]
    gives the [None] a document holds, not the default, and [None] has no
    [keys()] and cannot be iterated: the turn of the loop raises
    [AttributeError] or [TypeError], unless the type check raised first,
    and the merge fails. *)
Theorem null_beside_container
    (rec : dict -> dict -> dict -> outcome dict) (a l r d d' : dict)
    (key : string) :
  In d [a; l; r] -> In d' [a; l; r] ->
  assoc key d' = Some VNone ->
  (isinstance (get d key) TDict = true ->
     merge_key rec a l r key =
     Raised (if type_mismatch key [a; l; r] then TypeMismatch key
             else AttributeError)) /\
  (isinstance (get d key) TList = true ->
     merge_key rec a l r key =
     Raised (if type_mismatch key [a; l; r] then TypeMismatch key
             else TypeError)) /\
  (isinstance (get d key) TDict = true \/ isinstance (get d key) TList = true ->
     exists e, merge_dicts a l r = Raised e).
Proof.
  intros Id Id' N.
  assert (Gd : forall dflt, get_default d' key dflt = VNone).
  { intros dflt. unfold get_default. now rewrite N. }
  assert (D : isinstance (get d key) TDict = true ->
              forall rec', merge_key rec' a l r key =
              Raised (if type_mismatch key [a; l; r] then TypeMismatch key
                      else AttributeError)).
  { intros T rec'. unfold merge_key. cbv zeta.
    destruct (type_mismatch key [a; l; r]); [reflexivity|].
    assert (E : existsb (fun d => isinstance (get d key) TDict) [a; l; r] = true).
    { apply existsb_exists. now exists d. }
    rewrite E.
    simpl in Id'. destruct Id' as [<-|[<-|[<-|[]]]]; rewrite Gd; simpl.
    - reflexivity.
    - now destruct (as_dict (get_default a key (VDict []))).
    - destruct (as_dict (get_default a key (VDict []))); [|reflexivity].
      now destruct (as_dict (get_default l key (VDict []))). }
  assert (L : isinstance (get d key) TList = true ->
              forall rec', merge_key rec' a l r key =
              Raised (if type_mismatch key [a; l; r] then TypeMismatch key
                      else TypeError)).
  { intros T rec'. unfold merge_key. cbv zeta.
    destruct (type_mismatch key [a; l; r]) eqn:M; [reflexivity|].
    destruct (existsb (fun d => isinstance (get d key) TDict) [a; l; r]) eqn:E.
    { exfalso. apply existsb_three in E. destruct E as [d2 [I2 T2]].
      apply isinstance_dict in T2. destruct T2 as [e T2].
      apply isinstance_list in T. destruct T as [p T].
      apply type_mismatch_false in M. apply M.
      apply (conflicting_with_dict key [a; l; r] d d2 e Id I2 T2);
        rewrite T; discriminate. }
    assert (E' : existsb (fun d => isinstance (get d key) TList) [a; l; r] = true).
    { apply existsb_exists. now exists d. }
    rewrite E'.
    simpl in Id'. destruct Id' as [<-|[<-|[<-|[]]]]; rewrite Gd; simpl.
    - reflexivity.
    - now destruct (as_list (get_default a key (VList []))).
    - destruct (as_list (get_default a key (VList []))); [|reflexivity].
      now destruct (as_list (get_default l key (VList []))). }
  split; [intros T; now apply D|]. split; [intros T; now apply L|].
  intros T. apply (merge_dicts_fails a l r key).
  - apply all_keys_contains.
    assert (C : contains d' key = true) by (unfold contains; now rewrite N).
    simpl in Id'. destruct Id' as [<-|[<-|[<-|[]]]]; auto.
  - intros rec'. destruct T as [T|T]; eexists; [now apply D|now apply L].
Qed.

End Documents.

Lemma null_beside_container_witness :
  merge_key (@merge_dicts_rec first_seen_order 1)
            [("k", VDict [("x", VInt 1)])] [("k", VNone)] [] "k" =
  Raised AttributeError.
Proof.
  apply (proj1 (@null_beside_container first_seen_order
                  (@merge_dicts_rec first_seen_order 1)
                  [("k", VDict [("x", VInt 1)])] [("k", VNone)] []
                  [("k", VDict [("x", VInt 1)])] [("k", VNone)] "k"
                  (or_introl eq_refl) (or_intror (or_introl eq_refl))
                  eq_refl)).
  reflexivity.
Defined.

Lemma merge_keeps_keys_witness :
  NoDup (keys [("a", VInt 1); ("b", VInt 2)]) /\
  forall key, In key (keys [("a", VInt 1); ("b", VInt 2)]) <->
              In key (keys [("a", VInt 1); ("b", VInt 2)]) \/
              In key (keys [("a", VInt 1)]) \/
              In key (keys [("a", VInt 1); ("b", VInt 2)]).
Proof.
  apply (@merge_keeps_keys first_seen_order
           [("a", VInt 1); ("b", VInt 2)] [("a", VInt 1)]
           [("a", VInt 1); ("b", VInt 2)] [("a", VInt 1); ("b", VInt 2)]).
  reflexivity.
Defined.

Lemma merge_values_from_inputs_witness :
  exists d, In d [[("a", VInt 1)]; [("a", VInt 2)]; [("a", VInt 1)]] /\
            assoc "a" d = Some (VInt 2).
Proof.
  apply (proj2 (@merge_values_from_inputs first_seen_order
                  [("a", VInt 1)] [("a", VInt 2)] [("a", VInt 1)]
                  [("a", VInt 2)] "a" (VInt 2) eq_refl eq_refl)).
  reflexivity.
Defined.

(** *** The order of the set of keys *)

(** A second order of iteration: last seen first. *)
Definition last_seen_order : SetOrder :=
  {| set_iter := fun ks => rev (first_seen [] ks);
     set_iter_NoDup := fun ks => @NoDup_rev _ _ (first_seen_NoDup ks []);
     set_iter_In := fun ks k =>
       conj (fun H => proj1 (proj1 (first_seen_In ks [] k)
                                   (proj2 (in_rev _ _) H)))
            (fun H => proj1 (in_rev _ _)
                        (proj2 (first_seen_In ks [] k)
                               (conj H (fun F => F)))) |}.

Lemma wf_get_default_dict (d e : dict) (key : string) :
  wf (VDict d) -> as_dict (get_default d key (VDict [])) = Some e ->
  wf (VDict e).
Proof.
  intros W. unfold get_default. destruct (assoc key d) as [x|] eqn:A.
  - destruct x; try discriminate. intros [= <-]. exact (wf_assoc _ _ _ W A).
  - intros [= <-]. simpl. split; [constructor|exact I].
Qed.

Lemma wf_get_default_list (d : dict) (p : list value) (key : string) :
  wf (VDict d) -> as_list (get_default d key (VList [])) = Some p ->
  Forall wf p.
Proof.
  intros W. unfold get_default. destruct (assoc key d) as [x|] eqn:A.
  - destruct x; try discriminate. intros [= <-]. apply wf_list.
    exact (wf_assoc _ _ _ W A).
  - intros [= <-]. constructor.
Qed.

Lemma merge_lists_wf (lists : list (list value)) :
  Forall (Forall wf) lists -> Forall wf (merge_lists lists).
Proof.
  intros W. apply Forall_forall. intros x I.
  apply merge_lists_In in I. destruct I as [l [Il Ix]].
  rewrite Forall_forall in W. specialize (W l Il).
  rewrite Forall_forall in W. now apply W.
Qed.

(** One turn of the loop under two recursive calls that agree up to [==]. *)
Lemma merge_key_order (rec1 rec2 : dict -> dict -> dict -> outcome dict)
    (a l r : dict) (key : string) (x : value) :
  (forall a' l' r' m1,
     wf (VDict a') -> wf (VDict l') -> wf (VDict r') ->
     rec1 a' l' r' = Returned m1 ->
     exists m2, rec2 a' l' r' = Returned m2 /\
                py_eq (VDict m2) (VDict m1) = true) ->
  wf (VDict a) -> wf (VDict l) -> wf (VDict r) ->
  merge_key rec1 a l r key = Returned x ->
  exists v, merge_key rec2 a l r key = Returned v /\ py_eq v x = true.
Proof.
  intros Rec Wa Wl Wr. unfold merge_key. cbv zeta.
  destruct (type_mismatch key [a; l; r]); [discriminate|].
  destruct (existsb (fun d => isinstance (get d key) TDict) [a; l; r]).
  { destruct (as_dict (get_default a key (VDict []))) as [da|] eqn:Ea;
      [|discriminate].
    destruct (as_dict (get_default l key (VDict []))) as [dl|] eqn:El;
      [|discriminate].
    destruct (as_dict (get_default r key (VDict []))) as [dr|] eqn:Er;
      [|discriminate].
    destruct (rec1 da dl dr) as [m1| |] eqn:R1; try discriminate.
    intros [= <-].
    destruct (Rec da dl dr m1 (wf_get_default_dict _ _ _ Wa Ea)
                (wf_get_default_dict _ _ _ Wl El)
                (wf_get_default_dict _ _ _ Wr Er) R1) as [m2 [R2 E]].
    rewrite R2. simpl. now exists (VDict m2). }
  destruct (existsb (fun d => isinstance (get d key) TList) [a; l; r]).
  { destruct (as_list (get_default a key (VList []))) as [pa|] eqn:Ea;
      [|discriminate].
    destruct (as_list (get_default l key (VList []))) as [pl|] eqn:El;
      [|discriminate].
    destruct (as_list (get_default r key (VList []))) as [pr|] eqn:Er;
      [|discriminate].
    intros [= <-]. eexists. split; [reflexivity|].
    apply py_eq_refl. apply wf_list. apply merge_lists_wf.
    constructor; [exact (wf_get_default_list _ _ _ Wa Ea)|].
    constructor; [exact (wf_get_default_list _ _ _ Wl El)|].
    constructor; [exact (wf_get_default_list _ _ _ Wr Er)|constructor]. }
  intros H. exists x. split; [exact H|].
  apply merge_scalar_Returned in H. destruct H as [d [Id A]].
  apply py_eq_refl.
  simpl in Id.
  destruct Id as [<-|[<-|[<-|[]]]];
    [exact (wf_assoc _ _ _ Wa A)|exact (wf_assoc _ _ _ Wl A)
    |exact (wf_assoc _ _ _ Wr A)].
Qed.

Lemma merge_rec_order (o1 o2 : SetOrder) (n : nat) :
  forall a l r m1 : dict,
  wf (VDict a) -> wf (VDict l) -> wf (VDict r) ->
  @merge_dicts_rec o1 n a l r = Returned m1 ->
  exists m2, @merge_dicts_rec o2 n a l r = Returned m2 /\
             py_eq (VDict m2) (VDict m1) = true.
Proof.
  induction n as [|n IH]; intros a l r m1 Wa Wl Wr H; [discriminate|].
  apply (@merged_eq o2 n a l r m1).
  - rewrite (@merge_dicts_rec_keys o1 (S n) a l r m1 H). apply set_iter_NoDup.
  - intros k. rewrite (@merge_dicts_rec_keys o1 (S n) a l r m1 H).
    symmetry. apply set_iter_In.
  - intros k x A.
    destruct (@merge_dicts_rec_assoc o1 n a l r m1 k x H A) as [_ K].
    exact (merge_key_order _ _ a l r k x IH Wa Wl Wr K).
Qed.

(** X8. The order of the set of keys.  Line 70 walks a set, in an order
    Python does not fix.  On documents without repeated keys, whether the
    merge returns does not depend on that order, and the documents
    returned under two orders are equal ([==]); only the key a failing
    merge reports may differ. *)
Theorem merge_order_independent (o1 o2 : SetOrder) (a l r : dict) :
  wf (VDict a) -> wf (VDict l) -> wf (VDict r) ->
  (forall m1, @merge_dicts o1 a l r = Returned m1 ->
     exists m2, @merge_dicts o2 a l r = Returned m2 /\
                py_eq (VDict m2) (VDict m1) = true) /\
  (forall e, @merge_dicts o1 a l r = Raised e ->
     exists e', @merge_dicts o2 a l r = Raised e').
Proof.
  intros Wa Wl Wr. split.
  - intros m1. unfold merge_dicts. now apply merge_rec_order.
  - intros e H. destruct (@merge_dicts o2 a l r) as [m2|e'|] eqn:H2.
    + unfold merge_dicts in H2.
      destruct (merge_rec_order o2 o1 _ a l r m2 Wa Wl Wr H2) as [m1 [H1 _]].
      unfold merge_dicts in H. congruence.
    + now exists e'.
    + now elim (@merge_dicts_total o2 a l r).
Qed.

Lemma merge_order_independent_witness :
  exists m2,
    @merge_dicts last_seen_order
       [("a", VInt 1); ("b", VStr "x")] [("a", VInt 2); ("b", VStr "x")]
       [("a", VInt 1); ("c", VList [VInt 3])] = Returned m2 /\
    py_eq (VDict m2)
          (VDict [("a", VInt 2); ("b", VStr "x"); ("c", VList [VInt 3])]) = true.
Proof.
  apply (proj1 (merge_order_independent first_seen_order last_seen_order
                  [("a", VInt 1); ("b", VStr "x")]
                  [("a", VInt 2); ("b", VStr "x")]
                  [("a", VInt 1); ("c", VList [VInt 3])]
                  ltac:(simpl; split; [distinct_keys|tauto])
                  ltac:(simpl; split; [distinct_keys|tauto])
                  ltac:(simpl; split; [distinct_keys|tauto]))).
  reflexivity.
Defined.

(** Under the two orders the same merge reports different keys, and
    returns the same document with its keys in different orders. *)
Lemma merge_order_shows :
  @merge_dicts first_seen_order
     [("x", VInt 1); ("y", VInt 1)] [("x", VInt 2); ("y", VStr "s")]
     [("x", VInt 3)] = Raised (BothChanging "x") /\
  @merge_dicts last_seen_order
     [("x", VInt 1); ("y", VInt 1)] [("x", VInt 2); ("y", VStr "s")]
     [("x", VInt 3)] = Raised (TypeMismatch "y") /\
  @merge_dicts first_seen_order [("x", VInt 1)] [("y", VInt 2)] [] =
  Returned [("x", VInt 1); ("y", VInt 2)] /\
  @merge_dicts last_seen_order [("x", VInt 1)] [("y", VInt 2)] [] =
  Returned [("y", VInt 2); ("x", VInt 1)].
Proof. repeat split; reflexivity. Qed.

(** *** Left and right *)

Lemma py_eq_sym_scalar (x y : value) :
  is_scalar x = true -> is_scalar y = true -> py_eq x y = py_eq y x.
Proof.
  destruct x, y; simpl; intros; try reflexivity; try discriminate;
    try apply Z.eqb_sym; try apply String.eqb_sym.
Qed.

Lemma not_container_scalar (v : value) :
  isinstance v TDict = false -> isinstance v TList = false ->
  is_scalar v = true.
Proof. destruct v; simpl; auto. Qed.

Lemma conflicting_incl (key : string) (ds ds' : list dict) :
  (forall d, In d ds -> In d ds') ->
  conflicting key ds -> conflicting key ds'.
Proof.
  intros Inc.
  assert (C : forall t, In t (compared_types key ds) ->
                        In t (compared_types key ds')).
  { intros t I. apply compared_types_In in I. destruct I as [N [d [Id T]]].
    apply compared_types_In. split; [exact N|]. exists d. auto. }
  intros [[t [u [It [Iu N]]]] [v [Iv Nv]]]. split.
  - exists t, u. auto.
  - exists v. auto.
Qed.

Lemma type_mismatch_swap (key : string) (a l r : dict) :
  type_mismatch key [a; l; r] = type_mismatch key [a; r; l].
Proof.
  apply Bool.eq_iff_eq_true. rewrite !type_mismatch_iff.
  split; apply conflicting_incl; simpl; tauto.
Qed.

Lemma existsb_swap (f : dict -> bool) (a l r : dict) :
  existsb f [a; l; r] = existsb f [a; r; l].
Proof. simpl. destruct (f a), (f l), (f r); reflexivity. Qed.

Lemma existsb_three_false (f : dict -> bool) (a l r : dict) :
  existsb f [a; l; r] = false -> f a = false /\ f l = false /\ f r = false.
Proof. simpl. destruct (f a), (f l), (f r); auto; discriminate. Qed.

(** Lines 81-98 fail for the same documents when left and right change
    places. *)
Lemma merge_scalar_swap (a l r : dict) (key : string) :
  is_scalar (get l key) = true -> is_scalar (get r key) = true ->
  returned (merge_scalar a l r key) = returned (merge_scalar a r l key).
Proof.
  intros Sl Sr. unfold merge_scalar, item, py_ne.
  rewrite (py_eq_sym_scalar (get r key) (get l key) Sr Sl).
  destruct (contains a key), (contains l key), (contains r key),
           (py_eq (get a key) (get l key)), (py_eq (get a key) (get r key)),
           (py_eq (get l key) (get r key)); reflexivity.
Qed.

Lemma merge_key_swap (rec1 rec2 : dict -> dict -> dict -> outcome dict)
    (a l r : dict) (key : string) :
  (forall x y z, returned (rec1 x y z) = returned (rec2 x z y)) ->
  returned (merge_key rec1 a l r key) = returned (merge_key rec2 a r l key).
Proof.
  intros Rec. unfold merge_key. cbv zeta.
  rewrite <- (type_mismatch_swap key a l r).
  rewrite <- (existsb_swap (fun d => isinstance (get d key) TDict) a l r).
  rewrite <- (existsb_swap (fun d => isinstance (get d key) TList) a l r).
  destruct (type_mismatch key [a; l; r]); [reflexivity|].
  destruct (existsb (fun d => isinstance (get d key) TDict) [a; l; r]) eqn:Ed.
  { destruct (as_dict (get_default a key (VDict []))) as [da|];
      destruct (as_dict (get_default l key (VDict []))) as [dl|];
      destruct (as_dict (get_default r key (VDict []))) as [dr|];
      try reflexivity.
    specialize (Rec da dl dr).
    destruct (rec1 da dl dr), (rec2 da dr dl); simpl in *; congruence. }
  destruct (existsb (fun d => isinstance (get d key) TList) [a; l; r]) eqn:El.
  { destruct (as_list (get_default a key (VList [])));
      destruct (as_list (get_default l key (VList [])));
      destruct (as_list (get_default r key (VList []))); reflexivity. }
  apply existsb_three_false in Ed. destruct Ed as [_ [Dl Dr]].
  apply existsb_three_false in El. destruct El as [_ [Ll Lr]].
  apply merge_scalar_swap; now apply not_container_scalar.
Qed.

Section Sides.

Context {order : SetOrder}.

Lemma merge_dicts_rec_returned (n : nat) (a l r : dict) :
  returned (merge_dicts_rec (S n) a l r) = true <->
  forall key, In key (all_keys a l r) ->
    returned (merge_key (merge_dicts_rec n) a l r key) = true.
Proof.
  split.
  - intros H key I.
    destruct (merge_dicts_rec (S n) a l r) as [m| |] eqn:E; try discriminate.
    destruct (merge_dicts_rec_body n a l r m E key I) as [v V].
    now rewrite V.
  - intros H. rewrite merge_dicts_rec_Returned; [reflexivity|].
    intros key I. specialize (H key I).
    destruct (merge_key (merge_dicts_rec n) a l r key) as [v| |];
      try discriminate.
    now exists v.
Qed.

Lemma merge_dicts_rec_swap (n : nat) :
  forall a l r : dict,
  returned (merge_dicts_rec n a l r) = returned (merge_dicts_rec n a r l).
Proof.
  induction n as [|n IH]; intros a l r; [reflexivity|].
  apply Bool.eq_iff_eq_true. rewrite !merge_dicts_rec_returned.
  split; intros H key I.
  - rewrite <- (merge_key_swap _ _ a l r key IH). apply H.
    apply all_keys_contains. apply all_keys_contains in I. tauto.
  - rewrite (merge_key_swap _ _ a l r key IH). apply H.
    apply all_keys_contains. apply all_keys_contains in I. tauto.
Qed.

(** X9. Left and right.  Whether three documents merge does not depend on
    which of the two changed documents is passed as [left] and which as
    [right]: both calls return or both raise. *)
Theorem merge_sides_symmetric (a l r : dict) :
  returned (merge_dicts a l r) = returned (merge_dicts a r l).
Proof.
  unfold merge_dicts.
  rewrite (Nat.max_comm (depth (VDict r)) (depth (VDict l))).
  apply merge_dicts_rec_swap.
Qed.

End Sides.

(** The documents returned can differ: sequences are merged left first. *)
Lemma merge_sides_differ :
  @merge_dicts first_seen_order [] [("k", VList [VInt 1])]
                                   [("k", VList [VInt 2])] =
  Returned [("k", VList [VInt 1; VInt 2])] /\
  @merge_dicts first_seen_order [] [("k", VList [VInt 2])]
                                   [("k", VList [VInt 1])] =
  Returned [("k", VList [VInt 2; VInt 1])].
Proof. split; reflexivity. Qed.

(* ================================================================= *)
(** ** Further properties of [createBlob] *)

Module RegistryDispatch.

Import Registry.

Section CreateBlob.

Variable json_loads : string -> option value.





End CreateBlob.



End RegistryDispatch.

(* ================================================================= *)
(** ** Further properties of [Blob.validate] *)

Module ValidationOutcomes.

Import Validation.

Section Validate.

Variables (schema product domains : Type).

(** How [validate] ends, call by call. *)
Lemma run_validate
    (w : world schema product domains) (self : dict) (p : product) (d : domains) :
  snd (run w (validate self p d)) =
  match w unit (LogDebug self) with
  | inr what => inr (External what)
  | inl _ =>
      match w schema (GetSchema self) with
      | inr what => inr (External what)
      | inl s =>
          match w _ (IterErrors s self) with
          | inr what => inr (External what)
          | inl [] =>
              match w bool (ContainsForbiddenDomain self p d) with
              | inr what => inr (External what)
              | inl true => inr (ValueError "Blob contains forbidden domain(s)")
              | inl false => inl tt
              end
          | inl found =>
              inr (BlobValidationError "Invalid blob! See 'errors' for details."
                                       (map message found))
          end
      end
  end.
Proof.
  unfold validate. simpl.
  destruct (w unit (LogDebug self)) as [[]|what]; simpl; [|reflexivity].
  destruct (w schema (GetSchema self)) as [s|what]; simpl; [|reflexivity].
  destruct (w (list ValidationError) (IterErrors s self)) as [[|e found]|what];
    simpl; try reflexivity.
  destruct (w bool (ContainsForbiddenDomain self p d)) as [[|]|what];
    reflexivity.
Qed.

(** X13. [validate] returns for the blobs that pass both checks, and for no
    other: the logger and the schema lookup returned, the validator found
    no error, and the blob holds no forbidden domain. *)
Theorem validate_returns_iff
    (w : world schema product domains) (self : dict) (p : product) (d : domains) :
  snd (run w (validate self p d)) = inl tt <->
  exists s,
    w unit (LogDebug self) = inl tt /\
    w schema (GetSchema self) = inl s /\
    w _ (IterErrors s self) = inl [] /\
    w bool (ContainsForbiddenDomain self p d) = inl false.
Proof.
  rewrite run_validate. split.
  - destruct (w unit (LogDebug self)) as [[]|what]; [|discriminate].
    destruct (w schema (GetSchema self)) as [s|what]; [|discriminate].
    destruct (w (list ValidationError) (IterErrors s self))
      as [[|e found]|what] eqn:HI; try discriminate.
    destruct (w bool (ContainsForbiddenDomain self p d)) as [[|]|what];
      try discriminate.
    intros _. exists s. auto.
  - intros [s [HL [HS [HI HC]]]]. now rewrite HL, HS, HI, HC.
Qed.

(** X14. A class that inherits [containsForbiddenDomain] validates no blob:
    [validate] never returns, and where the schema check finds no error
    the [NotImplementedError] of line 192 comes out of it. *)
Theorem validate_inherited_policy
    (w : world schema product domains) (self : dict) (p : product) (d : domains) :
  inherits_policy schema product domains w ->
  snd (run w (validate self p d)) <> inl tt /\
  forall s,
    w unit (LogDebug self) = inl tt ->
    w schema (GetSchema self) = inl s ->
    w _ (IterErrors s self) = inl [] ->
    snd (run w (validate self p d)) = inr (External not_implemented).
Proof.
  intros B. rewrite run_validate, (B self p d). split.
  - destruct (w unit (LogDebug self)) as [[]|what]; [|discriminate].
    destruct (w schema (GetSchema self)) as [s|what]; [|discriminate].
    destruct (w (list ValidationError) (IterErrors s self))
      as [[|e found]|what]; discriminate.
  - intros s HL HS HI. now rewrite HL, HS, HI.
Qed.

End Validate.

Lemma validate_inherited_policy_witness :
  snd (run inherited (validate [] tt tt)) <> inl tt.
Proof.
  apply (proj1 (validate_inherited_policy unit unit unit inherited [] tt tt
                  (fun _ _ _ => eq_refl))).
Defined.

End ValidationOutcomes.

(* ================================================================= *)
(** ** Properties of [Blob.processSpecialForceHosts] *)

Module UrlFacts.

Import Urls.

Lemma list_ascii_app (s t : string) :
  list_ascii_of_string (s ++ t) =
  (list_ascii_of_string s ++ list_ascii_of_string t)%list.
Proof. induction s as [|c s IH]; simpl; [reflexivity|now rewrite IH]. Qed.

Lemma has_char_app (c : ascii) (s t : string) :
  has_char c (s ++ t) = has_char c s || has_char c t.
Proof. unfold has_char. rewrite list_ascii_app. apply existsb_app. Qed.

Lemma count_char_app (c : ascii) (s t : string) :
  count_char c (s ++ t) = count_char c s + count_char c t.
Proof.
  unfold count_char. now rewrite list_ascii_app, filter_app, length_app.
Qed.

Lemma has_char_count (c : ascii) (s : string) :
  has_char c s = negb (Nat.eqb (count_char c s) 0).
Proof.
  unfold has_char, count_char.
  induction (list_ascii_of_string s) as [|x l IH]; simpl; [reflexivity|].
  destruct (Ascii.eqb c x); simpl; auto.
Qed.

Lemma prefix_app (s t : string) : String.prefix s (s ++ t) = true.
Proof.
  induction s as [|c s IH]; simpl; [now destruct t|].
  destruct (ascii_dec c c) as [_|N]; [exact IH|now elim N].
Qed.

Lemma prefix_refl (s : string) : String.prefix s s = true.
Proof.
  induction s as [|c s IH]; simpl; [reflexivity|].
  destruct (ascii_dec c c) as [_|N]; [exact IH|now elim N].
Qed.

Section ProcessSpecialForceHosts.

Variable hosts : Type.
Variable isSpecialURL : string -> hosts -> bool.

(** X15. A URL that is not special comes back as it is.  A special one comes
    back with [force=] and the value appended as a query parameter: the
    URL is kept as a prefix, the result has a query string, and a [?] is
    added only where the URL had none, so a URL with a query string is
    not given a second one. *)
Theorem processSpecialForceHosts_appends
    (url : string) (specialForceHosts : hosts) (force : force_arg) :
  String.prefix url
    (processSpecialForceHosts hosts isSpecialURL url specialForceHosts force)
  = true /\
  (isSpecialURL url specialForceHosts = false ->
     processSpecialForceHosts hosts isSpecialURL url specialForceHosts force
     = url) /\
  (isSpecialURL url specialForceHosts = true ->
     (exists sep,
        (sep = "?"%char \/ sep = "&"%char) /\
        processSpecialForceHosts hosts isSpecialURL url specialForceHosts force
        = (url ++ String sep ("force=" ++ query_value force))%string) /\
     has_char "?"
       (processSpecialForceHosts hosts isSpecialURL url specialForceHosts force)
     = true /\
     count_char "?"
       (processSpecialForceHosts hosts isSpecialURL url specialForceHosts force)
     = Nat.max 1 (count_char "?" url) + count_char "?" (query_value force)).
Proof.
  unfold processSpecialForceHosts.
  destruct (isSpecialURL url specialForceHosts).
  2: { split; [apply prefix_refl|]. split; [reflexivity|discriminate]. }
  pose proof (has_char_count "?" url) as C.
  destruct (has_char "?" url) eqn:Q.
  - split; [apply prefix_app|]. split; [discriminate|]. intros _.
    split; [exists "&"%char; auto|].
    split; [now rewrite has_char_app, Q|].
    rewrite count_char_app, (count_char_app "?" "&force=").
    destruct (count_char "?" url) as [|n]; [discriminate C|].
    simpl. lia.
  - split; [apply prefix_app|]. split; [discriminate|]. intros _.
    split; [exists "?"%char; auto|].
    split; [rewrite has_char_app; apply orb_true_r|].
    rewrite count_char_app, (count_char_app "?" "?force=").
    destruct (count_char "?" url) as [|n]; [|discriminate C].
    simpl. lia.
Qed.

End ProcessSpecialForceHosts.

Lemma processSpecialForceHosts_appends_witness :
  processSpecialForceHosts unit (fun _ _ => false)
    "http://a.com/x?y=1" tt {| query_value := "1" |} = "http://a.com/x?y=1".
Proof.
  apply (proj1 (proj2 (processSpecialForceHosts_appends unit (fun _ _ => false)
                         "http://a.com/x?y=1" tt {| query_value := "1" |}))).
  reflexivity.
Defined.

Lemma processSpecialForceHosts_examples :
  processSpecialForceHosts unit (fun _ _ => true)
    "http://a.com/x?y=1" tt {| query_value := "1" |} =
  "http://a.com/x?y=1&force=1" /\
  processSpecialForceHosts unit (fun _ _ => true)
    "http://a.com/x" tt {| query_value := "1" |} = "http://a.com/x?force=1".
Proof. split; reflexivity. Qed.

End UrlFacts.

(* ================================================================= *)
(** ** What a result shares with the arguments *)

Import Sharing.

Lemma mbind_Returned (A B : Type) (m : M A) (f : A -> M B) (h h' : heap) (b : B) :
  mbind m f h = (h', Returned b) ->
  exists h1 a, m h = (h1, Returned a) /\ f a h1 = (h', Returned b).
Proof.
  unfold mbind. destruct (m h) as [h1 [a| |]]; try discriminate.
  intros H. now exists h1, a.
Qed.

Lemma update_last (h : heap) (o o' : obj) :
  update (h ++ [o]) (List.length h) o' = h ++ [o'].
Proof. induction h as [|x h IH]; simpl; [reflexivity|now rewrite IH]. Qed.

Lemma nth_error_last (h : heap) (o : obj) :
  nth_error (h ++ [o]) (List.length h) = Some o.
Proof. rewrite nth_error_app2 by lia. now rewrite Nat.sub_diag. Qed.

(** *** The list [merge_lists] returns *)

Lemma for_each_visit_last (h : heap) (items : list hval) :
  forall sf, exists sf',
    for_each items (visit (List.length h)) (h ++ [OList sf]) =
    (h ++ [OList sf'], Returned tt) /\
    forall x, In x sf' -> In x sf \/ In x items.
Proof.
  induction items as [|i items IH]; intros sf.
  - exists sf. split; [reflexivity|auto].
  - cbn [for_each]. unfold mbind at 1.
    rewrite (visit_run _ i _ sf (nth_error_last h (OList sf))).
    destruct (happends (h ++ [OList sf]) sf i).
    + rewrite update_last. destruct (IH (sf ++ [i])) as [sf' [E I]].
      exists sf'. split; [exact E|]. intros x Ix.
      destruct (I x Ix) as [J|J]; [|right; now right].
      apply in_app_iff in J. destruct J as [J|[<-|[]]]; [now left|].
      right. now left.
    + destruct (IH sf) as [sf' [E I]]. exists sf'. split; [exact E|].
      intros x Ix. destruct (I x Ix); [now left|right; now right].
Qed.

Lemma hextend_last (h : heap) (l : hval) (sf : list hval) (h' : heap) :
  hextend (List.length h) l (h ++ [OList sf]) = (h', Returned tt) ->
  exists sf', h' = h ++ [OList sf'] /\
              forall x, In x sf' -> In x sf \/ element_of h [l] x.
Proof.
  unfold hextend. intros H. apply mbind_Returned in H.
  destruct H as [h1 [items [It H]]].
  unfold iterate in It. destruct l as [| | | | | |q]; try discriminate.
  destruct (nth_error (h ++ [OList sf]) q) as [[its|its]|] eqn:N;
    try discriminate.
  injection It as <- <-.
  destruct (for_each_visit_last h its sf) as [sf' [E I]].
  rewrite E in H. injection H as <-. exists sf'. split; [reflexivity|].
  intros x Ix. destruct (I x Ix) as [J|J]; [now left|].
  destruct (Nat.lt_ge_cases q (List.length h)) as [Lq|Lq].
  - right. exists q, its. rewrite nth_error_app1 in N by exact Lq.
    split; [now left|]. now split.
  - left. assert (q = List.length h).
    { assert (q < List.length (h ++ [OList sf]))
        by (apply nth_error_Some; congruence).
      rewrite length_app in *. simpl in *. lia. }
    subst q. rewrite nth_error_last in N. now injection N as ->.
Qed.

Lemma element_of_incl (h : heap) (ls ls' : list hval) (x : hval) :
  (forall l, In l ls -> In l ls') -> element_of h ls x -> element_of h ls' x.
Proof. intros Inc [q [items [I [N Ix]]]]. exists q, items. auto. Qed.

Lemma for_each_hextend_last (h : heap) (lists : list hval) :
  forall sf h',
    for_each lists (hextend (List.length h)) (h ++ [OList sf]) =
    (h', Returned tt) ->
    exists sf', h' = h ++ [OList sf'] /\
                forall x, In x sf' -> In x sf \/ element_of h lists x.
Proof.
  induction lists as [|l lists IH]; intros sf h' H.
  - injection H as <-. exists sf. auto.
  - cbn [for_each] in H. apply mbind_Returned in H.
    destruct H as [h1 [[] [H1 H2]]].
    apply hextend_last in H1. destruct H1 as [sf1 [-> I1]].
    apply IH in H2. destruct H2 as [sf' [-> I2]].
    exists sf'. split; [reflexivity|]. intros x Ix.
    destruct (I2 x Ix) as [J|J].
    + destruct (I1 x J) as [K|K]; [now left|right].
      apply (element_of_incl h [l]); [|exact K].
      intros l' [<-|[]]. now left.
    + right. apply (element_of_incl h lists); [|exact J].
      intros l' I. now right.
Qed.

Lemma merge_lists_shares_base (lists : list hval) (h h' : heap) (v : hval) :
  hmerge_lists lists h = (h', Returned v) ->
  v = HRef (List.length h) /\ exists items, h' = h ++ [OList items].
Proof.
  unfold hmerge_lists. intros H.
  apply mbind_Returned in H. destruct H as [h0 [res [A H]]].
  unfold alloc in A. injection A as <- <-.
  apply mbind_Returned in H. destruct H as [h1 [[] [F R]]].
  injection R as <- <-. split; [reflexivity|].
  apply for_each_hextend_last in F. destruct F as [sf' [-> I]].
  now exists sf'.
Qed.

Lemma existsb_three_false_items (f : list (string * hval) -> bool)
    (a l r : list (string * hval)) :
  existsb f [a; l; r] = false -> f a = false /\ f l = false /\ f r = false.
Proof. simpl. destruct (f a), (f l), (f r); auto; discriminate. Qed.

(** X17. The list [merge_lists] returns is a new object, the only change
    to the store, and each of its elements is an element of one of the
    argument lists: the same value or the same reference.  An element
    that is a dict or a list is shared with the argument, not copied. *)
Theorem merge_lists_shares (lists : list hval) (h h' : heap) (v : hval) :
  hmerge_lists lists h = (h', Returned v) ->
  v = HRef (List.length h) /\
  exists items,
    h' = h ++ [OList items] /\
    forall x, In x items -> element_of h lists x.
Proof.
  unfold hmerge_lists. intros H.
  apply mbind_Returned in H. destruct H as [h0 [res [A H]]].
  unfold alloc in A. injection A as <- <-.
  apply mbind_Returned in H. destruct H as [h1 [[] [F R]]].
  injection R as <- <-. split; [reflexivity|].
  apply for_each_hextend_last in F. destruct F as [sf' [-> I]].
  exists sf'. split; [reflexivity|].
  intros x Ix. destruct (I x Ix) as [[]|J]. exact J.
Qed.

(** *** The dict [merge_dicts] returns *)

Lemma built_mono (base base' : loc) (h : heap) (v : hval) :
  base' <= base -> built base h v -> built base' h v.
Proof.
  intros L B. induction B as [v Sc|p items Lp N|p items Lp N _ IH].
  - now apply built_scalar.
  - apply (built_list base' h p items); [lia|exact N].
  - apply (built_dict base' h p items); [lia|exact N|exact IH].
Qed.

(** What was built stays built while the objects made since [base] stay
    as they are. *)
Lemma built_preserved (base : loc) (h h' : heap) (v : hval) :
  (forall p o, base <= p -> nth_error h p = Some o -> nth_error h' p = Some o) ->
  built base h v -> built base h' v.
Proof.
  intros K B. induction B as [v Sc|p items Lp N|p items Lp N _ IH].
  - now apply built_scalar.
  - apply (built_list base h' p items); [exact Lp|now apply K].
  - apply (built_dict base h' p items); [exact Lp|now apply K|exact IH].
Qed.

Lemma hsetitem_In (d : list (string * hval)) (key k : string) (v x : hval) :
  In (k, x) (hsetitem d key v) -> x = v \/ In (k, x) d.
Proof.
  induction d as [|[k' y] d IH]; simpl.
  - intros [[= _ <-]|[]]. now left.
  - destruct (String.eqb key k').
    + intros [[= _ <-]|I]; [now left|right; now right].
    + intros [E|I]; [right; now left|].
      destruct (IH I); [now left|right; now right].
Qed.

Lemma dict_items_Returned (d : hval) (h h1 : heap) (items : list (string * hval)) :
  dict_items d h = (h1, Returned items) -> h1 = h.
Proof.
  unfold dict_items. destruct d as [| | | | | |p]; try discriminate.
  destruct (nth_error h p) as [[its|its]|]; try discriminate.
  now intros [= <- _].
Qed.

Lemma not_container_not_ref (h : heap) (v : hval) :
  hisinstance h v TDict = false -> hisinstance h v TList = false ->
  is_ref v = false.
Proof.
  destruct v as [| | | | | |p]; try reflexivity.
  unfold hisinstance, htype.
  destruct (nth_error h p) as [[its|its]|]; simpl; discriminate.
Qed.

(** A value lines 81-98 store is the value one of the dicts holds. *)
Lemma hmerge_scalar_Returned (h : heap) (a l r : list (string * hval))
    (key : string) (v : hval) :
  hmerge_scalar h a l r key = Returned v ->
  v = hget a key \/ v = hget l key \/ v = hget r key.
Proof.
  unfold hmerge_scalar.
  repeat match goal with
         | |- context [if ?c then _ else _] => destruct c
         end; intros H; try discriminate; injection H as <-; auto.
Qed.

Lemma dict_setitem_Returned (res : loc) (key : string) (v : hval)
    (h h' : heap) (ritems : list (string * hval)) :
  nth_error h res = Some (ODict ritems) ->
  dict_setitem res key v h = (h', Returned tt) ->
  h' = update h res (ODict (hsetitem ritems key v)).
Proof. unfold dict_setitem. intros ->. now intros [= <-]. Qed.

(** Storing a built value keeps the dict filled. *)
Lemma filled_setitem (res : loc) (h h2 h' : heap) (key : string) (v : hval) :
  filled res h ->
  (forall p o, nth_error h p = Some o -> nth_error h2 p = Some o) ->
  built (S res) h2 v ->
  dict_setitem res key v h2 = (h', Returned tt) ->
  filled res h'.
Proof.
  intros [ritems [N B]] E Bv St.
  pose proof (E _ _ N) as N2.
  rewrite (dict_setitem_Returned res key v h2 h' ritems N2 St).
  assert (K : forall p o, S res <= p -> nth_error h2 p = Some o ->
              nth_error (update h2 res (ODict (hsetitem ritems key v))) p
              = Some o).
  { intros p o Lp Np. rewrite update_other; [exact Np|lia]. }
  exists (hsetitem ritems key v). split.
  - apply update_same. now apply nth_error_length in N2.
  - intros k x I. apply hsetitem_In in I. destruct I as [->|I].
    + exact (built_preserved _ _ _ _ K Bv).
    + apply (built_preserved _ h2 _ _ K).
      apply (built_preserved _ h _ _ (fun p o _ Hp => E p o Hp)).
      exact (B k x I).
Qed.

Lemma framed_ext (A : Type) (m : M A) (h h' : heap) (out : outcome A) :
  framed (List.length h) m any -> m h = (h', out) ->
  forall p o, nth_error h p = Some o -> nth_error h' p = Some o.
Proof.
  intros F E p o N. destruct (F h (le_n _)) as [_ [K _]].
  rewrite E in K. simpl in K. rewrite K; [exact N|].
  now apply nth_error_length in N.
Qed.

(** One turn of the loop keeps the dict filled. *)
Lemma filled_key (rec : hval -> hval -> hval -> M hval)
    (res : loc) (a l r : hval) (key : string) (h h' : heap) :
  (forall base a' l' r', framed base (rec a' l' r') any) ->
  (forall a' l' r' h1 h2 v,
     rec a' l' r' h1 = (h2, Returned v) -> built (List.length h1) h2 v) ->
  filled res h ->
  hmerge_key rec res a l r key h = (h', Returned tt) ->
  filled res h'.
Proof.
  intros Frame Rec F H. unfold hmerge_key in H.
  apply mbind_Returned in H. destruct H as [h1 [ia [Da H]]].
  apply dict_items_Returned in Da. subst h1.
  apply mbind_Returned in H. destruct H as [h1 [il [Dl H]]].
  apply dict_items_Returned in Dl. subst h1.
  apply mbind_Returned in H. destruct H as [h1 [ir [Dr H]]].
  apply dict_items_Returned in Dr. subst h1.
  apply mbind_Returned in H. destruct H as [h1 [h0 [G H]]].
  unfold get_heap in G. injection G as <- <-. cbv zeta in H.
  assert (Lres : res < List.length h).
  { destruct F as [ritems [N _]]. now apply nth_error_length in N. }
  destruct (htype_mismatch h key [ia; il; ir]); [discriminate|].
  destruct (existsb (fun d => hisinstance h (hget d key) TDict) [ia; il; ir])
    eqn:Ed.
  { rewrite three_new in H.
    apply mbind_Returned in H. destruct H as [h2 [v [R St]]].
    pose proof (Rec _ _ _ _ _ _ R) as B.
    apply (filled_setitem res h h2 h' key v F); [| |exact St].
    - intros p o N.
      apply (framed_ext _ _ _ _ _ (Frame _ _ _ _) R).
      apply (ext_app h). exact N.
    - apply (built_mono (List.length (h ++ [ODict []; ODict []; ODict []])));
        [|exact B].
      rewrite length_app. simpl. lia. }
  destruct (existsb (fun d => hisinstance h (hget d key) TList) [ia; il; ir])
    eqn:El.
  { rewrite three_new in H.
    apply mbind_Returned in H. destruct H as [h2 [v [R St]]].
    pose proof (merge_lists_shares_base _ _ _ _ R) as [Ev [items Eh]].
    apply (filled_setitem res h h2 h' key v F); [| |exact St].
    - intros p o N. rewrite Eh. apply ext_app. apply ext_app. exact N.
    - rewrite Ev, Eh. apply (built_list _ _ _ items); [|apply nth_error_last].
      rewrite length_app. simpl. lia. }
  destruct (hmerge_scalar h ia il ir key) as [v| |] eqn:Sc; try discriminate.
  apply (filled_setitem res h h h' key v F); [auto| |exact H].
  apply built_scalar.
  apply existsb_three_false_items in Ed. destruct Ed as [Da [Dl Dr]].
  apply existsb_three_false_items in El. destruct El as [La [Ll Lr]].
  apply hmerge_scalar_Returned in Sc.
  destruct Sc as [->|[->| ->]]; eapply not_container_not_ref; eassumption.
Qed.

Lemma filled_loop (rec : hval -> hval -> hval -> M hval)
    (res : loc) (a l r : hval) (ks : list string) :
  (forall base a' l' r', framed base (rec a' l' r') any) ->
  (forall a' l' r' h1 h2 v,
     rec a' l' r' h1 = (h2, Returned v) -> built (List.length h1) h2 v) ->
  forall h h',
    filled res h ->
    for_each ks (hmerge_key rec res a l r) h = (h', Returned tt) ->
    filled res h'.
Proof.
  intros Frame Rec. induction ks as [|key ks IH]; intros h h' F H.
  - injection H as <-. exact F.
  - cbn [for_each] in H. apply mbind_Returned in H.
    destruct H as [h1 [[] [H1 H2]]].
    apply (IH h1 h'); [|exact H2].
    exact (filled_key rec res a l r key h h1 Frame Rec F H1).
Qed.

Section Built.

Context {order : SetOrder}.

(** X18. The document [merge_dicts] returns is built of new objects.  The
    dict returned, and every dict and list reached from it through dict
    values, was made by the call; the other values are not references.
    So no dict of the result, and no list of it, is an object of the
    arguments: only the elements of lists are shared. *)
Theorem merge_result_is_new (fuel : nat) :
  forall (a l r : hval) (h h' : heap) (v : hval),
  hmerge_dicts fuel a l r h = (h', Returned v) ->
  built (List.length h) h' v.
Proof.
  induction fuel as [|n IH]; intros a l r h h' v H; [discriminate|].
  change (hmerge_dicts (S n) a l r h)
    with (hmerge_loop (hmerge_dicts n) (List.length h) a l r (h ++ [ODict []]))
    in H.
  unfold hmerge_loop in H.
  apply mbind_Returned in H. destruct H as [h1 [ia [Da H]]].
  apply dict_items_Returned in Da. subst h1.
  apply mbind_Returned in H. destruct H as [h1 [il [Dl H]]].
  apply dict_items_Returned in Dl. subst h1.
  apply mbind_Returned in H. destruct H as [h1 [ir [Dr H]]].
  apply dict_items_Returned in Dr. subst h1.
  apply mbind_Returned in H. destruct H as [h1 [[] [Loop R]]].
  injection R as <- <-.
  assert (F0 : filled (List.length h) (h ++ [ODict []])).
  { exists []. split; [apply nth_error_last|]. intros key x []. }
  destruct (filled_loop (hmerge_dicts n) (List.length h) a l r _
              (fun base => framed_hmerge_dicts base n) IH _ _ F0 Loop)
    as [ritems [N B]].
  apply (built_dict _ _ _ ritems); [lia|exact N|].
  intros key x I. apply (built_mono (S (List.length h))); [lia|].
  exact (B key x I).
Qed.

End Built.

Lemma merge_result_is_new_witness :
  built 7
    (fst (@hmerge_dicts first_seen_order 3 (HRef 1) (HRef 3) (HRef 6)
                        example_store))
    (HRef 7).
Proof.
  apply (@merge_result_is_new first_seen_order 3 (HRef 1) (HRef 3) (HRef 6)
           example_store).
  reflexivity.
Defined.

Lemma merge_lists_shares_witness :
  HRef 7 = HRef (List.length example_store) /\
  exists items,
    fst (hmerge_lists [HRef 0; HRef 2; HRef 4] example_store) =
    example_store ++ [OList items] /\
    forall x, In x items ->
              element_of example_store [HRef 0; HRef 2; HRef 4] x.
Proof.
  apply (merge_lists_shares [HRef 0; HRef 2; HRef 4] example_store).
  reflexivity.
Defined.
